(** * The ffr device layer of LumixEngine: handle pools, DDS loading,
    uniform slots and program building.

  A shallow embedding of [ffr.cpp]: machine integers are [Z] with their
  wrap-around written out, the intrusive free list of [Pool] is a list of
  cells, and the entry points run in a small state monad over the device
  state [g_ffr] and the log of native calls they issue.  The build
  modelled is the release build: [CHECK_GL(gl)] is [gl] and [Uniform] has
  no [debug_name]. *)

From Stdlib Require Import ZArith Lia Bool String Ascii.
From Stdlib Require Strings.Byte.
From stdpp Require Import base list gmap.

Local Open Scope Z_scope.

(* ================================================================== *)
(** ** Machine integers *)

Definition INT_MAX : Z := 2147483647.

(** [uint] arithmetic is modulo 2^32. *)
Definition to_uint (z : Z) : Z := z mod 4294967296.

(** Conversion of a 32-bit pattern to [int] (two's complement). *)
Definition to_int (z : Z) : Z := (z + 2147483648) mod 4294967296 - 2147483648.

(** [a & b] used as a condition. *)
Definition has_bits (a b : Z) : bool := negb (Z.land a b =? 0).

(* ================================================================== *)
(** ** [template <typename T, int MAX_COUNT> struct Pool] *)

Section PoolDef.
Context {T : Type}.

(** One element of [values].  While a slot is free its first word is
    read through [int*] as the index of the next free slot; once the
    owner has written the object the word is part of a [T]. *)
Inductive cell : Type :=
| Link (next : Z)
| Obj (v : T).

Record Pool : Type := mkPool { values : list cell; first_free : Z }.

(** [*((int* )&values[idx])] as an rvalue.  [None]: the access is out
    of bounds, or the word belongs to a live object. *)
Definition load_int (vs : list cell) (idx : Z) : option Z :=
  if idx <? 0 then None
  else match vs !! Z.to_nat idx with
       | Some (Link n) => Some n
       | _ => None
       end.

(** [*((int* )&values[idx]) = n].  [None]: out of bounds. *)
Definition store_int (vs : list cell) (idx n : Z) : option (list cell) :=
  if (0 <=? idx) && (idx <? Z.of_nat (length vs))
  then Some (<[Z.to_nat idx := Link n]> vs)
  else None.

(** [Pool::create].  Every instantiation in [g_ffr] has
    [MAX_COUNT >= 1]; for [MAX_COUNT <= 0] the last store of the source
    is out of bounds and the list update below does nothing. *)
Definition create (MAX_COUNT : Z) : Pool :=
  let linked := (λ i, Link (i + 1)) <$> seqZ 0 MAX_COUNT in
  {| values := <[Z.to_nat (MAX_COUNT - 1) := Link (-1)]> linked;
     first_free := 0 |}.

(** [Pool::alloc]: the returned [int] and the pool afterwards. *)
Definition alloc (p : Pool) : option (Z * Pool) :=
  if first_free p =? -1 then Some (-1, p)
  else
    let id := first_free p in
    match load_int (values p) id with
    | Some nxt => Some (id, {| values := values p; first_free := nxt |})
    | None => None
    end.

(** [Pool::dealloc(uint idx)]. *)
Definition dealloc (p : Pool) (idx : Z) : option Pool :=
  match store_int (values p) idx (first_free p) with
  | Some vs => Some {| values := vs; first_free := to_int idx |}
  | None => None
  end.

(** [Pool::isFull]. *)
Definition isFull (p : Pool) : bool := first_free p =? -1.

(** [operator[]] read as a [T]. *)
Definition pool_get (p : Pool) (idx : Z) : option T :=
  if idx <? 0 then None
  else match values p !! Z.to_nat idx with
       | Some (Obj v) => Some v
       | _ => None
       end.

(** [pool[idx] = v]: the owner of a slot writes its object. *)
Definition pool_set (p : Pool) (idx : Z) (v : T) : option Pool :=
  if (0 <=? idx) && (idx <? Z.of_nat (length (values p)))
  then Some {| values := <[Z.to_nat idx := Obj v]> (values p);
               first_free := first_free p |}
  else None.

(** [n] calls of [alloc] in a row, with the indices they return. *)
Fixpoint alloc_n (n : nat) (p : Pool) : option (list Z * Pool) :=
  match n with
  | O => Some ([], p)
  | S n' =>
      match alloc p with
      | Some (id, p1) =>
          match alloc_n n' p1 with
          | Some (ids, p2) => Some (id :: ids, p2)
          | None => None
          end
      | None => None
      end
  end.

(** *** A client of the pool

    The pool hands out indices and takes them back; which indices are
    live is known to its callers only.  A client is the pool together
    with the handles it holds. *)

Inductive pool_op : Type :=
| OpAlloc
| OpDealloc (h : Z)
| OpStore (h : Z) (v : T).

Record client : Type := mkClient { c_pool : Pool; c_live : list Z }.

Inductive outcome : Type :=
| Ok (c : client)
| Misuse        (* the caller passed a handle it does not hold *)
| Undefined.    (* an access outside [values] *)

Definition holds (c : client) (h : Z) : bool := bool_decide (h ∈ c_live c).

Definition release (h : Z) (l : list Z) : list Z :=
  filter (λ x, x ≠ h) l.

Definition step (c : client) (op : pool_op) : outcome :=
  match op with
  | OpAlloc =>
      match alloc (c_pool c) with
      | Some (id, p) =>
          Ok {| c_pool := p;
                c_live := if id =? -1 then c_live c
                          else to_uint id :: c_live c |}
      | None => Undefined
      end
  | OpDealloc h =>
      if holds c h then
        match dealloc (c_pool c) h with
        | Some p => Ok {| c_pool := p; c_live := release h (c_live c) |}
        | None => Undefined
        end
      else Misuse
  | OpStore h v =>
      if holds c h then
        match pool_set (c_pool c) h v with
        | Some p => Ok {| c_pool := p; c_live := c_live c |}
        | None => Undefined
        end
      else Misuse
  end.

Fixpoint run (ops : list pool_op) (c : client) : outcome :=
  match ops with
  | [] => Ok c
  | op :: rest =>
      match step c op with
      | Ok c' => run rest c'
      | bad => bad
      end
  end.

Definition fresh (MAX_COUNT : Z) : client :=
  {| c_pool := create MAX_COUNT; c_live := [] |}.

(** The free list as a list of indices: [chain vs ff fl] when following
    the links from [ff] visits exactly [fl] and ends at [-1]. *)
Inductive chain (vs : list cell) : Z → list Z → Prop :=
| chain_end : chain vs (-1) []
| chain_link i nxt fl :
    0 <= i →
    vs !! Z.to_nat i = Some (Link nxt) →
    chain vs nxt fl →
    chain vs i (i :: fl).

(** What holds of a pool of capacity [N] between two calls. *)
Record pool_inv (N : Z) (c : client) (fl : list Z) : Prop := {
  inv_len : Z.of_nat (length (values (c_pool c))) = N;
  inv_chain : chain (values (c_pool c)) (first_free (c_pool c)) fl;
  inv_perm : fl ++ c_live c ≡ₚ seqZ 0 N
}.
End PoolDef.

Global Arguments cell : clear implicits.
Global Arguments Pool : clear implicits.
Global Arguments pool_op : clear implicits.
Global Arguments client : clear implicits.
Global Arguments outcome : clear implicits.


(* ================================================================== *)
(** ** OpenGL enumerants used by the layer (values of the OpenGL registry) *)

Definition GL_ZERO : Z := 0.
Definition GL_FALSE : Z := 0.
Definition GL_TRUE : Z := 1.
Definition GL_TRIANGLES : Z := 0x0004.
Definition GL_UNPACK_SWAP_BYTES : Z := 0x0CF0.
Definition GL_TEXTURE_2D : Z := 0x0DE1.
Definition GL_UNSIGNED_BYTE : Z := 0x1401.
Definition GL_UNSIGNED_SHORT : Z := 0x1403.
Definition GL_INT : Z := 0x1404.
Definition GL_FLOAT : Z := 0x1406.
Definition GL_RGB : Z := 0x1907.
Definition GL_LINEAR : Z := 0x2601.
Definition GL_LINEAR_MIPMAP_LINEAR : Z := 0x2703.
Definition GL_TEXTURE_MAG_FILTER : Z := 0x2800.
Definition GL_TEXTURE_MIN_FILTER : Z := 0x2801.
Definition GL_RGB5 : Z := 0x8050.
Definition GL_RGB8 : Z := 0x8051.
Definition GL_RGB5_A1 : Z := 0x8057.
Definition GL_RGBA8 : Z := 0x8058.
Definition GL_BGR : Z := 0x80E0.
Definition GL_BGRA : Z := 0x80E1.
Definition GL_TEXTURE_MAX_LEVEL : Z := 0x813D.
Definition GL_UNSIGNED_SHORT_5_6_5 : Z := 0x8363.
Definition GL_UNSIGNED_SHORT_1_5_5_5_REV : Z := 0x8366.
Definition GL_COMPRESSED_RGBA_S3TC_DXT1_EXT : Z := 0x83F1.
Definition GL_COMPRESSED_RGBA_S3TC_DXT3_EXT : Z := 0x83F2.
Definition GL_COMPRESSED_RGBA_S3TC_DXT5_EXT : Z := 0x83F3.
Definition GL_TEXTURE0 : Z := 0x84C0.
Definition GL_TEXTURE_CUBE_MAP : Z := 0x8513.
Definition GL_TEXTURE_CUBE_MAP_POSITIVE_X : Z := 0x8515.
Definition GL_ELEMENT_ARRAY_BUFFER : Z := 0x8893.
Definition GL_FRAGMENT_SHADER : Z := 0x8B30.
Definition GL_VERTEX_SHADER : Z := 0x8B31.
Definition GL_FLOAT_VEC2 : Z := 0x8B50.
Definition GL_FLOAT_VEC3 : Z := 0x8B51.
Definition GL_FLOAT_VEC4 : Z := 0x8B52.
Definition GL_FLOAT_MAT4 : Z := 0x8B5C.
Definition GL_SAMPLER_2D : Z := 0x8B5E.
Definition GL_SAMPLER_CUBE : Z := 0x8B60.
Definition GL_FLOAT_MAT3x4 : Z := 0x8B68.
Definition GL_FLOAT_MAT4x3 : Z := 0x8B6A.
Definition GL_COMPILE_STATUS : Z := 0x8B81.
Definition GL_LINK_STATUS : Z := 0x8B82.
Definition GL_INFO_LOG_LENGTH : Z := 0x8B84.
Definition GL_ACTIVE_UNIFORMS : Z := 0x8B86.
Definition GL_SRGB8 : Z := 0x8C41.
Definition GL_SRGB8_ALPHA8 : Z := 0x8C43.
Definition GL_COMPRESSED_SRGB_ALPHA_S3TC_DXT1_EXT : Z := 0x8C4D.
Definition GL_COMPRESSED_SRGB_ALPHA_S3TC_DXT3_EXT : Z := 0x8C4E.
Definition GL_COMPRESSED_SRGB_ALPHA_S3TC_DXT5_EXT : Z := 0x8C4F.
Definition GL_COMPRESSED_RED_RGTC1 : Z := 0x8DBB.
Definition GL_COMPRESSED_RG_RGTC2 : Z := 0x8DBD.

(* ================================================================== *)
(** ** Bytes and little-endian words *)

Definition byte_val (b : Byte.byte) : Z := Z.of_N (Byte.to_N b).

(** Four bytes of memory read as a [uint] (the layer runs on x86). *)
Definition le32 (b0 b1 b2 b3 : Byte.byte) : Z :=
  byte_val b0 + 256 * byte_val b1 + 65536 * byte_val b2
  + 16777216 * byte_val b3.

Fixpoint le_words (bs : list Byte.byte) : list Z :=
  match bs with
  | b0 :: b1 :: b2 :: b3 :: rest => le32 b0 b1 b2 b3 :: le_words rest
  | _ => []
  end.

(* ================================================================== *)
(** ** [namespace DDS] *)

Module DDS.

Definition DDS_MAGIC : Z := 0x20534444.
Definition DDSD_CAPS : Z := 0x00000001.
Definition DDSD_HEIGHT : Z := 0x00000002.
Definition DDSD_WIDTH : Z := 0x00000004.
Definition DDSD_PITCH : Z := 0x00000008.
Definition DDSD_PIXELFORMAT : Z := 0x00001000.
Definition DDSD_MIPMAPCOUNT : Z := 0x00020000.
Definition DDSD_LINEARSIZE : Z := 0x00080000.
Definition DDSD_DEPTH : Z := 0x00800000.
Definition DDPF_ALPHAPIXELS : Z := 0x00000001.
Definition DDPF_FOURCC : Z := 0x00000004.
Definition DDPF_INDEXED : Z := 0x00000020.
Definition DDPF_RGB : Z := 0x00000040.
Definition DDSCAPS_COMPLEX : Z := 0x00000008.
Definition DDSCAPS_TEXTURE : Z := 0x00001000.
Definition DDSCAPS_MIPMAP : Z := 0x00400000.
Definition DDSCAPS2_CUBEMAP : Z := 0x00000200.

(** The multi-character literals ['1ITA'], ['1TXD'], ...: the first
    character is the most significant byte. *)
Definition D3DFMT_ATI1 : Z := 0x31495441.
Definition D3DFMT_ATI2 : Z := 0x32495441.
Definition D3DFMT_DXT1 : Z := 0x31545844.
Definition D3DFMT_DXT2 : Z := 0x32545844.
Definition D3DFMT_DXT3 : Z := 0x33545844.
Definition D3DFMT_DXT4 : Z := 0x34545844.
Definition D3DFMT_DXT5 : Z := 0x35545844.

(** [PixelFormat]; its [dwSize] and [dwFlags] carry the prefix [pf_]
    to tell them from the fields of [Header]. *)
Record PixelFormat : Type := {
  pf_dwSize : Z;
  pf_dwFlags : Z;
  dwFourCC : Z;
  dwRGBBitCount : Z;
  dwRBitMask : Z;
  dwGBitMask : Z;
  dwBBitMask : Z;
  dwAlphaBitMask : Z
}.

Record Caps2 : Type := {
  dwCaps1 : Z;
  dwCaps2 : Z;
  dwDDSX : Z;
  dwReserved : Z
}.

Record Header : Type := {
  dwMagic : Z;
  dwSize : Z;
  dwFlags : Z;
  dwHeight : Z;
  dwWidth : Z;
  dwPitchOrLinearSize : Z;
  dwDepth : Z;
  dwMipMapCount : Z;
  dwReserved1 : list Z;
  pixelFormat : PixelFormat;
  caps2 : Caps2;
  dwReserved2 : Z
}.

(** The 128 bytes that [blob.read(&hdr, sizeof(hdr))] copies over
    [hdr], as the 32 little-endian words they are. *)
Definition header_of_bytes (bs : list Byte.byte) : Header :=
  let w := λ i : nat, le_words bs !!! i in
  {| dwMagic := w 0%nat;
     dwSize := w 1%nat;
     dwFlags := w 2%nat;
     dwHeight := w 3%nat;
     dwWidth := w 4%nat;
     dwPitchOrLinearSize := w 5%nat;
     dwDepth := w 6%nat;
     dwMipMapCount := w 7%nat;
     dwReserved1 := take 11 (drop 8 (le_words bs));
     pixelFormat :=
       {| pf_dwSize := w 19%nat;
          pf_dwFlags := w 20%nat;
          dwFourCC := w 21%nat;
          dwRGBBitCount := w 22%nat;
          dwRBitMask := w 23%nat;
          dwGBitMask := w 24%nat;
          dwBBitMask := w 25%nat;
          dwAlphaBitMask := w 26%nat |};
     caps2 :=
       {| dwCaps1 := w 27%nat;
          dwCaps2 := w 28%nat;
          dwDDSX := w 29%nat;
          dwReserved := w 30%nat |};
     dwReserved2 := w 31%nat |}.

Record LoadInfo : Type := {
  compressed : bool;
  swap : bool;
  palette : bool;
  blockBytes : Z;
  internalFormat : Z;
  internalSRGBFormat : Z;
  externalFormat : Z;
  type : Z
}.

Definition sizeDXTC (w h format : Z) : Z :=
  let is_dxt1 := (format =? GL_COMPRESSED_RGBA_S3TC_DXT1_EXT)
                 || (format =? GL_COMPRESSED_SRGB_ALPHA_S3TC_DXT1_EXT) in
  let is_ati := format =? GL_COMPRESSED_RED_RGTC1 in
  to_uint (to_uint (to_uint (w + 3) / 4 * (to_uint (h + 3) / 4))
           * (if is_dxt1 || is_ati then 8 else 16)).

Definition isDXT1 (pf : PixelFormat) : bool :=
  has_bits (pf_dwFlags pf) DDPF_FOURCC && (dwFourCC pf =? D3DFMT_DXT1).

Definition isATI1 (pf : PixelFormat) : bool :=
  has_bits (pf_dwFlags pf) DDPF_FOURCC && (dwFourCC pf =? D3DFMT_ATI1).

Definition isATI2 (pf : PixelFormat) : bool :=
  has_bits (pf_dwFlags pf) DDPF_FOURCC && (dwFourCC pf =? D3DFMT_ATI2).

Definition isDXT3 (pf : PixelFormat) : bool :=
  has_bits (pf_dwFlags pf) DDPF_FOURCC && (dwFourCC pf =? D3DFMT_DXT3).

Definition isDXT5 (pf : PixelFormat) : bool :=
  has_bits (pf_dwFlags pf) DDPF_FOURCC && (dwFourCC pf =? D3DFMT_DXT5).

Definition isBGRA8 (pf : PixelFormat) : bool :=
  has_bits (pf_dwFlags pf) DDPF_RGB
  && has_bits (pf_dwFlags pf) DDPF_ALPHAPIXELS
  && (dwRGBBitCount pf =? 32)
  && (dwRBitMask pf =? 0xff0000)
  && (dwGBitMask pf =? 0xff00)
  && (dwBBitMask pf =? 0xff)
  && (dwAlphaBitMask pf =? 0xff000000).

Definition isBGR8 (pf : PixelFormat) : bool :=
  has_bits (pf_dwFlags pf) DDPF_ALPHAPIXELS
  && negb (has_bits (pf_dwFlags pf) DDPF_ALPHAPIXELS)
  && (dwRGBBitCount pf =? 24)
  && (dwRBitMask pf =? 0xff0000)
  && (dwGBitMask pf =? 0xff00)
  && (dwBBitMask pf =? 0xff).

Definition isBGR5A1 (pf : PixelFormat) : bool :=
  has_bits (pf_dwFlags pf) DDPF_RGB
  && has_bits (pf_dwFlags pf) DDPF_ALPHAPIXELS
  && (dwRGBBitCount pf =? 16)
  && (dwRBitMask pf =? 0x00007c00)
  && (dwGBitMask pf =? 0x000003e0)
  && (dwBBitMask pf =? 0x0000001f)
  && (dwAlphaBitMask pf =? 0x00008000).

Definition isBGR565 (pf : PixelFormat) : bool :=
  has_bits (pf_dwFlags pf) DDPF_RGB
  && negb (has_bits (pf_dwFlags pf) DDPF_ALPHAPIXELS)
  && (dwRGBBitCount pf =? 16)
  && (dwRBitMask pf =? 0x0000f800)
  && (dwGBitMask pf =? 0x000007e0)
  && (dwBBitMask pf =? 0x0000001f).

Definition isINDEX8 (pf : PixelFormat) : bool :=
  has_bits (pf_dwFlags pf) DDPF_INDEXED && (dwRGBBitCount pf =? 8).

(** The members an initialiser list leaves out are zero. *)
Definition loadInfoDXT1 : LoadInfo :=
  {| compressed := true; swap := false; palette := false; blockBytes := 8;
     internalFormat := GL_COMPRESSED_RGBA_S3TC_DXT1_EXT;
     internalSRGBFormat := GL_COMPRESSED_SRGB_ALPHA_S3TC_DXT1_EXT;
     externalFormat := 0; type := 0 |}.
Definition loadInfoDXT3 : LoadInfo :=
  {| compressed := true; swap := false; palette := false; blockBytes := 16;
     internalFormat := GL_COMPRESSED_RGBA_S3TC_DXT3_EXT;
     internalSRGBFormat := GL_COMPRESSED_SRGB_ALPHA_S3TC_DXT3_EXT;
     externalFormat := 0; type := 0 |}.
Definition loadInfoDXT5 : LoadInfo :=
  {| compressed := true; swap := false; palette := false; blockBytes := 16;
     internalFormat := GL_COMPRESSED_RGBA_S3TC_DXT5_EXT;
     internalSRGBFormat := GL_COMPRESSED_SRGB_ALPHA_S3TC_DXT5_EXT;
     externalFormat := 0; type := 0 |}.
Definition loadInfoATI1 : LoadInfo :=
  {| compressed := true; swap := false; palette := false; blockBytes := 8;
     internalFormat := GL_COMPRESSED_RED_RGTC1;
     internalSRGBFormat := GL_ZERO;
     externalFormat := 0; type := 0 |}.
Definition loadInfoATI2 : LoadInfo :=
  {| compressed := true; swap := false; palette := false; blockBytes := 16;
     internalFormat := GL_COMPRESSED_RG_RGTC2;
     internalSRGBFormat := GL_ZERO;
     externalFormat := 0; type := 0 |}.
Definition loadInfoBGRA8 : LoadInfo :=
  {| compressed := false; swap := false; palette := false; blockBytes := 4;
     internalFormat := GL_RGBA8; internalSRGBFormat := GL_SRGB8_ALPHA8;
     externalFormat := GL_BGRA; type := GL_UNSIGNED_BYTE |}.
Definition loadInfoBGR8 : LoadInfo :=
  {| compressed := false; swap := false; palette := false; blockBytes := 3;
     internalFormat := GL_RGB8; internalSRGBFormat := GL_SRGB8;
     externalFormat := GL_BGR; type := GL_UNSIGNED_BYTE |}.
Definition loadInfoBGR5A1 : LoadInfo :=
  {| compressed := false; swap := true; palette := false; blockBytes := 2;
     internalFormat := GL_RGB5_A1; internalSRGBFormat := GL_ZERO;
     externalFormat := GL_BGRA; type := GL_UNSIGNED_SHORT_1_5_5_5_REV |}.
Definition loadInfoBGR565 : LoadInfo :=
  {| compressed := false; swap := true; palette := false; blockBytes := 2;
     internalFormat := GL_RGB5; internalSRGBFormat := GL_ZERO;
     externalFormat := GL_RGB; type := GL_UNSIGNED_SHORT_5_6_5 |}.
Definition loadInfoIndex8 : LoadInfo :=
  {| compressed := false; swap := false; palette := true; blockBytes := 1;
     internalFormat := GL_RGB8; internalSRGBFormat := GL_SRGB8;
     externalFormat := GL_BGRA; type := GL_UNSIGNED_BYTE |}.

(** The chain of tests at the head of [loadTexture] that picks [li];
    [None] is its final [return false]. *)
Definition classify (pf : PixelFormat) : option LoadInfo :=
  if isDXT1 pf then Some loadInfoDXT1
  else if isDXT3 pf then Some loadInfoDXT3
  else if isDXT5 pf then Some loadInfoDXT5
  else if isATI1 pf then Some loadInfoATI1
  else if isATI2 pf then Some loadInfoATI2
  else if isBGRA8 pf then Some loadInfoBGRA8
  else if isBGR8 pf then Some loadInfoBGR8
  else if isBGR5A1 pf then Some loadInfoBGR5A1
  else if isBGR565 pf then Some loadInfoBGR565
  else if isINDEX8 pf then Some loadInfoIndex8
  else None.

End DDS.

(* ================================================================== *)
(** ** The objects kept in the pools *)

Module UniformType.
Inductive t : Set := INT | FLOAT | VEC2 | VEC3 | VEC4 | MAT4 | MAT4X3 | MAT3X4.
End UniformType.

Module ShaderType.
Inductive t : Set := VERTEX | FRAGMENT.
End ShaderType.

Module Buffer.
Definition MAX_COUNT : Z := 4096.
Record t : Type := { handle : Z }.
End Buffer.

(** [data] points to storage owned by the slot alone; the record holds
    the bytes it points to. *)
Module Uniform.
Definition MAX_COUNT : Z := 256.
Record t : Type := { type : UniformType.t; count : Z; data : list Byte.byte }.
End Uniform.

Module Texture.
Definition MAX_COUNT : Z := 4096.
Record t : Type := { handle : Z; cubemap : bool }.
End Texture.

(** [uniforms] is the part [uniforms[0 .. uniforms_count)] of the array. *)
Module Program.
Definition MAX_COUNT : Z := 1024.
Record entry : Type := { loc : Z; uniform : Z }.
Record t : Type := { handle : Z; uniforms : list entry }.
Definition uniforms_count (p : t) : Z := Z.of_nat (length (uniforms p)).
End Program.

Record TextureInfo : Type := {
  width : Z;
  height : Z;
  depth : Z;
  layers : Z;
  mips : Z;
  is_cubemap : bool
}.

(* ================================================================== *)
(** ** Native calls and what the layer lets the outside see *)

(** Pixel data handed to the driver: bytes, or the [uint]s of an
    unpacked palette image. *)
Inductive pixels : Type :=
| U8s (l : list Byte.byte)
| U32s (l : list Z).

Inductive gl_call : Type :=
| glViewport (x y w h : Z)
| glScissor (x y w h : Z)
| glDrawElements (mode count type offset : Z)
| glBindBuffer (target buffer : Z)
| glActiveTexture (texture : Z)
| glUseProgram (program : Z)
| glUniformMatrix4fv (location count : Z) (transpose : bool) (value : list Byte.byte)
| glUniformMatrix4x3fv (location count : Z) (transpose : bool) (value : list Byte.byte)
| glUniformMatrix3x4fv (location count : Z) (transpose : bool) (value : list Byte.byte)
| glUniform4fv (location count : Z) (value : list Byte.byte)
| glUniform3fv (location count : Z) (value : list Byte.byte)
| glUniform2fv (location count : Z) (value : list Byte.byte)
| glUniform1fv (location count : Z) (value : list Byte.byte)
| glUniform1i (location v0 : Z)
| glGenTextures (n : Z)
| glBindTexture (target texture : Z)
| glDeleteTextures (n texture : Z)
| glCompressedTexImage2D
    (target level internalformat width height border imageSize : Z)
    (data : list Byte.byte)
| glTexImage2D
    (target level internalformat width height border format type : Z)
    (data : pixels)
| glTexParameteri (target pname param : Z)
| glPixelStorei (pname param : Z)
| glCreateProgram
| glCreateShader (type : Z)
| glShaderSource (shader count : Z) (strings : list string)
| glCompileShader (shader : Z)
| glGetShaderiv (shader pname : Z)
| glGetShaderInfoLog (shader bufSize : Z)
| glDeleteShader (shader : Z)
| glAttachShader (program shader : Z)
| glLinkProgram (program : Z)
| glGetProgramiv (program pname : Z)
| glGetProgramInfoLog (program bufSize : Z)
| glDeleteProgram (program : Z)
| glGetActiveUniform (program index bufSize : Z)
| glGetUniformLocation (program : Z) (name : string).

(** What a native call hands back: its return value or what it writes
    through its out-parameters. *)
Inductive gl_reply : Type :=
| RNone
| RInt (v : Z)
| RText (s : string)
| RUniform (size type : Z) (name : string).

Definition as_int (r : gl_reply) : Z :=
  match r with RInt v => v | _ => 0 end.

Definition as_text (r : gl_reply) : string :=
  match r with RText s => s | _ => EmptyString end.

Definition as_uniform (r : gl_reply) : Z * Z * string :=
  match r with
  | RUniform size type name => (size, type, name)
  | _ => (0, 0, EmptyString)
  end.

Inductive event : Type :=
| EvAssert (cond : bool)                   (* ASSERT(cond) *)
| EvGL (c : gl_call) (r : gl_reply)        (* a native call and its reply *)
| EvLogError (system message : string)     (* g_log_error.log(system) << message *)
| EvBlobRead (size : Z).                   (* blob.read(_, size) *)

(** Declarations that the layer uses and [ffr.cpp] does not contain:
    the engine headers, [ffr.h], the operating system and the OpenGL
    driver.  The driver answers a call knowing everything that happened
    before it. *)
Class Platform : Type := {
  crc32 : string → Z;
  Blob : Type;
  (** [blob.read(dst, size)]: the bytes left in [dst], and the blob
      afterwards. *)
  blob_read : Blob → Z → list Byte.byte * Blob;
  INVALID_PROGRAM : Z;
  INVALID_UNIFORM : Z;
  ProgramHandle_isValid : Z → bool;
  TextureHandle_isValid : Z → bool;
  BufferHandle_isValid : Z → bool;
  TextureFlags_SRGB : Z;
  GetCurrentThreadId : Z;
  gl_driver : list event → gl_call → gl_reply
}.

(* ================================================================== *)
(** ** [g_ffr] and the monad of the entry points *)

Record Device : Type := {
  g_buffers : Pool Buffer.t;
  g_textures : Pool Texture.t;
  g_uniforms : Pool Uniform.t;
  g_programs : Pool Program.t;
  g_uniforms_hash_map : gmap Z Z;
  g_thread : Z;
  (** everything the layer has done that can be seen from outside,
      oldest first *)
  g_log : list event
}.

Definition with_buffers (f : Pool Buffer.t → Pool Buffer.t) (d : Device) : Device :=
  {| g_buffers := f (g_buffers d); g_textures := g_textures d;
     g_uniforms := g_uniforms d; g_programs := g_programs d;
     g_uniforms_hash_map := g_uniforms_hash_map d;
     g_thread := g_thread d; g_log := g_log d |}.

Definition with_textures (f : Pool Texture.t → Pool Texture.t) (d : Device) : Device :=
  {| g_buffers := g_buffers d; g_textures := f (g_textures d);
     g_uniforms := g_uniforms d; g_programs := g_programs d;
     g_uniforms_hash_map := g_uniforms_hash_map d;
     g_thread := g_thread d; g_log := g_log d |}.

Definition with_uniforms (f : Pool Uniform.t → Pool Uniform.t) (d : Device) : Device :=
  {| g_buffers := g_buffers d; g_textures := g_textures d;
     g_uniforms := f (g_uniforms d); g_programs := g_programs d;
     g_uniforms_hash_map := g_uniforms_hash_map d;
     g_thread := g_thread d; g_log := g_log d |}.

Definition with_programs (f : Pool Program.t → Pool Program.t) (d : Device) : Device :=
  {| g_buffers := g_buffers d; g_textures := g_textures d;
     g_uniforms := g_uniforms d; g_programs := f (g_programs d);
     g_uniforms_hash_map := g_uniforms_hash_map d;
     g_thread := g_thread d; g_log := g_log d |}.

Definition with_hash_map (f : gmap Z Z → gmap Z Z) (d : Device) : Device :=
  {| g_buffers := g_buffers d; g_textures := g_textures d;
     g_uniforms := g_uniforms d; g_programs := g_programs d;
     g_uniforms_hash_map := f (g_uniforms_hash_map d);
     g_thread := g_thread d; g_log := g_log d |}.

Definition with_log (f : list event → list event) (d : Device) : Device :=
  {| g_buffers := g_buffers d; g_textures := g_textures d;
     g_uniforms := g_uniforms d; g_programs := g_programs d;
     g_uniforms_hash_map := g_uniforms_hash_map d;
     g_thread := g_thread d; g_log := f (g_log d) |}.

(** An entry point either returns, or runs into an access outside an
    object (undefined behaviour); both leave a device state behind. *)
Inductive Res (A : Type) : Type :=
| Ret (a : A) (d : Device)
| Fault (d : Device).
Global Arguments Ret {A} a d.
Global Arguments Fault {A} d.

Definition M (A : Type) : Type := Device → Res A.

Definition ret {A} (a : A) : M A := λ d, Ret a d.

Definition bind {A B} (m : M A) (k : A → M B) : M B :=
  λ d, match m d with
       | Ret a d' => k a d'
       | Fault d' => Fault d'
       end.

Definition fault {A} : M A := λ d, Fault d.

Definition get_device : M Device := λ d, Ret d d.

Definition modify (f : Device → Device) : M unit := λ d, Ret () (f d).

Definition res_device {A} (r : Res A) : Device :=
  match r with Ret _ d => d | Fault d => d end.

Notation "'let*' x ':=' m 'in' k" :=
  (bind m (λ x, k))
  (at level 10, x name, m at level 100, k at level 200).
Notation "'let*' ' p ':=' m 'in' k" :=
  (bind m (λ x, match x with p => k end))
  (at level 10, p pattern, m at level 100, k at level 200).
Notation "m ;; k" :=
  (bind m (λ _, k)) (at level 100, k at level 200, right associativity).

(** An access that is undefined when [o] is [None]. *)
Definition defined {A} (o : option A) : M A :=
  match o with Some a => ret a | None => fault end.

(** The device after some more events. *)
Definition add_log (evs : list event) (d : Device) : Device :=
  with_log (λ l, l ++ evs) d.

Definition emit (e : event) : M unit := modify (add_log [e]).

Definition ASSERT (cond : bool) : M unit := emit (EvAssert cond).

Definition log_error (system message : string) : M unit :=
  emit (EvLogError system message).

Section Entry.
Context `{Platform}.

(** A native call whose reply is used. *)
Definition gl (c : gl_call) : M gl_reply :=
  λ d, let r := gl_driver (g_log d) c in
       Ret r (add_log [EvGL c r] d).

(** A native call that returns nothing.  [CHECK_GL(gl)] of a release
    build is [gl]. *)
Definition gl_ (c : gl_call) : M unit := emit (EvGL c RNone).

Definition read_blob (blob : Blob) (size : Z) : M (list Byte.byte * Blob) :=
  emit (EvBlobRead size);; ret (blob_read blob size).

Definition checkThread : M unit :=
  let* d := get_device in
  ASSERT (g_thread d =? GetCurrentThreadId).

Definition viewport (x y w h : Z) : M unit :=
  checkThread;;
  gl_ (glViewport x y w h).

Definition scissor (x y w h : Z) : M unit :=
  checkThread;;
  gl_ (glScissor x y w h).

Definition drawTriangles (indices_count : Z) : M unit :=
  checkThread;;
  gl_ (glDrawElements GL_TRIANGLES indices_count GL_UNSIGNED_SHORT 0).

Fixpoint for_each {A} (f : A → M unit) (l : list A) : M unit :=
  match l with
  | [] => ret ()
  | x :: rest => f x;; for_each f rest
  end.

(** The body of the loop of [useProgram]. *)
Definition upload_uniform (pu : Program.entry) : M unit :=
  let* d := get_device in
  let* u := defined (pool_get (g_uniforms d) (Program.uniform pu)) in
  let loc := Program.loc pu in
  let count := Uniform.count u in
  let data := Uniform.data u in
  match Uniform.type u with
  | UniformType.MAT4 => gl_ (glUniformMatrix4fv loc count false data)
  | UniformType.MAT4X3 => gl_ (glUniformMatrix4x3fv loc count false data)
  | UniformType.MAT3X4 => gl_ (glUniformMatrix3x4fv loc count false data)
  | UniformType.VEC4 => gl_ (glUniform4fv loc count data)
  | UniformType.VEC3 => gl_ (glUniform3fv loc count data)
  | UniformType.VEC2 => gl_ (glUniform2fv loc count data)
  | UniformType.FLOAT => gl_ (glUniform1fv loc count data)
  | UniformType.INT =>
      match data with
      | b0 :: b1 :: b2 :: b3 :: _ => gl_ (glUniform1i loc (to_int (le32 b0 b1 b2 b3)))
      | _ => fault
      end
  end.

Definition useProgram (handle : Z) : M unit :=
  if negb (ProgramHandle_isValid handle) then ret ()
  else
    let* d := get_device in
    let* prg := defined (pool_get (g_programs d) handle) in
    gl_ (glUseProgram (Program.handle prg));;
    for_each upload_uniform (Program.uniforms prg).

Definition bindTexture (tex_unit : Z) (handle : Z) : M unit :=
  if TextureHandle_isValid handle then
    let* d := get_device in
    let* t := defined (pool_get (g_textures d) handle) in
    gl_ (glActiveTexture (to_uint (GL_TEXTURE0 + tex_unit)));;
    gl_ (glBindTexture
           (if Texture.cubemap t then GL_TEXTURE_CUBE_MAP else GL_TEXTURE_2D)
           (Texture.handle t))
  else
    gl_ (glActiveTexture (to_uint (GL_TEXTURE0 + tex_unit)));;
    gl_ (glBindTexture GL_TEXTURE_2D 0).

Definition setIndexBuffer (handle : Z) : M unit :=
  if BufferHandle_isValid handle then
    let* d := get_device in
    let* b := defined (pool_get (g_buffers d) handle) in
    gl_ (glBindBuffer GL_ELEMENT_ARRAY_BUFFER (Buffer.handle b))
  else
    gl_ (glBindBuffer GL_ELEMENT_ARRAY_BUFFER 0).

End Entry.

(* ================================================================== *)
(** ** Loading a DDS container *)

(** Modelled from the spec: [Math::maximum] of [engine/math_utils.h],
    which is not part of the sources at hand; the larger of its two
    arguments ("halve width/height (floor, minimum 1)"). *)
Definition maximum (a b : Z) : Z := Z.max a b.

Section Loader.
Context `{Platform}.
Import DDS.

(** The mip loop of a block-compressed face; [n] levels are left. *)
Fixpoint compressed_mips (n : nat)
    (tex_img_target texture_target internal_format ix width height size : Z)
    (blob : Blob) : M Blob :=
  match n with
  | O => ret blob
  | S n' =>
      let* '(data, blob) := read_blob blob size in
      gl_ (glCompressedTexImage2D tex_img_target ix internal_format
             width height 0 size data);;
      gl_ (glTexParameteri texture_target GL_TEXTURE_MIN_FILTER GL_LINEAR_MIPMAP_LINEAR);;
      gl_ (glTexParameteri texture_target GL_TEXTURE_MAG_FILTER GL_LINEAR);;
      let width := maximum 1 (Z.shiftr width 1) in
      let height := maximum 1 (Z.shiftr height 1) in
      let size := sizeDXTC width height internal_format in
      compressed_mips n' tex_img_target texture_target internal_format
        (ix + 1) width height size blob
  end.

(** The mip loop of a paletted face. *)
Fixpoint palette_mips (n : nat) (li : LoadInfo) (pal : list Z)
    (tex_img_target internal_format ix width height size : Z)
    (blob : Blob) : M Blob :=
  match n with
  | O => ret blob
  | S n' =>
      let* '(data, blob) := read_blob blob size in
      let unpacked := (λ b, pal !!! Z.to_nat (byte_val b)) <$> data in
      gl_ (glTexImage2D tex_img_target ix internal_format width height 0
             (externalFormat li) (type li) (U32s unpacked));;
      let width := maximum 1 (Z.shiftr width 1) in
      let height := maximum 1 (Z.shiftr height 1) in
      let size := to_uint (width * height * blockBytes li) in
      palette_mips n' li pal tex_img_target internal_format
        (ix + 1) width height size blob
  end.

(** The mip loop of an uncompressed face. *)
Fixpoint plain_mips (n : nat) (li : LoadInfo)
    (tex_img_target internal_format ix width height size : Z)
    (blob : Blob) : M Blob :=
  match n with
  | O => ret blob
  | S n' =>
      let* '(data, blob) := read_blob blob size in
      gl_ (glTexImage2D tex_img_target ix internal_format width height 0
             (externalFormat li) (type li) (U8s data));;
      let width := maximum 1 (Z.shiftr width 1) in
      let height := maximum 1 (Z.shiftr height 1) in
      let size := to_uint (width * height * blockBytes li) in
      plain_mips n' li tex_img_target internal_format
        (ix + 1) width height size blob
  end.

(** One turn of the loop over [side].  [None]: the turn ended in
    [return false]. *)
Definition load_side (hdr : Header) (li : LoadInfo)
    (texture internal_format mipMapCount : Z) (is_cubemap : bool)
    (side : Z) (blob : Blob) : M (option Blob) :=
  let width := dwWidth hdr in
  let height := dwHeight hdr in
  let tex_img_target :=
    if is_cubemap then to_uint (GL_TEXTURE_CUBE_MAP_POSITIVE_X + side)
    else GL_TEXTURE_2D in
  let texture_target := if is_cubemap then GL_TEXTURE_CUBE_MAP else GL_TEXTURE_2D in
  gl_ (glBindTexture texture_target texture);;
  let* done :=
    if compressed li then
      let size := sizeDXTC width height internal_format in
      if negb (size =? dwPitchOrLinearSize hdr)
         || (Z.land (dwFlags hdr) DDSD_LINEARSIZE =? 0)
      then gl_ (glDeleteTextures 1 texture);; ret None
      else
        let* blob := compressed_mips (Z.to_nat mipMapCount)
                       tex_img_target texture_target internal_format
                       0 width height size blob in
        ret (Some blob)
    else if palette li then
      if (Z.land (dwFlags hdr) DDSD_PITCH =? 0)
         || negb (dwRGBBitCount (pixelFormat hdr) =? 8)
      then gl_ (glDeleteTextures 1 texture);; ret None
      else
        let size := to_uint (dwPitchOrLinearSize hdr * height) in
        if negb (size =? to_uint (width * height * blockBytes li))
        then gl_ (glDeleteTextures 1 texture);; ret None
        else
          let* '(pal, blob) := read_blob blob (4 * 256) in
          let* blob := palette_mips (Z.to_nat mipMapCount) li (le_words pal)
                         tex_img_target internal_format
                         0 width height size blob in
          ret (Some blob)
    else
      (if swap li then gl_ (glPixelStorei GL_UNPACK_SWAP_BYTES GL_TRUE)
       else ret ());;
      let size := to_uint (width * height * blockBytes li) in
      let* blob := plain_mips (Z.to_nat mipMapCount) li
                     tex_img_target internal_format
                     0 width height size blob in
      gl_ (glPixelStorei GL_UNPACK_SWAP_BYTES GL_FALSE);;
      ret (Some blob)
  in
  match done with
  | None => ret None
  | Some blob =>
      gl_ (glTexParameteri texture_target GL_TEXTURE_MAX_LEVEL
             (to_int (to_uint (mipMapCount - 1))));;
      ret (Some blob)
  end.

(** The loop over [side]; [false]: a turn ended in [return false]. *)
Fixpoint load_sides (hdr : Header) (li : LoadInfo)
    (texture internal_format mipMapCount : Z) (is_cubemap : bool)
    (sides : list Z) (blob : Blob) : M bool :=
  match sides with
  | [] => ret true
  | side :: rest =>
      let* r := load_side hdr li texture internal_format mipMapCount
                  is_cubemap side blob in
      match r with
      | None => ret false
      | Some blob =>
          load_sides hdr li texture internal_format mipMapCount
            is_cubemap rest blob
      end
  end.

(** [loadTexture(handle, input, input_size, flags, info)].  [blob] is the
    [InputBlob] over the input; [want_info] tells whether [info] is
    non-null, and the second component of the result is what is written
    through it. *)
Definition loadTexture (handle : Z) (blob : Blob) (flags : Z)
    (want_info : bool) : M (bool * option TextureInfo) :=
  checkThread;;
  let* '(bytes, blob) := read_blob blob 128 in
  let hdr := header_of_bytes bytes in
  if negb (dwMagic hdr =? DDS_MAGIC) || negb (dwSize hdr =? 124)
     || negb (has_bits (dwFlags hdr) DDSD_PIXELFORMAT)
     || negb (has_bits (dwFlags hdr) DDSD_CAPS)
  then
    log_error "renderer" "Wrong dds format or corrupted dds.";;
    ret (false, None)
  else
    match classify (pixelFormat hdr) with
    | None => ret (false, None)
    | Some li =>
        let is_cubemap := negb (Z.land (dwCaps2 (caps2 hdr)) DDSCAPS2_CUBEMAP =? 0) in
        let* r := gl (glGenTextures 1) in
        let texture := as_int r in
        if texture =? 0 then ret (false, None)
        else
          let is_srgb := has_bits flags TextureFlags_SRGB in
          let internal_format :=
            if is_srgb then internalSRGBFormat li else internalFormat li in
          let mipMapCount :=
            if has_bits (dwFlags hdr) DDSD_MIPMAPCOUNT then dwMipMapCount hdr
            else 1 in
          let* ok := load_sides hdr li texture internal_format mipMapCount
                       is_cubemap (seqZ 0 (if is_cubemap then 6 else 1)) blob in
          if negb ok then ret (false, None)
          else
            let info :=
              if want_info then
                Some {| width := dwWidth hdr; height := dwHeight hdr;
                        depth := 1; layers := 1; mips := mipMapCount;
                        is_cubemap := is_cubemap |}
              else None in
            let* d := get_device in
            let* ts := defined (pool_set (g_textures d) handle
                         {| Texture.handle := texture;
                            Texture.cubemap := is_cubemap |}) in
            modify (with_textures (λ _, ts));;
            ret (true, info)
    end.

End Loader.

(* ================================================================== *)
(** ** Uniform slots and programs *)

Global Instance UniformType_eq_dec : EqDecision UniformType.t.
Proof. solve_decision. Defined.

Definition shaderTypeToString (type : ShaderType.t) : string :=
  match type with
  | ShaderType.FRAGMENT => "fragment shader"
  | ShaderType.VERTEX => "vertex shader"
  end.

(** [getSize(UniformType)], with [sizeof(int) = sizeof(float) = 4]. *)
Definition getSize (type : UniformType.t) : Z :=
  match type with
  | UniformType.INT => 4
  | UniformType.FLOAT => 4
  | UniformType.VEC2 => 4 * 2
  | UniformType.VEC3 => 4 * 3
  | UniformType.VEC4 => 4 * 4
  | UniformType.MAT4 => 4 * 16
  | UniformType.MAT4X3 => 4 * 12
  | UniformType.MAT3X4 => 4 * 12
  end.

Definition byte_of (z : Z) : Byte.byte :=
  match Byte.of_N (Z.to_N (z mod 256)) with
  | Some b => b
  | None => Byte.x00
  end.

(** The four bytes of a 32-bit value in memory. *)
Definition le_bytes32 (z : Z) : list Byte.byte :=
  [byte_of z; byte_of (z / 256); byte_of (z / 65536); byte_of (z / 16777216)].

(** [memcpy(dst, src, n)] on the contents of the two buffers; [None]
    when either is shorter than [n]. *)
Definition memcpy (dst src : list Byte.byte) (n : nat) : option (list Byte.byte) :=
  if (n <=? length dst)%nat && (n <=? length src)%nat
  then Some (take n src ++ drop n dst)
  else None.

(** [preinit]: the pools and the empty name table.  [thread] is still
    the zero of static storage. *)
Definition preinit : Device :=
  {| g_buffers := create Buffer.MAX_COUNT;
     g_textures := create Texture.MAX_COUNT;
     g_uniforms := create Uniform.MAX_COUNT;
     g_programs := create Program.MAX_COUNT;
     g_uniforms_hash_map := ∅;
     g_thread := 0;
     g_log := [] |}.

Section Programs.
Context `{Platform}.

Definition allocUniform (name : string) (type : UniformType.t) (count : Z) : M Z :=
  let name_hash := crc32 name in
  let* d := get_device in
  match g_uniforms_hash_map d !! name_hash with
  | Some v => ret v
  | None =>
      if isFull (g_uniforms d) then
        log_error "Renderer" "FFR is out of free uniform slots.";;
        ret INVALID_UNIFORM
      else
        let* '(id, us) := defined (alloc (g_uniforms d)) in
        let byte_size := to_uint (getSize type * to_uint count) in
        let u := {| Uniform.type := type;
                    Uniform.count := to_uint count;
                    Uniform.data := replicate (Z.to_nat byte_size) Byte.x00 |} in
        let* us := defined (pool_set us id u) in
        modify (with_uniforms (λ _, us));;
        modify (with_hash_map (λ m, <[name_hash := to_uint id]> m));;
        ret (to_uint id)
  end.

(** The common shape of [setUniform1i], [setUniform2f], ...: check the
    thread, assert the type of the slot, copy [n] bytes over its data. *)
Definition set_uniform (expected : UniformType.t) (n : nat)
    (uniform : Z) (value : list Byte.byte) : M unit :=
  checkThread;;
  let* d := get_device in
  let* u := defined (pool_get (g_uniforms d) uniform) in
  ASSERT (bool_decide (Uniform.type u = expected));;
  let* data := defined (memcpy (Uniform.data u) value n) in
  let* us := defined (pool_set (g_uniforms d) uniform
               {| Uniform.type := Uniform.type u;
                  Uniform.count := Uniform.count u;
                  Uniform.data := data |}) in
  modify (with_uniforms (λ _, us)).

Definition setUniform1i (uniform value : Z) : M unit :=
  set_uniform UniformType.INT 4 uniform (le_bytes32 value).

Definition setUniform2f (uniform : Z) (value : list Byte.byte) : M unit :=
  set_uniform UniformType.VEC2 (4 * 2) uniform value.

Definition setUniform4f (uniform : Z) (value : list Byte.byte) : M unit :=
  set_uniform UniformType.VEC4 (4 * 4) uniform value.

Definition setUniformMatrix4f (uniform : Z) (value : list Byte.byte) : M unit :=
  set_uniform UniformType.MAT4 (4 * 16) uniform value.

Definition setUniformMatrix4x3f (uniform : Z) (value : list Byte.byte) : M unit :=
  set_uniform UniformType.MAT4X3 (4 * 12) uniform value.

Definition setUniformMatrix3x4f (uniform : Z) (value : list Byte.byte) : M unit :=
  set_uniform UniformType.MAT3X4 (4 * 12) uniform value.

(** [arr[i]] on an array argument of the caller. *)
Definition arg_at {A} (arr : list A) (i : Z) : M A :=
  if i <? 0 then fault else defined (arr !! Z.to_nat i).

Definition shader_type_of (type : ShaderType.t) : Z :=
  match type with
  | ShaderType.FRAGMENT => GL_FRAGMENT_SHADER
  | ShaderType.VERTEX => GL_VERTEX_SHADER
  end.

(** The strings in [combined_srcs[0 .. prefixes_count]] once the body of
    the stage loop has filled the array of 16. *)
Definition combine_srcs (src : string) (prefixes : list string)
    (prefixes_count : Z) : M (list string) :=
  if (prefixes_count <? 0) || (16 <=? prefixes_count) then fault
  else if (length prefixes <? Z.to_nat prefixes_count)%nat then fault
  else ret (take (Z.to_nat prefixes_count) prefixes ++ [src]).

(** One turn of the loop over the stages.  [true]: the turn ended in
    [return INVALID_PROGRAM]. *)
Definition compile_stage (prg : Z) (srcs : list string)
    (types : list ShaderType.t) (prefixes : list string)
    (prefixes_count : Z) (name : string) (i : Z) : M bool :=
  let* type := arg_at types i in
  let shader_type := shader_type_of type in
  let* r := gl (glCreateShader shader_type) in
  let shd := as_int r in
  let* src := arg_at srcs i in
  let* combined_srcs := combine_srcs src prefixes prefixes_count in
  gl_ (glShaderSource shd (1 + prefixes_count) combined_srcs);;
  gl_ (glCompileShader shd);;
  let* r := gl (glGetShaderiv shd GL_COMPILE_STATUS) in
  let compile_status := as_int r in
  if compile_status =? GL_FALSE then
    let* r := gl (glGetShaderiv shd GL_INFO_LOG_LENGTH) in
    let log_len := as_int r in
    (if 0 <? log_len then
       let* r := gl (glGetShaderInfoLog shd log_len) in
       let log_buf := as_text r in
       log_error "Renderer"
         (name ++ " - " ++ shaderTypeToString type ++ ": " ++ log_buf)
     else
       log_error "Renderer"
         ("Failed to compile shader " ++ name ++ " - "
          ++ shaderTypeToString type));;
    gl_ (glDeleteShader shd);;
    ret true
  else
    gl_ (glAttachShader prg shd);;
    gl_ (glDeleteShader shd);;
    ret false.

Fixpoint compile_stages (n : nat) (prg : Z) (srcs : list string)
    (types : list ShaderType.t) (prefixes : list string)
    (prefixes_count : Z) (name : string) (i : Z) : M bool :=
  match n with
  | O => ret false
  | S n' =>
      let* returned := compile_stage prg srcs types prefixes
                         prefixes_count name i in
      if returned then ret true
      else compile_stages n' prg srcs types prefixes prefixes_count
             name (i + 1)
  end.

(** The [switch] over the native type of an active uniform. *)
Definition uniform_type_of (type : Z) : M UniformType.t :=
  if (type =? GL_SAMPLER_CUBE) || (type =? GL_SAMPLER_2D) || (type =? GL_INT)
  then ret UniformType.INT
  else if type =? GL_FLOAT then ret UniformType.FLOAT
  else if type =? GL_FLOAT_VEC2 then ret UniformType.VEC2
  else if type =? GL_FLOAT_VEC3 then ret UniformType.VEC3
  else if type =? GL_FLOAT_VEC4 then ret UniformType.VEC4
  else if type =? GL_FLOAT_MAT4 then ret UniformType.MAT4
  else if type =? GL_FLOAT_MAT4x3 then ret UniformType.MAT4X3
  else if type =? GL_FLOAT_MAT3x4 then ret UniformType.MAT3X4
  else ASSERT false;; ret UniformType.VEC4.

(** One turn of the loop over the active uniforms of program slot [id]. *)
Definition reflect_uniform (prg id i : Z) : M unit :=
  let* r := gl (glGetActiveUniform prg i 32) in
  let '(size, type, name) := as_uniform r in
  let* ffr_type := uniform_type_of type in
  let* r := gl (glGetUniformLocation prg name) in
  let loc := as_int r in
  if 0 <=? loc then
    let* h := allocUniform name ffr_type size in
    let* d := get_device in
    let* p := defined (pool_get (g_programs d) id) in
    let* ps := defined (pool_set (g_programs d) id
                 {| Program.handle := Program.handle p;
                    Program.uniforms :=
                      Program.uniforms p
                      ++ [{| Program.loc := loc; Program.uniform := h |}] |}) in
    modify (with_programs (λ _, ps))
  else ret ().

Fixpoint reflect_uniforms (n : nat) (prg id i : Z) : M unit :=
  match n with
  | O => ret ()
  | S n' => reflect_uniform prg id i;; reflect_uniforms n' prg id (i + 1)
  end.

Definition MAX_SHADERS_PER_PROGRAM : Z := 16.

(** What [createProgram] does once every stage is compiled and
    attached: link, take a program slot, reflect the active uniforms. *)
Definition link_and_reflect (prg : Z) (name : string) : M Z :=
  gl_ (glLinkProgram prg);;
  let* r := gl (glGetProgramiv prg GL_LINK_STATUS) in
  let linked := as_int r in
  if linked =? GL_FALSE then
    let* r := gl (glGetProgramiv prg GL_INFO_LOG_LENGTH) in
    let log_len := as_int r in
    (if 0 <? log_len then
       let* r := gl (glGetProgramInfoLog prg log_len) in
       let log_buf := as_text r in
       log_error "Renderer" (name ++ ": " ++ log_buf)
     else
       log_error "Renderer" ("Failed to link program " ++ name));;
    gl_ (glDeleteProgram prg);;
    ret INVALID_PROGRAM
  else
    let* d := get_device in
    let* '(id, ps) := defined (alloc (g_programs d)) in
    let* ps := defined (pool_set ps id
                 {| Program.handle := prg; Program.uniforms := [] |}) in
    modify (with_programs (λ _, ps));;
    let* r := gl (glGetProgramiv prg GL_ACTIVE_UNIFORMS) in
    let uniforms_count := as_int r in
    let* uniforms_count :=
      if 32 <? uniforms_count then
        log_error "Renderer"
          "Too many uniforms per program, not all will be used.";;
        ret 32
      else ret uniforms_count in
    reflect_uniforms (Z.to_nat uniforms_count) prg id 0;;
    ret (to_uint id).

Definition createProgram (srcs : list string) (types : list ShaderType.t)
    (num : Z) (prefixes : list string) (prefixes_count : Z)
    (name : string) : M Z :=
  checkThread;;
  let* d := get_device in
  if isFull (g_programs d) then
    log_error "Renderer" "FFR is out of free program slots.";;
    ret INVALID_PROGRAM
  else
    ASSERT (prefixes_count <? 16 - 1);;
    if MAX_SHADERS_PER_PROGRAM <? num then
      log_error "Renderer" ("Too many shaders per program in " ++ name);;
      ret INVALID_PROGRAM
    else
      let* r := gl glCreateProgram in
      let prg := as_int r in
      let* returned := compile_stages (Z.to_nat num) prg srcs types prefixes
                         prefixes_count name 0 in
      if returned then ret INVALID_PROGRAM
      else link_and_reflect prg name.

End Programs.

(* ================================================================== *)
(** ** Reading the log, sequences of calls, and a platform to run on *)

(** The native calls among some events, in order. *)
Definition native_calls (evs : list event) : list gl_call :=
  omap (λ e, match e with EvGL c _ => Some c | _ => None end) evs.

Definition is_link (c : gl_call) : bool :=
  match c with glLinkProgram _ => true | _ => false end.

Definition is_gen_textures (c : gl_call) : bool :=
  match c with glGenTextures _ => true | _ => false end.

(** A compile status query that the driver answered with [GL_FALSE]. *)
Definition is_compile_failure (e : event) : bool :=
  match e with
  | EvGL (glGetShaderiv _ pname) r => (pname =? GL_COMPILE_STATUS) && (as_int r =? GL_FALSE)
  | _ => false
  end.

Definition compile_failed (evs : list event) : bool := existsb is_compile_failure evs.

(** Neither a failed compile status nor a link. *)
Definition quiet (e : event) : bool :=
  negb (is_compile_failure e)
  && match e with EvGL c _ => negb (is_link c) | _ => true end.

(** What [createProgram] reports for a stage that did not compile. *)
Definition compile_report (name : string) (type : ShaderType.t)
    (shd : Z) (log_length info_log : gl_reply) : list event :=
  if 0 <? as_int log_length then
    [EvGL (glGetShaderInfoLog shd (as_int log_length)) info_log;
     EvLogError "Renderer"
       (name ++ " - " ++ shaderTypeToString type ++ ": " ++ as_text info_log)]
  else
    [EvLogError "Renderer"
       ("Failed to compile shader " ++ name ++ " - " ++ shaderTypeToString type)].

Definition is_quiet (e : event) : Prop := quiet e = true.

(** The events of a stage that ended in [return INVALID_PROGRAM]. *)
Definition failed_stage (name : string) (evs : list event) : Prop :=
  ∃ pre shd type status log_length info_log,
    evs = pre
          ++ [EvGL (glGetShaderiv shd GL_COMPILE_STATUS) status;
              EvGL (glGetShaderiv shd GL_INFO_LOG_LENGTH) log_length]
          ++ compile_report name type shd log_length info_log
          ++ [EvGL (glDeleteShader shd) RNone]
    ∧ Forall is_quiet pre
    ∧ as_int status = GL_FALSE.

(** How a computation of the stage loop ends: with the report of a
    failed stage, or without any failed compile status and any link. *)
Definition stage_outcome (name : string) (d : Device) (r : Res bool) : Prop :=
  match r with
  | Ret true d' => ∃ evs, d' = add_log evs d ∧ failed_stage name evs
  | Ret false d' | Fault d' => ∃ evs, d' = add_log evs d ∧ Forall is_quiet evs
  end.

Definition no_failure (e : event) : Prop := is_compile_failure e = false.

(** The uploads [glCompressedTexImage2D] among some events, as
    (level, width, height, imageSize). *)
Definition compressed_uploads (evs : list event) : list (Z * Z * Z * Z) :=
  omap (λ e, match e with
             | EvGL (glCompressedTexImage2D _ level _ w h _ size _) _ =>
                 Some (level, w, h, size)
             | _ => None
             end) evs.

(** The sizes of the reads from the blob among some events. *)
Definition blob_reads (evs : list event) : list Z :=
  omap (λ e, match e with EvBlobRead n => Some n | _ => None end) evs.

(** The entry points that read or write uniform slots or the table of
    names. *)
Inductive device_op : Type :=
| DoAllocUniform (name : string) (type : UniformType.t) (count : Z)
| DoSetUniform (expected : UniformType.t) (n : nat) (uniform : Z) (value : list Byte.byte)
| DoCreateProgram (srcs : list string) (types : list ShaderType.t) (num : Z)
    (prefixes : list string) (prefixes_count : Z) (name : string)
| DoUseProgram (handle : Z).

Section Ops.
Context `{Platform}.

Definition perform (op : device_op) : M unit :=
  match op with
  | DoAllocUniform name type count => allocUniform name type count;; ret ()
  | DoSetUniform expected n uniform value => set_uniform expected n uniform value
  | DoCreateProgram srcs types num prefixes prefixes_count name =>
      createProgram srcs types num prefixes prefixes_count name;; ret ()
  | DoUseProgram handle => useProgram handle
  end.

Fixpoint perform_all (ops : list device_op) : M unit :=
  match ops with
  | [] => ret ()
  | op :: rest => perform op;; perform_all rest
  end.

End Ops.

(** What holds of the uniform pool and the table of names between two
    calls: the free list is well linked, and every registered slot is an
    index off the free list that holds a uniform. *)
Record uniforms_wf (d : Device) (fl : list Z) : Prop := {
  wf_size : Z.of_nat (length (values (g_uniforms d))) <= INT_MAX;
  wf_chain : chain (values (g_uniforms d)) (first_free (g_uniforms d)) fl;
  wf_fresh : NoDup fl;
  wf_range : ∀ i, i ∈ fl → i < Z.of_nat (length (values (g_uniforms d)));
  wf_table : ∀ k v, g_uniforms_hash_map d !! k = Some v →
               (v ∉ fl) ∧ is_Some (pool_get (g_uniforms d) v)
}.


(** The declaration a slot carries: its type and its count. *)
Definition slot_decl (d : Device) (h : Z) : option (UniformType.t * Z) :=
  match pool_get (g_uniforms d) h with
  | Some u => Some (Uniform.type u, Uniform.count u)
  | None => None
  end.

(** From [d] to [d'] the registered names keep their slots and the slots
    their declarations, and a full uniform pool stays full with the
    table as it is. *)
Record keeps_uniforms_from (d d' : Device) : Prop := {
  ku_wf : ∃ fl', uniforms_wf d' fl';
  ku_table : ∀ k v, g_uniforms_hash_map d !! k = Some v →
               g_uniforms_hash_map d' !! k = Some v;
  ku_decl : ∀ k v, g_uniforms_hash_map d !! k = Some v →
              slot_decl d' v = slot_decl d v;
  ku_full : isFull (g_uniforms d) = true →
              isFull (g_uniforms d') = true
              ∧ g_uniforms_hash_map d' = g_uniforms_hash_map d
}.

Definition keeps_uniforms (d d' : Device) : Prop :=
  (∃ fl, uniforms_wf d fl) → keeps_uniforms_from d d'.

(** A driver that hands out the names 1, 2, 3, ..., rejects every shader
    with a one-line diagnostic and links nothing. *)
Definition sample_driver (log : list event) (c : gl_call) : gl_reply :=
  match c with
  | glGenTextures _ | glCreateProgram | glCreateShader _ =>
      RInt (1 + Z.of_nat (length log))
  | glGetShaderiv _ pname =>
      if pname =? GL_COMPILE_STATUS then RInt GL_FALSE else RInt 13
  | glGetShaderInfoLog _ _ => RText "syntax error"
  | glGetProgramiv _ _ => RInt 0
  | _ => RNone
  end.

(** A blob over a list of bytes; a read past the end is padded with
    zeros. *)
Definition list_blob_read (b : list Byte.byte) (size : Z) : list Byte.byte * list Byte.byte :=
  (take (Z.to_nat size) (b ++ replicate (Z.to_nat size) Byte.x00),
   drop (Z.to_nat size) b).

Definition sample_platform : Platform :=
  {| crc32 := λ s, Z.of_nat (String.length s);
     Blob := list Byte.byte;
     blob_read := list_blob_read;
     INVALID_PROGRAM := 0xffffffff;
     INVALID_UNIFORM := 0xffffffff;
     ProgramHandle_isValid := λ v, negb (v =? 0xffffffff);
     TextureHandle_isValid := λ v, negb (v =? 0xffffffff);
     BufferHandle_isValid := λ v, negb (v =? 0xffffffff);
     TextureFlags_SRGB := 1;
     GetCurrentThreadId := 7;
     gl_driver := sample_driver |}.

(** The 128 bytes of a header with the given fields, the rest zero. *)
Definition dds_header (magic size flags height width linear_size mips
    pf_flags fourcc bit_count r_mask g_mask b_mask a_mask caps1 caps2 : Z)
    : list Byte.byte :=
  mjoin (le_bytes32 <$>
    [magic; size; flags; height; width; linear_size; 0; mips]
    ++ replicate 11 0
    ++ [32; pf_flags; fourcc; bit_count; r_mask; g_mask; b_mask; a_mask]
    ++ [caps1; caps2; 0; 0; 0]).

(** A 4x4 ATI1 image in one level whose header declares sixteen bytes of
    data, followed by sixteen bytes. *)
Definition ati1_4x4 : list Byte.byte :=
  dds_header DDS.DDS_MAGIC 124
    (DDS.DDSD_CAPS + DDS.DDSD_HEIGHT + DDS.DDSD_WIDTH + DDS.DDSD_PIXELFORMAT
     + DDS.DDSD_LINEARSIZE)
    4 4 16 0 DDS.DDPF_FOURCC DDS.D3DFMT_ATI1 0 0 0 0 0 DDS.DDSCAPS_TEXTURE 0
  ++ replicate 16 Byte.xff.

(** A 4x4 DXT1 image in one level: one block of eight bytes. *)
Definition dxt1_4x4 : list Byte.byte :=
  dds_header DDS.DDS_MAGIC 124
    (DDS.DDSD_CAPS + DDS.DDSD_HEIGHT + DDS.DDSD_WIDTH + DDS.DDSD_PIXELFORMAT
     + DDS.DDSD_LINEARSIZE)
    4 4 8 0 DDS.DDPF_FOURCC DDS.D3DFMT_DXT1 0 0 0 0 0 DDS.DDSCAPS_TEXTURE 0
  ++ replicate 8 Byte.xff.

(** A cubemap of 4x4 DXT1 faces in one level: six blocks. *)
Definition dxt1_cube_4x4 : list Byte.byte :=
  dds_header DDS.DDS_MAGIC 124
    (DDS.DDSD_CAPS + DDS.DDSD_HEIGHT + DDS.DDSD_WIDTH + DDS.DDSD_PIXELFORMAT
     + DDS.DDSD_LINEARSIZE)
    4 4 8 0 DDS.DDPF_FOURCC DDS.D3DFMT_DXT1 0 0 0 0 0
    (DDS.DDSCAPS_TEXTURE + DDS.DDSCAPS_COMPLEX) DDS.DDSCAPS2_CUBEMAP
  ++ replicate 48 Byte.xff.

(** A 2x2 image of 24-bit BGR pixels in one level. *)
Definition bgr8_2x2 : list Byte.byte :=
  dds_header DDS.DDS_MAGIC 124
    (DDS.DDSD_CAPS + DDS.DDSD_HEIGHT + DDS.DDSD_WIDTH + DDS.DDSD_PIXELFORMAT
     + DDS.DDSD_PITCH)
    2 2 6 0 DDS.DDPF_RGB 0 24 0xff0000 0xff00 0xff 0 DDS.DDSCAPS_TEXTURE 0
  ++ replicate 12 Byte.x80.

(** The same as [ati1_4x4] with a damaged magic number. *)
Definition bad_magic_4x4 : list Byte.byte :=
  dds_header 0x20534445 124
    (DDS.DDSD_CAPS + DDS.DDSD_HEIGHT + DDS.DDSD_WIDTH + DDS.DDSD_PIXELFORMAT
     + DDS.DDSD_LINEARSIZE)
    4 4 16 0 DDS.DDPF_FOURCC DDS.D3DFMT_ATI1 0 0 0 0 0 DDS.DDSCAPS_TEXTURE 0
  ++ replicate 16 Byte.xff.

(** The device after [preinit], with the owning thread that [init]
    records when it runs on thread 7. *)
Definition sample_device : Device :=
  {| g_buffers := g_buffers preinit;
     g_textures := g_textures preinit;
     g_uniforms := g_uniforms preinit;
     g_programs := g_programs preinit;
     g_uniforms_hash_map := g_uniforms_hash_map preinit;
     g_thread := 7;
     g_log := [] |}.

(** The sizes that the mip loop of a compressed face works through:
    (level, width, height, imageSize) for [n] levels. *)
Fixpoint mip_levels (n : nat) (internal_format ix width height size : Z)
    : list (Z * Z * Z * Z) :=
  match n with
  | O => []
  | S n' =>
      let width' := maximum 1 (Z.shiftr width 1) in
      let height' := maximum 1 (Z.shiftr height 1) in
      (ix, width, height, size)
      :: mip_levels n' internal_format (ix + 1) width' height'
           (DDS.sizeDXTC width' height' internal_format)
  end.

(** The byte count of one level as the container format defines it,
    [((w+3)/4)*((h+3)/4)*blockBytes], evaluated in [uint] as the
    loader evaluates its sizes. *)
Definition block_size (li : DDS.LoadInfo) (w h : Z) : Z :=
  to_uint (to_uint (to_uint (w + 3) / 4 * (to_uint (h + 3) / 4))
           * DDS.blockBytes li).

(** The levels of one face as the format defines them: level [i] has
    [block_size] bytes, and the next level has both dimensions halved,
    rounding down, and not below 1. *)
Fixpoint block_levels (li : DDS.LoadInfo) (n : nat) (i w h : Z)
    : list (Z * Z * Z * Z) :=
  match n with
  | O => []
  | S n' =>
      (i, w, h, block_size li w h)
      :: block_levels li n' (i + 1) (Z.max 1 (w / 2)) (Z.max 1 (h / 2))
  end.

(** The number of faces and of levels that a header announces. *)
Definition face_count (hdr : DDS.Header) : nat :=
  if Z.land (DDS.dwCaps2 (DDS.caps2 hdr)) DDS.DDSCAPS2_CUBEMAP =? 0
  then 1%nat else 6%nat.

Definition level_count (hdr : DDS.Header) : nat :=
  Z.to_nat (if has_bits (DDS.dwFlags hdr) DDS.DDSD_MIPMAPCOUNT
            then DDS.dwMipMapCount hdr else 1).

(** The device after [preinit] with a linked program of native name 5
    and no uniforms in program slot 0, owned by thread 1. *)
Definition device_with_program : Device :=
  {| g_buffers := create Buffer.MAX_COUNT;
     g_textures := create Texture.MAX_COUNT;
     g_uniforms := create Uniform.MAX_COUNT;
     g_programs :=
       mkPool (<[0%nat := Obj {| Program.handle := 5; Program.uniforms := [] |}]>
                 (values (create Program.MAX_COUNT))) 1;
     g_uniforms_hash_map := ∅;
     g_thread := 1;
     g_log := [] |}.

(** [extends P d d']: the log of [d'] is the log of [d] followed by
    events that all satisfy [P]. *)
Definition extends (P : event → Prop) (d d' : Device) : Prop :=
  ∃ evs, g_log d' = g_log d ++ evs ∧ Forall P evs.

(** A computation keeps a relation between the state it starts in and
    the state it leaves behind, whether it returns or not. *)
Definition respects {A} (R : Device → Device → Prop) (m : M A) : Prop :=
  ∀ d, R d (res_device (m d)).

Definition is_native (e : event) : Prop :=
  match e with EvGL _ _ => True | _ => False end.

(** A build of one vertex stage on the sample platform, whose driver
    rejects every shader, and the events it leaves. *)
Definition sample_build : Res Z :=
  createProgram (H:=sample_platform) ["void main() {"%string]
    [ShaderType.VERTEX] 1 [] 0 "sample" sample_device.

Definition sample_build_events : list event :=
  Eval vm_compute in g_log (res_device sample_build).

(** Loading [dxt1_4x4] into texture slot 0 on the sample platform. *)
Definition sample_dxt1_load : Res (bool * option TextureInfo) :=
  loadTexture (H:=sample_platform) 0 dxt1_4x4 0 true sample_device.

(* ================================================================== *)
(** ** Vertex declarations *)

Module AttributeType.
Inductive t : Set := U8 | FLOAT | I16.

(** [getSize(AttributeType)]. *)
Definition getSize (type : t) : Z :=
  match type with
  | FLOAT => 4
  | U8 => 1
  | I16 => 2
  end.
End AttributeType.

Module Attribute.
Record t : Type := {
  components_num : Z;
  offset : Z;
  normalized : bool;
  as_int : bool;
  type : AttributeType.t
}.
End Attribute.

(** [attributes] is the part [attributes[0 .. attributes_count)] of the
    array. *)
Module VertexDecl.
Record t : Type := { attributes : list Attribute.t; size : Z }.
Definition attributes_count (decl : t) : Z := Z.of_nat (length (attributes decl)).

(** A declaration before any [addAttribute]. *)
Definition empty : t := {| attributes := []; size := 0 |}.

(** [VertexDecl::addAttribute] on a declaration whose array holds
    [capacity] attributes ([lengthOf(attributes)], declared in [ffr.h]):
    the assertions it makes, and the declaration afterwards. *)
Definition addAttribute (capacity : Z) (decl : t)
    (components_num : Z) (type : AttributeType.t) (normalized as_int : bool)
    : list event * t :=
  if capacity <=? to_int (attributes_count decl) then ([EvAssert false], decl)
  else
    let offset :=
      match last (attributes decl) with
      | Some prev =>
          to_uint (Attribute.offset prev
                   + Attribute.components_num prev
                     * AttributeType.getSize (Attribute.type prev))
      | None => 0
      end in
    let attr := {| Attribute.components_num := components_num;
                   Attribute.offset := offset;
                   Attribute.normalized := normalized;
                   Attribute.as_int := as_int;
                   Attribute.type := type |} in
    ([], {| attributes := attributes decl ++ [attr];
            size := to_uint (offset + components_num * AttributeType.getSize type) |}).
End VertexDecl.

(** What a caller passes to [addAttribute]. *)
Record attribute_spec : Type := {
  spec_components : Z;
  spec_type : AttributeType.t;
  spec_normalized : bool;
  spec_as_int : bool
}.

Definition spec_bytes (s : attribute_spec) : Z :=
  spec_components s * AttributeType.getSize (spec_type s).

(** A declaration filled by one [addAttribute] for each element of
    [specs], in order. *)
Fixpoint declare (capacity : Z) (decl : VertexDecl.t) (specs : list attribute_spec)
    : list event * VertexDecl.t :=
  match specs with
  | [] => ([], decl)
  | s :: rest =>
      let '(evs1, decl1) :=
        VertexDecl.addAttribute capacity decl (spec_components s) (spec_type s)
          (spec_normalized s) (spec_as_int s) in
      let '(evs2, decl2) := declare capacity decl1 rest in
      (evs1 ++ evs2, decl2)
  end.

(** The sum of the byte sizes of some attributes. *)
Definition specs_bytes (specs : list attribute_spec) : Z :=
  foldr (λ s acc, spec_bytes s + acc) 0 specs.

(* ================================================================== *)
(** ** More entry points *)

(** [getTextureInfo(data)]; [data] holds the 128 bytes of a header. *)
Definition getTextureInfo (data : list Byte.byte) : TextureInfo :=
  let hdr := DDS.header_of_bytes data in
  let mips :=
    if has_bits (DDS.dwFlags hdr) DDS.DDSD_MIPMAPCOUNT then DDS.dwMipMapCount hdr
    else 1 in
  let is_cubemap :=
    negb (Z.land (DDS.dwCaps2 (DDS.caps2 hdr)) DDS.DDSCAPS2_CUBEMAP =? 0) in
  {| width := DDS.dwWidth hdr; height := DDS.dwHeight hdr;
     depth := 1; layers := 1; mips := mips; is_cubemap := is_cubemap |}.

(** The loop of [getUniformLocation] over the table of a program. *)
Fixpoint find_location (uniforms : list Program.entry) (uniform : Z) : Z :=
  match uniforms with
  | [] => -1
  | pu :: rest =>
      if Program.uniform pu =? uniform then Program.loc pu
      else find_location rest uniform
  end.

Section MoreEntry.
Context `{Platform}.

Definition getUniformLocation (program_handle uniform : Z) : M Z :=
  let* d := get_device in
  let* prg := defined (pool_get (g_programs d) program_handle) in
  ret (find_location (Program.uniforms prg) uniform).

(** [destroy(ProgramHandle)]. *)
Definition destroy_program (program : Z) : M unit :=
  checkThread;;
  if ProgramHandle_isValid program then gl_ (glDeleteProgram program)
  else ret ().

(** [destroy(TextureHandle)]. *)
Definition destroy_texture (texture : Z) : M unit :=
  checkThread;;
  let* d := get_device in
  let* t := defined (pool_get (g_textures d) texture) in
  let handle := Texture.handle t in
  gl_ (glDeleteTextures 1 handle);;
  let* d := get_device in
  let* ts := defined (dealloc (g_textures d) texture) in
  modify (with_textures (λ _, ts)).

(** [allocBufferHandle]; [INVALID_BUFFER] is declared in [ffr.h]. *)
Definition allocBufferHandle (INVALID_BUFFER : Z) : M Z :=
  let* d := get_device in
  if isFull (g_buffers d) then
    log_error "Renderer" "FFR is out of free buffer slots.";;
    ret INVALID_BUFFER
  else
    let* '(id, bs) := defined (alloc (g_buffers d)) in
    let* bs := defined (pool_set bs id {| Buffer.handle := 0 |}) in
    modify (with_buffers (λ _, bs));;
    ret (to_uint id).

End MoreEntry.

(** The state changes by a log entry or not at all: [d'] is [d] after
    some events that all satisfy [P]. *)
Definition logs_only (P : event → Prop) (d d' : Device) : Prop :=
  ∃ evs, d' = add_log evs d ∧ Forall P evs.

Definition not_gen_textures (e : event) : Prop :=
  match e with EvGL (glGenTextures _) _ => False | _ => True end.

Definition not_delete_program (e : event) : Prop :=
  match e with EvGL (glDeleteProgram _) _ => False | _ => True end.

(** A link status query that the driver answered with [GL_FALSE]. *)
Definition is_link_failure (e : event) : bool :=
  match e with
  | EvGL (glGetProgramiv _ pname) r => (pname =? GL_LINK_STATUS) && (as_int r =? GL_FALSE)
  | _ => false
  end.

Definition link_failed (evs : list event) : bool := existsb is_link_failure evs.

(** The attributes of [specs] laid out one after the other from byte
    [acc] on. *)
Fixpoint layout (acc : Z) (specs : list attribute_spec) : list Attribute.t :=
  match specs with
  | [] => []
  | s :: rest =>
      {| Attribute.components_num := spec_components s;
         Attribute.offset := acc;
         Attribute.normalized := spec_normalized s;
         Attribute.as_int := spec_as_int s;
         Attribute.type := spec_type s |}
      :: layout (acc + spec_bytes s) rest
  end.

(** The first free byte after the attributes of a declaration. *)
Definition decl_end (decl : VertexDecl.t) : Z :=
  match last (VertexDecl.attributes decl) with
  | Some prev =>
      Attribute.offset prev
      + Attribute.components_num prev * AttributeType.getSize (Attribute.type prev)
  | None => 0
  end.

Definition not_native (e : event) : Prop :=
  match e with EvGL _ _ => False | _ => True end.

(** The sizes that the mip loop of an uncompressed face reads and
    uploads: [width * height * blockBytes] in [uint], level by level. *)
Fixpoint plain_levels (li : DDS.LoadInfo) (n : nat) (w h : Z) : list Z :=
  match n with
  | O => []
  | S n' =>
      to_uint (w * h * DDS.blockBytes li)
      :: plain_levels li n' (Z.max 1 (w / 2)) (Z.max 1 (h / 2))
  end.

(** The name that [glGenTextures] hands to a [loadTexture] that starts
    in state [d]. *)
Definition generated_texture `{Platform} (d : Device) : Z :=
  as_int (gl_driver
            (g_log d ++ [EvAssert (g_thread d =? GetCurrentThreadId);
                         EvBlobRead 128])
            (glGenTextures 1)).

(** How one face ends: a refusal is the deletion of the texture and
    nothing after it. *)
Definition side_outcome (texture : Z) (d : Device) {A} (refused : A → bool)
    (r : Res A) : Prop :=
  match r with
  | Ret a d' =>
      if refused a then
        ∃ mid, d' = add_log (mid ++ [EvGL (glDeleteTextures 1 texture) RNone]) d
               ∧ Forall not_gen_textures mid
      else ∃ evs, d' = add_log evs d ∧ Forall not_gen_textures evs
  | Fault _ => False
  end.

(** The names that [glGenTextures] handed out among some events; zero
    is no name. *)
Definition generated_names (evs : list event) : list Z :=
  omap (λ e, match e with
             | EvGL (glGenTextures _) r =>
                 if as_int r =? 0 then None else Some (as_int r)
             | _ => None
             end) evs.

(** The names given to [glDeleteTextures] among some events. *)
Definition deleted_names (evs : list event) : list Z :=
  omap (λ e, match e with
             | EvGL (glDeleteTextures _ t) _ => Some t
             | _ => None
             end) evs.

(** What an uncompressed face reads: the palette of 256 colours if
    there is one, then the levels. *)
Definition plain_reads (li : DDS.LoadInfo) (n : nat) (w h : Z) : list Z :=
  (if DDS.palette li then [4 * 256] else []) ++ plain_levels li n w h.

(** A 4x4 DXT1 image whose header declares sixteen bytes for the first
    level where the format has eight. *)
Definition dxt1_bad_size_4x4 : list Byte.byte :=
  dds_header DDS.DDS_MAGIC 124
    (DDS.DDSD_CAPS + DDS.DDSD_HEIGHT + DDS.DDSD_WIDTH + DDS.DDSD_PIXELFORMAT
     + DDS.DDSD_LINEARSIZE)
    4 4 16 0 DDS.DDPF_FOURCC DDS.D3DFMT_DXT1 0 0 0 0 0 DDS.DDSCAPS_TEXTURE 0
  ++ replicate 16 Byte.xff.

(** A 2x2 image of 32-bit BGRA pixels in two levels: sixteen bytes and
    four. *)
Definition bgra8_2x2 : list Byte.byte :=
  dds_header DDS.DDS_MAGIC 124
    (DDS.DDSD_CAPS + DDS.DDSD_HEIGHT + DDS.DDSD_WIDTH + DDS.DDSD_PIXELFORMAT
     + DDS.DDSD_PITCH + DDS.DDSD_MIPMAPCOUNT)
    2 2 8 2 (DDS.DDPF_RGB + DDS.DDPF_ALPHAPIXELS) 0 32
    0xff0000 0xff00 0xff 0xff000000
    (DDS.DDSCAPS_TEXTURE + DDS.DDSCAPS_MIPMAP) 0
  ++ replicate 20 Byte.x80.

(** Neither the deletion of a program nor a query of one. *)
Definition not_program_call (e : event) : Prop :=
  match e with
  | EvGL (glDeleteProgram _) _ | EvGL (glGetProgramiv _ _) _ => False
  | _ => True
  end.

Definition no_link_failure (e : event) : Prop := is_link_failure e = false.

(** The six entry points that write the data of a uniform slot, with
    the value each is given. *)
Inductive setter : Type :=
| Set1i (value : Z)
| Set2f (value : list Byte.byte)
| Set4f (value : list Byte.byte)
| SetMatrix4f (value : list Byte.byte)
| SetMatrix4x3f (value : list Byte.byte)
| SetMatrix3x4f (value : list Byte.byte).

(** The type that a setter asserts of the slot. *)
Definition setter_type (s : setter) : UniformType.t :=
  match s with
  | Set1i _ => UniformType.INT
  | Set2f _ => UniformType.VEC2
  | Set4f _ => UniformType.VEC4
  | SetMatrix4f _ => UniformType.MAT4
  | SetMatrix4x3f _ => UniformType.MAT4X3
  | SetMatrix3x4f _ => UniformType.MAT3X4
  end.

(** The memory that a setter copies from. *)
Definition setter_bytes (s : setter) : list Byte.byte :=
  match s with
  | Set1i value => le_bytes32 value
  | Set2f value | Set4f value | SetMatrix4f value
  | SetMatrix4x3f value | SetMatrix3x4f value => value
  end.

Definition run_setter `{Platform} (s : setter) (uniform : Z) : M unit :=
  match s with
  | Set1i value => setUniform1i uniform value
  | Set2f value => setUniform2f uniform value
  | Set4f value => setUniform4f uniform value
  | SetMatrix4f value => setUniformMatrix4f uniform value
  | SetMatrix4x3f value => setUniformMatrix4x3f uniform value
  | SetMatrix3x4f value => setUniformMatrix3x4f uniform value
  end.

(** The native call that the loop of [useProgram] makes for an entry at
    location [loc] whose slot has the given type, count and data;
    [None]: an [int] is read from fewer than four bytes. *)
Definition upload_call (type : UniformType.t) (loc count : Z)
    (data : list Byte.byte) : option gl_call :=
  match type with
  | UniformType.MAT4 => Some (glUniformMatrix4fv loc count false data)
  | UniformType.MAT4X3 => Some (glUniformMatrix4x3fv loc count false data)
  | UniformType.MAT3X4 => Some (glUniformMatrix3x4fv loc count false data)
  | UniformType.VEC4 => Some (glUniform4fv loc count data)
  | UniformType.VEC3 => Some (glUniform3fv loc count data)
  | UniformType.VEC2 => Some (glUniform2fv loc count data)
  | UniformType.FLOAT => Some (glUniform1fv loc count data)
  | UniformType.INT =>
      match data with
      | b0 :: b1 :: b2 :: b3 :: _ => Some (glUniform1i loc (to_int (le32 b0 b1 b2 b3)))
      | _ => None
      end
  end.

(** A device like [sample_device] with a linked program of native name
    5 in program slot 0, whose two active uniforms are the [vec4] in
    uniform slot 0, at location 3, and the [int] in uniform slot 1, at
    location 4. *)
Definition device_with_uniform : Device :=
  {| g_buffers := create Buffer.MAX_COUNT;
     g_textures := create Texture.MAX_COUNT;
     g_uniforms :=
       mkPool (<[0%nat := Obj {| Uniform.type := UniformType.VEC4;
                                Uniform.count := 1;
                                Uniform.data := replicate 16 Byte.x00 |}]>
                 (<[1%nat := Obj {| Uniform.type := UniformType.INT;
                                   Uniform.count := 1;
                                   Uniform.data := replicate 4 Byte.x00 |}]>
                    (values (create Uniform.MAX_COUNT)))) 2;
     g_programs :=
       mkPool (<[0%nat := Obj {| Program.handle := 5;
                                Program.uniforms :=
                                  [{| Program.loc := 3; Program.uniform := 0 |};
                                   {| Program.loc := 4; Program.uniform := 1 |}] |}]>
                 (values (create Program.MAX_COUNT))) 1;
     g_uniforms_hash_map := {[ 7 := 0; 8 := 1 ]};
     g_thread := 7;
     g_log := [] |}.

(** The program pool is the same in both states. *)
Definition same_programs (d d' : Device) : Prop := g_programs d' = g_programs d.

(** A driver that compiles and links everything, and reports one active
    uniform, a [vec4] named [u_color] at location 3. *)
Definition linking_driver (log : list event) (c : gl_call) : gl_reply :=
  match c with
  | glCreateProgram => RInt 5
  | glCreateShader _ => RInt 6
  | glGetShaderiv _ _ => RInt GL_TRUE
  | glGetProgramiv _ pname =>
      if pname =? GL_ACTIVE_UNIFORMS then RInt 1 else RInt GL_TRUE
  | glGetActiveUniform _ _ _ => RUniform 1 GL_FLOAT_VEC4 "u_color"
  | glGetUniformLocation _ _ => RInt 3
  | _ => RNone
  end.

Definition linking_platform : Platform :=
  {| crc32 := λ s, Z.of_nat (String.length s);
     Blob := list Byte.byte;
     blob_read := list_blob_read;
     INVALID_PROGRAM := 0xffffffff;
     INVALID_UNIFORM := 0xffffffff;
     ProgramHandle_isValid := λ v, negb (v =? 0xffffffff);
     TextureHandle_isValid := λ v, negb (v =? 0xffffffff);
     BufferHandle_isValid := λ v, negb (v =? 0xffffffff);
     TextureFlags_SRGB := 1;
     GetCurrentThreadId := 7;
     gl_driver := linking_driver |}.

(** A build of one vertex stage on the linking platform. *)
Definition sample_link : Res Z :=
  createProgram (H:=linking_platform) ["void main() {}"%string]
    [ShaderType.VERTEX] 1 [] 0 "sample" sample_device.

(** The name that [glCreateProgram] hands to a [createProgram] that
    starts in state [d]. *)
Definition created_program `{Platform} (d : Device) (prefixes_count : Z) : Z :=
  as_int (gl_driver
            (g_log d ++ [EvAssert (g_thread d =? GetCurrentThreadId);
                         EvAssert (prefixes_count <? 16 - 1)])
            glCreateProgram).

(** Every entry of the table has a location that is not negative. *)
Definition located (uniforms : list Program.entry) : Prop :=
  Forall (λ pu, 0 <= Program.loc pu) uniforms.

(** Loading [dxt1_bad_size_4x4] and [bgra8_2x2] into texture slot 0 on
    the sample platform. *)
Definition sample_bad_load : Res (bool * option TextureInfo) :=
  loadTexture (H:=sample_platform) 0 dxt1_bad_size_4x4 0 true sample_device.

Definition sample_bgra_load : Res (bool * option TextureInfo) :=
  loadTexture (H:=sample_platform) 0 bgra8_2x2 0 false sample_device.

(** A build without stages on the sample platform, whose driver links
    nothing, and the events it leaves. *)
Definition sample_link_failure : Res Z :=
  createProgram (H:=sample_platform) [] [] 0 [] 0 "sample" sample_device.

Definition sample_link_failure_events : list event :=
  Eval vm_compute in g_log (res_device sample_link_failure).

(** [sample_device] with every program slot taken. *)
Definition device_without_program_slot : Device :=
  with_programs (λ p, mkPool (values p) (-1)) sample_device.

(** [setUniform1i] of -2 on uniform slot 1 of [device_with_uniform],
    and [useProgram] of program slot 0 after it. *)
Definition sample_set : Res unit :=
  setUniform1i (H:=sample_platform) 1 (-2) device_with_uniform.

Definition sample_use : Res unit :=
  useProgram (H:=sample_platform) 0 (res_device sample_set).

(** The first thing that a computation does, in every state and
    whether it returns or not, is the assertion of [checkThread]. *)
Definition checks_thread_first `{Platform} {A} (m : M A) : Prop :=
  ∀ d, ∃ evs,
    g_log (res_device (m d))
    = g_log d ++ EvAssert (g_thread d =? GetCurrentThreadId) :: evs.

(** The event of a native call that returns nothing. *)
Definition call_event (c : gl_call) : event := EvGL c RNone.

(** The call that the loop of [useProgram] makes for an entry of the
    table in state [d]. *)
Definition uploads (d : Device) (pu : Program.entry) (c : gl_call) : Prop :=
  ∃ u, pool_get (g_uniforms d) (Program.uniform pu) = Some u
       ∧ upload_call (Uniform.type u) (Program.loc pu) (Uniform.count u)
           (Uniform.data u) = Some c.

(* ================================================================== *)
(** ** Flipping a block-compressed surface *)

Module Flip.

(** The surface that [flipCompressedTexture] works on is a run of
    bytes; a pointer into it is an offset from its start. *)
Definition memory : Type := list Byte.byte.

Definition read (mem : memory) (p n : nat) : list Byte.byte :=
  take n (drop p mem).

(** [memcpy(mem + p, bs, |bs|)], for a destination inside [mem]. *)
Definition write (mem : memory) (p : nat) (bs : list Byte.byte) : memory :=
  take p mem ++ bs ++ drop (p + length bs) mem.

(** [swapMemory(mem1, mem2, size)].  The two branches of the source
    differ in where [tmp] lives only.  [None]: a negative size, an
    access outside the surface, or a [memcpy] between regions that
    overlap. *)
Definition swapMemory (mem : memory) (mem1 mem2 : nat) (size : Z)
    : option memory :=
  if size <? 0 then None
  else
    let n := Z.to_nat size in
    if (mem1 + n <=? length mem)%nat && (mem2 + n <=? length mem)%nat
       && ((n =? 0)%nat || (mem1 + n <=? mem2)%nat || (mem2 + n <=? mem1)%nat)
    then
      let tmp := read mem mem1 n in
      let mem := write mem mem1 (read mem mem2 n) in
      Some (write mem mem2 tmp)
    else None.

(** [DXTColBlock]: [col0] and [col1] in bytes 0 to 3, [row[k]] in byte
    [4 + k]; eight bytes. *)
Fixpoint flipBlockDXTC1_from (n : nat) (mem : memory) (curblock : nat)
    : option memory :=
  match n with
  | O => Some mem
  | S n' =>
      mem ← swapMemory mem (curblock + 4) (curblock + 7) 1;
      mem ← swapMemory mem (curblock + 5) (curblock + 6) 1;
      flipBlockDXTC1_from n' mem (curblock + 8)
  end.

Definition flipBlockDXTC1 (mem : memory) (line : nat) (numBlocks : Z)
    : option memory :=
  flipBlockDXTC1_from (Z.to_nat numBlocks) mem line.

(** [DXT3AlphaBlock]: [row[k]], a [uint16_t], in bytes [2k] and
    [2k + 1]; the colour block follows it. *)
Fixpoint flipBlockDXTC3_from (n : nat) (mem : memory) (curblock : nat)
    : option memory :=
  match n with
  | O => Some mem
  | S n' =>
      let alphablock := curblock in
      mem ← swapMemory mem (alphablock + 0) (alphablock + 6) 2;
      mem ← swapMemory mem (alphablock + 2) (alphablock + 4) 2;
      let curblock := (curblock + 8)%nat in
      mem ← swapMemory mem (curblock + 4) (curblock + 7) 1;
      mem ← swapMemory mem (curblock + 5) (curblock + 6) 1;
      flipBlockDXTC3_from n' mem (curblock + 8)
  end.

Definition flipBlockDXTC3 (mem : memory) (line : nat) (numBlocks : Z)
    : option memory :=
  flipBlockDXTC3_from (Z.to_nat numBlocks) mem line.

(** Three bytes copied over the low end of a zeroed [uint]. *)
Definition read24 (mem : memory) (p : nat) : option Z :=
  match read mem p 3 with
  | [b0; b1; b2] => Some (le32 b0 b1 b2 Byte.x00)
  | _ => None
  end.

(** [*(uint* )(mem + p)] as an rvalue and as the target of a store. *)
Definition read32 (mem : memory) (p : nat) : option Z :=
  match read mem p 4 with
  | [b0; b1; b2; b3] => Some (le32 b0 b1 b2 b3)
  | _ => None
  end.

Definition write32 (mem : memory) (p : nat) (w : Z) : memory :=
  write mem p (le_bytes32 w).

(** [n] times [tmp = (u8)(bits & mask); bits >>= 3;]: the values of
    [tmp], first to last. *)
Fixpoint digits (n : nat) (bits : Z) : list Z :=
  match n with
  | O => []
  | S n' => Z.land bits 0x00000007 :: digits n' (Z.shiftr bits 3)
  end.

(** [*out_bits = *out_bits | (d << shift);] for each [d] in turn, the
    shift growing by three. *)
Fixpoint or_in (out : Z) (ds : list Z) (shift : Z) : Z :=
  match ds with
  | [] => out
  | d :: rest => or_in (Z.lor out (Z.shiftl d shift)) rest (shift + 3)
  end.

(** [DXT5AlphaBlock]: [alpha0], [alpha1], then [row[0 .. 5]] in bytes 2
    to 7.  [tmp01] holds [tmp_bits[0]] and [tmp_bits[1]], [tmp23] holds
    [tmp_bits[2]] and [tmp_bits[3]]. *)
Definition flipDXT5Alpha (mem : memory) (block : nat) : option memory :=
  bits ← read24 mem (block + 2);
  let tmp01 := digits 8 bits in
  bits ← read24 mem (block + 5);
  let tmp23 := digits 8 bits in
  out_bits ← read32 mem (block + 2);
  let mem :=
    write32 mem (block + 2) (or_in out_bits (drop 4 tmp23 ++ take 4 tmp23) 0) in
  out_bits ← read32 mem (block + 5);
  let out_bits := Z.land out_bits 0xff000000 in
  Some (write32 mem (block + 5)
          (or_in out_bits (drop 4 tmp01 ++ take 4 tmp01) 0)).

Fixpoint flipBlockDXTC5_from (n : nat) (mem : memory) (curblock : nat)
    : option memory :=
  match n with
  | O => Some mem
  | S n' =>
      let alphablock := curblock in
      mem ← flipDXT5Alpha mem alphablock;
      let curblock := (curblock + 8)%nat in
      mem ← swapMemory mem (curblock + 4) (curblock + 7) 1;
      mem ← swapMemory mem (curblock + 5) (curblock + 6) 1;
      flipBlockDXTC5_from n' mem (curblock + 8)
  end.

Definition flipBlockDXTC5 (mem : memory) (line : nat) (numBlocks : Z)
    : option memory :=
  flipBlockDXTC5_from (Z.to_nat numBlocks) mem line.

(** The [switch] of [flipCompressedTexture]: the size of a block and
    the function that flips a line of blocks. *)
Definition flip_of (format : Z)
    : option (Z * (memory → nat → Z → option memory)) :=
  if (format =? GL_COMPRESSED_SRGB_ALPHA_S3TC_DXT1_EXT)
     || (format =? GL_COMPRESSED_RGBA_S3TC_DXT1_EXT)
  then Some (8, flipBlockDXTC1)
  else if (format =? GL_COMPRESSED_SRGB_ALPHA_S3TC_DXT3_EXT)
          || (format =? GL_COMPRESSED_RGBA_S3TC_DXT3_EXT)
  then Some (16, flipBlockDXTC3)
  else if (format =? GL_COMPRESSED_SRGB_ALPHA_S3TC_DXT5_EXT)
          || (format =? GL_COMPRESSED_RGBA_S3TC_DXT5_EXT)
  then Some (16, flipBlockDXTC5)
  else None.

(** The [while (top < bottom)] loop, for at most [fuel] turns. *)
Fixpoint flip_lines (fuel : nat)
    (flipBlocksFunction : memory → nat → Z → option memory)
    (xblocks linesize top bottom : Z) (mem : memory) : option memory :=
  if top <? bottom then
    match fuel with
    | O => None
    | S fuel' =>
        if top <? 0 then None
        else
          mem ← flipBlocksFunction mem (Z.to_nat top) xblocks;
          mem ← flipBlocksFunction mem (Z.to_nat bottom) xblocks;
          mem ← swapMemory mem (Z.to_nat bottom) (Z.to_nat top) linesize;
          flip_lines fuel' flipBlocksFunction xblocks linesize
            (top + linesize) (bottom - linesize) mem
    end
  else Some mem.

(** How a call of [flipCompressedTexture] ends. *)
Inductive outcome : Type :=
| Flipped (surface : memory)
| AssertFailed          (* [default: ASSERT(false); return;] *)
| Undefined.            (* an access outside the surface *)

(** [flipCompressedTexture(w, h, format, surface)].  The loop makes
    fewer than [yblocks] turns, which is the fuel it is given. *)
Definition flipCompressedTexture (w h format : Z) (surface : memory)
    : outcome :=
  let xblocks := Z.shiftr w 2 in
  let yblocks := Z.shiftr h 2 in
  match flip_of format with
  | None => AssertFailed
  | Some (blocksize, flipBlocksFunction) =>
      let linesize := to_int (xblocks * blocksize) in
      let top := 0 in
      let bottom := to_int ((yblocks - 1) * linesize) in
      match flip_lines (Z.to_nat yblocks) flipBlocksFunction xblocks linesize
              top bottom surface with
      | Some surface => Flipped surface
      | None => Undefined
      end
  end.

(** *** What the flips are meant to be, on blocks *)

(** A colour block with its four rows in reverse order. *)
Definition flip_colour (block : list Byte.byte) : list Byte.byte :=
  take 4 block ++ reverse (drop 4 block).

(** An alpha block of DXT3 with its four 16-bit rows in reverse order. *)
Definition flip_alpha3 (block : list Byte.byte) : list Byte.byte :=
  read block 6 2 ++ read block 4 2 ++ read block 2 2 ++ read block 0 2.

(** The blocks of a line as the source lays them out: [size] bytes
    each. *)
Definition blocks_of (size : nat) (blocks : list (list Byte.byte)) : Prop :=
  Forall (λ b, length b = size) blocks.

(** The two rows of four 3-bit codes in 24 bits, exchanged. *)
Definition swap12 (bits : Z) : Z := bits / 4096 + bits mod 4096 * 4096.

Definition bytes24 (z : Z) : list Byte.byte :=
  [byte_of z; byte_of (z / 256); byte_of (z / 65536)].

(** The value that [or_in] builds from 3-bit codes, the first in the
    lowest place. *)
Fixpoint pack (ds : list Z) : Z :=
  match ds with
  | [] => 0
  | d :: rest => d + 8 * pack rest
  end.

(** What [flipDXT5Alpha] makes of an alpha block of DXT5.  With [low]
    the 24 bits of [row[0 .. 2]] and [high] those of [row[3 .. 5]]: the
    second half becomes [low] with its rows exchanged; the first half
    becomes [high] with its rows exchanged, or-ed onto [low]. *)
Definition flip_alpha5 (block : list Byte.byte) : list Byte.byte :=
  match block with
  | [a0; a1; r0; r1; r2; r3; r4; r5] =>
      [a0; a1]
      ++ bytes24 (Z.lor (le32 r0 r1 r2 Byte.x00)
                    (swap12 (le32 r3 r4 r5 Byte.x00)))
      ++ bytes24 (swap12 (le32 r0 r1 r2 Byte.x00))
  | _ => block
  end.

(** What the flip of a line does to one block of each format. *)
Definition flip_block1 (block : list Byte.byte) : list Byte.byte :=
  flip_colour block.

Definition flip_block3 (block : list Byte.byte) : list Byte.byte :=
  flip_alpha3 (take 8 block) ++ flip_colour (drop 8 block).

Definition flip_block5 (block : list Byte.byte) : list Byte.byte :=
  flip_alpha5 (take 8 block) ++ flip_colour (drop 8 block).

(** The size of a block of a format, and what the flip of a line does
    to each of its blocks. *)
Definition block_flip (format : Z)
    : option (nat * (list Byte.byte → list Byte.byte)) :=
  if (format =? GL_COMPRESSED_SRGB_ALPHA_S3TC_DXT1_EXT)
     || (format =? GL_COMPRESSED_RGBA_S3TC_DXT1_EXT)
  then Some (8%nat, flip_block1)
  else if (format =? GL_COMPRESSED_SRGB_ALPHA_S3TC_DXT3_EXT)
          || (format =? GL_COMPRESSED_RGBA_S3TC_DXT3_EXT)
  then Some (16%nat, flip_block3)
  else if (format =? GL_COMPRESSED_SRGB_ALPHA_S3TC_DXT5_EXT)
          || (format =? GL_COMPRESSED_RGBA_S3TC_DXT5_EXT)
  then Some (16%nat, flip_block5)
  else None.

(** A function that flips a line of blocks in place does, to each
    block of [size] bytes, what [f] does. *)
Definition flips_blocks (size : nat)
    (flip : memory → nat → Z → option memory)
    (f : list Byte.byte → list Byte.byte) : Prop :=
  ∀ pre blocks post,
    blocks_of size blocks →
    flip (pre ++ mjoin blocks ++ post) (length pre) (Z.of_nat (length blocks))
    = Some (pre ++ mjoin (f <$> blocks) ++ post).

(** The lines of a surface with the outer pairs exchanged and changed
    by [f], from the outside in; the middle line of an odd number is
    left as it is. *)
Fixpoint mirror {A} (fuel : nat) (f : A → A) (lines : list A) : list A :=
  match fuel with
  | O => lines
  | S fuel' =>
      match lines with
      | [] => []
      | top :: rest =>
          match last rest with
          | None => [top]
          | Some bottom =>
              f bottom
              :: mirror fuel' f (take (length rest - 1) rest)
              ++ [f top]
          end
      end
  end.

(** A surface of [Y] lines of [X] blocks of [size] bytes. *)
Definition surface_of (size X Y : nat) (lines : list (list (list Byte.byte)))
    : Prop :=
  length lines = Y
  ∧ Forall (λ line, length line = X ∧ blocks_of size line) lines.

(** The bytes of a surface given by its lines of blocks. *)
Definition bytes_of (lines : list (list (list Byte.byte))) : list Byte.byte :=
  mjoin (mjoin <$> lines).

(** A DXT1 surface of three lines of one block: the bytes 0 to 23. *)
Definition sample_surface : list (list (list Byte.byte)) :=
  [[byte_of <$> seqZ 0 8]; [byte_of <$> seqZ 8 8]; [byte_of <$> seqZ 16 8]].

(** The formats whose flip exchanges whole bytes only. *)
Definition byte_formats : list Z :=
  [GL_COMPRESSED_SRGB_ALPHA_S3TC_DXT1_EXT; GL_COMPRESSED_RGBA_S3TC_DXT1_EXT;
   GL_COMPRESSED_SRGB_ALPHA_S3TC_DXT3_EXT; GL_COMPRESSED_RGBA_S3TC_DXT3_EXT].

End Flip.
(* ================================================================== *)
(** ** Handle pool: proofs *)

Section PoolFacts.
Context {T : Type}.
Implicit Types (p : Pool T) (c : client T) (vs : list (cell T)).
Implicit Types (fl live : list Z).

Lemma to_uint_small z : 0 <= z < 4294967296 → to_uint z = z.
Proof. intros. unfold to_uint. by rewrite Z.mod_small. Qed.

Lemma to_int_small z : 0 <= z <= INT_MAX → to_int z = z.
Proof.
  unfold INT_MAX, to_int. intros.
  rewrite Z.mod_small by lia. lia.
Qed.

Lemma chain_nonneg vs ff fl : chain vs ff fl → Forall (λ i, 0 <= i) fl.
Proof. induction 1; constructor; auto. Qed.

Lemma chain_empty vs ff : chain vs ff [] → ff = -1.
Proof. by inversion 1. Qed.

Lemma chain_head vs ff i fl : chain vs ff (i :: fl) → ff = i ∧ 0 <= i.
Proof. by inversion 1. Qed.

(** A store to a slot that is not on the free list leaves the list as
    it is. *)
Lemma chain_insert vs ff fl i (x : cell T) :
  chain vs ff fl → 0 <= i → i ∉ fl →
  chain (<[Z.to_nat i := x]> vs) ff fl.
Proof.
  induction 1 as [|j nxt fl Hj Hlook _ IH]; intros Hi Hnot.
  - constructor.
  - apply not_elem_of_cons in Hnot as [Hne Hnot].
    econstructor; [done| |by apply IH].
    rewrite list_lookup_insert_ne; [done|]. lia.
Qed.

Lemma create_length N : 0 <= N → Z.of_nat (length (values (create (T:=T) N))) = N.
Proof.
  intros. unfold create; simpl.
  rewrite length_insert, length_fmap, length_seqZ. lia.
Qed.

Lemma create_lookup_last N :
  0 < N → values (create (T:=T) N) !! Z.to_nat (N - 1) = Some (Link (-1)).
Proof.
  intros. unfold create; simpl. apply list_lookup_insert_eq.
  rewrite length_fmap, length_seqZ. lia.
Qed.

Lemma create_lookup_inner N i :
  0 <= i < N - 1 → values (create (T:=T) N) !! Z.to_nat i = Some (Link (i + 1)).
Proof.
  intros. unfold create; simpl.
  rewrite list_lookup_insert_ne by lia.
  rewrite list_lookup_fmap, lookup_seqZ_lt by lia.
  simpl. do 2 f_equal. lia.
Qed.

Lemma create_chain_from N (m : nat) :
  Z.of_nat m < N →
  chain (values (create (T:=T) N)) (N - 1 - Z.of_nat m)
        (seqZ (N - 1 - Z.of_nat m) (Z.of_nat m + 1)).
Proof.
  induction m as [|m IH]; intros Hm.
  - replace (N - 1 - Z.of_nat 0) with (N - 1) by lia.
    rewrite seqZ_cons, seqZ_nil by lia.
    econstructor; [lia|by apply create_lookup_last|constructor].
  - rewrite seqZ_cons by lia.
    econstructor; [lia|apply create_lookup_inner; lia|].
    replace (N - 1 - Z.of_nat (S m) + 1) with (N - 1 - Z.of_nat m) by lia.
    replace (Z.succ (N - 1 - Z.of_nat (S m))) with (N - 1 - Z.of_nat m) by lia.
    replace (Z.pred (Z.of_nat (S m) + 1)) with (Z.of_nat m + 1) by lia.
    apply IH. lia.
Qed.

(** [create] links the free list as 0, 1, ..., N-1. *)
Lemma create_chain N :
  0 < N → chain (values (create (T:=T) N)) 0 (seqZ 0 N).
Proof.
  intros HN.
  pose proof (create_chain_from N (Z.to_nat (N - 1))) as H.
  rewrite Z2Nat.id in H by lia.
  replace (N - 1 - (N - 1)) with 0 in H by lia.
  replace (N - 1 + 1) with N in H by lia.
  apply H. lia.
Qed.

Lemma fresh_inv N : 0 < N → pool_inv N (fresh (T:=T) N) (seqZ 0 N).
Proof.
  intros HN. split; simpl.
  - apply create_length. lia.
  - by apply create_chain.
  - by rewrite app_nil_r.
Qed.

(** [alloc] pops the head of the free list. *)
Lemma alloc_chain_cons vs ff i fl :
  chain vs ff (i :: fl) →
  ∃ nxt, alloc (mkPool vs ff) = Some (i, mkPool vs nxt) ∧ chain vs nxt fl.
Proof.
  inversion 1 as [|j nxt fl' Hi Hlook Hrest]; subst.
  exists nxt. split; [|done].
  unfold alloc, load_int; simpl.
  destruct (Z.eqb_spec i (-1)); [lia|].
  destruct (Z.ltb_spec i 0); [lia|].
  by rewrite Hlook.
Qed.

Lemma alloc_chain_nil vs ff :
  chain vs ff [] → alloc (mkPool vs ff) = Some (-1, mkPool vs ff).
Proof. intros ->%chain_empty. done. Qed.

Lemma release_perm h live :
  NoDup live → h ∈ live → live ≡ₚ h :: release h live.
Proof.
  unfold release. induction 1 as [|x l Hx Hnd IH]; intros Hin.
  - by apply elem_of_nil in Hin.
  - apply elem_of_cons in Hin as [->|Hin].
    + rewrite filter_cons_False by naive_solver.
      constructor. clear IH Hnd.
      induction l as [|y l IHl]; [done|].
      apply not_elem_of_cons in Hx as [Hne Hx].
      rewrite filter_cons_True by done. f_equiv. by apply IHl.
    + assert (x ≠ h) by (intros ->; done).
      rewrite filter_cons_True by done.
      rewrite (IH Hin) at 1. apply Permutation_swap.
Qed.

Lemma inv_range N c fl i :
  pool_inv N c fl → i ∈ fl ++ c_live c → 0 <= i < N.
Proof.
  intros [_ _ Hperm] Hin. rewrite Hperm in Hin.
  apply elem_of_seqZ in Hin. lia.
Qed.

Lemma inv_NoDup N c fl : pool_inv N c fl → NoDup (fl ++ c_live c).
Proof. intros [_ _ Hperm]. rewrite Hperm. apply NoDup_seqZ. Qed.

Lemma inv_count N c fl :
  0 <= N → pool_inv N c fl →
  Z.of_nat (length fl) + Z.of_nat (length (c_live c)) = N.
Proof.
  intros HN [_ _ Hperm]. apply Permutation_length in Hperm.
  rewrite length_app, length_seqZ in Hperm. lia.
Qed.

(** Each step of a client keeps the invariant or is a misuse; it never
    leaves [values]. *)
Lemma step_inv N c fl op :
  0 < N <= INT_MAX → pool_inv N c fl →
  step c op = Misuse ∨ ∃ c' fl', step c op = Ok c' ∧ pool_inv N c' fl'.
Proof.
  intros HN Hinv. destruct c as [[vs ff] live].
  pose proof (inv_NoDup _ _ _ Hinv) as Hnd.
  destruct Hinv as [Hlen Hchain Hperm]; simpl in *.
  destruct op as [|h|h v]; simpl.
  - (* alloc *)
    right. destruct fl as [|i fl].
    + rewrite (alloc_chain_nil _ _ Hchain). simpl.
      eexists _, []. split; [done|]. by split.
    + destruct (alloc_chain_cons _ _ _ _ Hchain) as (nxt & -> & Hrest).
      assert (0 <= i < N) as Hi.
      { apply (elem_of_seqZ 0 N). rewrite <- Hperm.
        apply elem_of_app. left. apply elem_of_cons. by left. }
      destruct (Z.eqb_spec i (-1)); [lia|].
      rewrite to_uint_small by (unfold INT_MAX in *; lia).
      eexists _, fl. split; [done|]. split; simpl; [done..|].
      by rewrite <- Permutation_middle.
  - (* dealloc *)
    unfold holds; simpl. case_bool_decide as Hh; [right|by left].
    assert (0 <= h < N) as Hrange.
    { apply (elem_of_seqZ 0 N). rewrite <- Hperm.
      apply elem_of_app. by right. }
    apply NoDup_app in Hnd as (Hndf & Hdisj & Hndl).
    unfold dealloc, store_int; simpl.
    destruct (Z.leb_spec 0 h); [|lia].
    destruct (Z.ltb_spec h (Z.of_nat (length vs))); [|lia]. simpl.
    rewrite to_int_small by lia.
    eexists _, (h :: fl). split; [done|]. split; simpl.
    + rewrite length_insert. lia.
    + econstructor; [lia| |].
      * apply list_lookup_insert_eq. lia.
      * apply chain_insert; [done|lia|]. intros Hin. by apply (Hdisj h).
    + rewrite <- Hperm.
      rewrite (release_perm h live Hndl Hh) at 2.
      by rewrite <- Permutation_middle.
  - (* store *)
    unfold holds; simpl. case_bool_decide as Hh; [right|by left].
    assert (0 <= h < N) as Hrange.
    { apply (elem_of_seqZ 0 N). rewrite <- Hperm.
      apply elem_of_app. by right. }
    apply NoDup_app in Hnd as (Hndf & Hdisj & Hndl).
    unfold pool_set; simpl.
    destruct (Z.leb_spec 0 h); [|lia].
    destruct (Z.ltb_spec h (Z.of_nat (length vs))); [|lia]. simpl.
    eexists _, fl. split; [done|]. split; simpl.
    + rewrite length_insert. lia.
    + apply chain_insert; [done|lia|]. intros Hin. by apply (Hdisj h).
    + done.
Qed.

Lemma run_inv N ops c fl :
  0 < N <= INT_MAX → pool_inv N c fl →
  run ops c = Misuse ∨ ∃ c' fl', run ops c = Ok c' ∧ pool_inv N c' fl'.
Proof.
  intros HN. revert c fl.
  induction ops as [|op ops IH]; intros c fl Hinv; simpl.
  - right. by exists c, fl.
  - destruct (step_inv N c fl op HN Hinv) as [->|(c' & fl' & -> & Hinv')].
    + by left.
    + by apply (IH c' fl').
Qed.

(** Allocating along the free list returns its indices in order. *)
Lemma alloc_n_chain vs ff l1 l2 :
  chain vs ff (l1 ++ l2) →
  ∃ ff', alloc_n (length l1) (mkPool vs ff) = Some (l1, mkPool vs ff')
         ∧ chain vs ff' l2.
Proof.
  revert ff. induction l1 as [|i l1 IH]; intros ff Hchain; simpl in *.
  - by exists ff.
  - destruct (alloc_chain_cons _ _ _ _ Hchain) as (nxt & -> & Hrest).
    destruct (IH nxt Hrest) as (ff' & -> & Hrest').
    by exists ff'.
Qed.

(** Once the free list is empty, every further [alloc] returns -1. *)
Lemma alloc_n_full vs (n : nat) :
  alloc_n n (mkPool vs (-1)) = Some (replicate n (-1), mkPool vs (-1)).
Proof. induction n as [|n IH]; simpl; [done|]. by rewrite IH. Qed.

Lemma alloc_n_app (n m : nat) p l1 p1 l2 p2 :
  alloc_n n p = Some (l1, p1) → alloc_n m p1 = Some (l2, p2) →
  alloc_n (n + m) p = Some (l1 ++ l2, p2).
Proof.
  revert p l1. induction n as [|n IH]; intros p l1; simpl.
  - by intros [= <- <-].
  - destruct (alloc p) as [[id q]|]; [|done].
    destruct (alloc_n n q) as [[ids q']|] eqn:Hq; [|done].
    intros [= <- <-] Hm. by rewrite (IH _ _ Hq Hm).
Qed.

(** With at most [n] free slots, [n] allocations exhaust the pool. *)
Lemma alloc_n_exhaust vs ff fl (n : nat) :
  chain vs ff fl → (length fl ≤ n)%nat →
  alloc_n n (mkPool vs ff)
  = Some (fl ++ replicate (n - length fl) (-1), mkPool vs (-1)).
Proof.
  intros Hchain Hle.
  destruct (alloc_n_chain vs ff fl []) as (ff' & H1 & Hnil).
  { by rewrite app_nil_r. }
  apply chain_empty in Hnil as ->.
  replace n with (length fl + (n - length fl))%nat at 1 by lia.
  eapply alloc_n_app; [done|]. apply alloc_n_full.
Qed.

(** The slots on the free list hold links, not objects. *)
Lemma chain_cell vs ff fl i :
  chain vs ff fl → i ∈ fl →
  0 <= i ∧ ∃ n, vs !! Z.to_nat i = Some (Link n).
Proof.
  induction 1 as [|j nxt fl Hj Hlook _ IH]; intros Hin.
  - by apply elem_of_nil in Hin.
  - apply elem_of_cons in Hin as [->|Hin]; [|by apply IH].
    split; [done|]. by exists nxt.
Qed.

Lemma pool_get_bounds p i (v : T) :
  pool_get p i = Some v →
  0 <= i < Z.of_nat (length (values p))
  ∧ values p !! Z.to_nat i = Some (Obj v).
Proof.
  unfold pool_get. destruct (Z.ltb_spec i 0); [done|].
  destruct (values p !! Z.to_nat i) as [[n|w]|] eqn:Hlook; [done| |done].
  intros [= ->]. apply lookup_lt_Some in Hlook as Hlt. split; [lia|done].
Qed.

Lemma pool_get_insert_eq vs ff i (v : T) :
  0 <= i < Z.of_nat (length vs) →
  pool_get (mkPool (<[Z.to_nat i := Obj v]> vs) ff) i = Some v.
Proof.
  intros Hi. unfold pool_get; simpl.
  destruct (Z.ltb_spec i 0); [lia|].
  by rewrite list_lookup_insert_eq by lia.
Qed.

Lemma pool_get_insert_ne vs ff ff' i j (x : cell T) :
  0 <= i → i ≠ j →
  pool_get (mkPool (<[Z.to_nat i := x]> vs) ff') j = pool_get (mkPool vs ff) j.
Proof.
  intros Hi Hne. unfold pool_get; simpl.
  destruct (Z.ltb_spec j 0); [done|].
  by rewrite list_lookup_insert_ne by lia.
Qed.

Lemma pool_set_in_bounds p i (v : T) :
  0 <= i < Z.of_nat (length (values p)) →
  pool_set p i v
  = Some (mkPool (<[Z.to_nat i := Obj v]> (values p)) (first_free p)).
Proof.
  intros Hi. unfold pool_set.
  destruct (Z.leb_spec 0 i); [|lia].
  by destruct (Z.ltb_spec i (Z.of_nat (length (values p)))); [|lia].
Qed.

End PoolFacts.
(* ================================================================== *)
(** ** Handle pool: capacity, recycling order and first allocations *)

Section PoolClaims.
Context {T : Type}.

(** C1.  A client that starts from a freshly created pool of capacity
    [N] and only returns handles it holds never leaves the storage of
    the pool, never holds the same index twice and never holds more than
    [N] indices; and from every state it reaches, [N] allocations in a
    row leave the pool full, so that the next [alloc] returns -1. *)
Theorem pool_capacity_bound (N : Z) (ops : list (pool_op T)) :
  0 < N <= INT_MAX →
  run ops (fresh N) ≠ Undefined ∧
  ∀ c, run ops (fresh N) = Ok c →
    NoDup (c_live c) ∧
    Z.of_nat (length (c_live c)) <= N ∧
    ∃ ids p', alloc_n (Z.to_nat N) (c_pool c) = Some (ids, p')
              ∧ alloc p' = Some (-1, p').
Proof.
  intros HN.
  destruct (run_inv N ops (fresh N) (seqZ 0 N) HN) as [Hm|(c' & fl & Hrun & Hinv)].
  { apply fresh_inv. lia. }
  { rewrite Hm. split; [done|]. intros c [=]. }
  rewrite Hrun. split; [done|]. intros c [= <-].
  pose proof (inv_NoDup _ _ _ Hinv) as Hnd.
  pose proof (inv_count N _ _ ltac:(lia) Hinv) as Hcount.
  apply NoDup_app in Hnd as (_ & _ & Hndl).
  split; [done|]. split; [lia|].
  destruct c' as [[vs ff] live]. destruct Hinv as [_ Hchain _]; simpl in *.
  eexists _, _. split.
  - apply (alloc_n_exhaust vs ff fl); [done|lia].
  - done.
Qed.

(** C7.  When [alloc] has returned an index [i], [dealloc(i)] followed
    at once by [alloc()] returns [i] again, and puts the head of the free
    list back where it was. *)
Theorem dealloc_alloc_lifo (p p1 : Pool T) (i : Z) :
  Z.of_nat (length (values p)) <= INT_MAX →
  alloc p = Some (i, p1) → i ≠ -1 →
  ∃ p2, dealloc p1 (to_uint i) = Some p2
        ∧ alloc p2 = Some (i, mkPool (values p2) (first_free p1)).
Proof.
  intros Hsize Halloc Hi. destruct p as [vs ff].
  unfold alloc, load_int in Halloc; simpl in *.
  destruct (Z.eqb_spec ff (-1)); [by simplify_eq|].
  destruct (Z.ltb_spec ff 0); [done|].
  destruct (vs !! Z.to_nat ff) as [[nxt|v]|] eqn:Hlook; [|done..].
  injection Halloc as <- <-.
  apply lookup_lt_Some in Hlook.
  rewrite to_uint_small by (unfold INT_MAX in *; lia).
  unfold dealloc, store_int; simpl.
  destruct (Z.leb_spec 0 ff); [|lia].
  destruct (Z.ltb_spec ff (Z.of_nat (length vs))); [|lia]. simpl.
  eexists. split; [done|].
  unfold alloc, load_int; simpl.
  rewrite to_int_small by lia.
  destruct (Z.eqb_spec ff (-1)); [lia|].
  destruct (Z.ltb_spec ff 0); [lia|].
  by rewrite list_lookup_insert_eq by lia.
Qed.

(** C10.  On a freshly created pool the first [k] allocations
    ([k <= MAX_COUNT]) return 0, 1, ..., k-1 in this order. *)
Theorem fresh_alloc_ascending (N : Z) (k : nat) :
  0 < N → Z.of_nat k <= N →
  ∃ p', alloc_n k (create (T:=T) N) = Some (seqZ 0 (Z.of_nat k), p').
Proof.
  intros HN Hk.
  pose proof (create_chain (T:=T) N HN) as Hchain.
  replace N with (Z.of_nat k + (N - Z.of_nat k)) in Hchain at 2 by lia.
  rewrite seqZ_app in Hchain by lia.
  destruct (alloc_n_chain _ _ _ _ Hchain) as (ff' & Hn & _).
  rewrite length_seqZ, Nat2Z.id in Hn.
  exists (mkPool (values (create N)) ff'). exact Hn.
Qed.

End PoolClaims.

(** The same recycling order when the owner has written its object into
    the slot between [alloc] and [dealloc]. *)
Lemma lifo_after_store {T} (p p1 p1' : Pool T) (i : Z) (v : T) :
  Z.of_nat (length (values p)) <= INT_MAX →
  alloc p = Some (i, p1) → i ≠ -1 →
  pool_set p1 i v = Some p1' →
  ∃ p2, dealloc p1' (to_uint i) = Some p2
        ∧ alloc p2 = Some (i, mkPool (values p2) (first_free p1)).
Proof.
  intros Hsize Halloc Hi Hset. destruct p as [vs ff].
  unfold alloc, load_int in Halloc; simpl in *.
  destruct (Z.eqb_spec ff (-1)); [by simplify_eq|].
  destruct (Z.ltb_spec ff 0); [done|].
  destruct (vs !! Z.to_nat ff) as [[nxt|w]|] eqn:Hlook; [|done..].
  injection Halloc as <- <-.
  apply lookup_lt_Some in Hlook.
  unfold pool_set in Hset; simpl in Hset.
  destruct (Z.leb_spec 0 ff); [|lia].
  destruct (Z.ltb_spec ff (Z.of_nat (length vs))); [|lia]. simpl in Hset.
  injection Hset as <-.
  rewrite to_uint_small by (unfold INT_MAX in *; lia).
  unfold dealloc, store_int; simpl. rewrite length_insert.
  destruct (Z.leb_spec 0 ff); [|lia].
  destruct (Z.ltb_spec ff (Z.of_nat (length vs))); [|lia]. simpl.
  eexists. split; [done|].
  unfold alloc, load_int; simpl.
  rewrite to_int_small by lia.
  destruct (Z.eqb_spec ff (-1)); [lia|].
  destruct (Z.ltb_spec ff 0); [lia|].
  by rewrite list_lookup_insert_eq by (rewrite length_insert; lia).
Qed.

(** Witnesses on a pool of three [unit] slots. *)
Lemma pool_capacity_bound_witness :
  0 < 3 <= INT_MAX ∧
  (run [OpAlloc; OpAlloc; OpDealloc 0; OpStore 1 (); OpAlloc; OpAlloc; OpAlloc]
       (fresh (T:=unit) 3) ≠ Undefined ∧
   ∀ c, run [OpAlloc; OpAlloc; OpDealloc 0; OpStore 1 (); OpAlloc; OpAlloc; OpAlloc]
            (fresh 3) = Ok c →
     NoDup (c_live c) ∧
     Z.of_nat (length (c_live c)) <= 3 ∧
     ∃ ids p', alloc_n (Z.to_nat 3) (c_pool c) = Some (ids, p')
               ∧ alloc p' = Some (-1, p')).
Proof.
  split; [unfold INT_MAX; lia|].
  apply (pool_capacity_bound 3); unfold INT_MAX; lia.
Defined.

Lemma dealloc_alloc_lifo_witness :
  ∃ p2, dealloc (mkPool (values (create (T:=unit) 3)) 1) (to_uint 0) = Some p2
        ∧ alloc p2 = Some (0, mkPool (values p2) 1).
Proof.
  apply (dealloc_alloc_lifo (create 3) (mkPool (values (create 3)) 1) 0).
  - vm_compute. discriminate.
  - reflexivity.
  - lia.
Defined.

Lemma fresh_alloc_ascending_witness :
  ∃ p', alloc_n 3 (create (T:=unit) 4) = Some (seqZ 0 (Z.of_nat 3), p').
Proof. apply (fresh_alloc_ascending 4 3); lia. Defined.

(* ================================================================== *)
(** ** Running the monad *)

Lemma add_log_add_log evs1 evs2 d :
  add_log evs2 (add_log evs1 d) = add_log (evs1 ++ evs2) d.
Proof. unfold add_log, with_log; simpl. by rewrite app_assoc. Qed.

Lemma add_log_nil d : add_log [] d = d.
Proof. destruct d. unfold add_log, with_log; simpl. by rewrite app_nil_r. Qed.

Lemma g_log_add_log evs d : g_log (add_log evs d) = g_log d ++ evs.
Proof. done. Qed.

Lemma native_calls_app evs1 evs2 :
  native_calls (evs1 ++ evs2) = native_calls evs1 ++ native_calls evs2.
Proof. unfold native_calls. apply omap_app. Qed.

Lemma compressed_uploads_app evs1 evs2 :
  compressed_uploads (evs1 ++ evs2)
  = compressed_uploads evs1 ++ compressed_uploads evs2.
Proof. unfold compressed_uploads. apply omap_app. Qed.

Lemma blob_reads_app evs1 evs2 :
  blob_reads (evs1 ++ evs2) = blob_reads evs1 ++ blob_reads evs2.
Proof. unfold blob_reads. apply omap_app. Qed.

(* ================================================================== *)
(** ** The DDS loader *)

Section LoaderClaims.
Context `{Platform}.
Import DDS.

(** C2.  When the header read from the input has a magic number other
    than 0x20534444, or a size field other than 124, or lacks the
    pixel-format flag or the caps flag, [loadTexture] returns false; all
    it has done by then is the thread check, the read of the 128 bytes
    and the error line: no native call, so no texture object. *)
Theorem loadTexture_rejects_bad_header
    (handle : Z) (blob : Blob) (flags : Z) (want_info : bool) (d : Device) :
  let hdr := header_of_bytes (blob_read blob 128).1 in
  dwMagic hdr ≠ 0x20534444 ∨ dwSize hdr ≠ 124
  ∨ Z.land (dwFlags hdr) DDSD_PIXELFORMAT = 0
  ∨ Z.land (dwFlags hdr) DDSD_CAPS = 0 →
  ∃ evs, loadTexture handle blob flags want_info d
         = Ret (false, None) (add_log evs d)
         ∧ native_calls evs = [].
Proof.
  intros hdr Hbad.
  exists [EvAssert (g_thread d =? GetCurrentThreadId); EvBlobRead 128;
          EvLogError "renderer" "Wrong dds format or corrupted dds."].
  split; [|done].
  unfold loadTexture, checkThread, read_blob, ASSERT, log_error, emit,
    modify, get_device, bind, ret.
  destruct (blob_read blob 128) as [bytes blob'] eqn:Hread.
  simpl in hdr. subst hdr.
  assert (negb (dwMagic (header_of_bytes bytes) =? DDS_MAGIC)
          || negb (dwSize (header_of_bytes bytes) =? 124)
          || negb (has_bits (dwFlags (header_of_bytes bytes)) DDSD_PIXELFORMAT)
          || negb (has_bits (dwFlags (header_of_bytes bytes)) DDSD_CAPS)
          = true) as ->.
  { unfold has_bits, DDS_MAGIC. rewrite !negb_involutive.
    destruct Hbad as [Hm|[Hs|[Hp|Hc]]].
    - apply Z.eqb_neq in Hm. rewrite Hm. done.
    - apply Z.eqb_neq in Hs. rewrite Hs. by rewrite orb_true_r.
    - apply Z.eqb_eq in Hp. rewrite Hp. by rewrite orb_true_r.
    - apply Z.eqb_eq in Hc. rewrite Hc. by rewrite orb_true_r. }
  by rewrite !add_log_add_log.
Qed.

(** The test of [isBGR8] asks for the alpha flag to be set and clear at
    once, so no pixel format passes it. *)
Lemma isBGR8_never (pf : PixelFormat) : isBGR8 pf = false.
Proof. unfold isBGR8. by destruct (has_bits (pf_dwFlags pf) DDPF_ALPHAPIXELS). Qed.

(** A 24-bit format without alpha and without a four-character code
    falls through every test of the chain. *)
Lemma bgr24_unclassified (pf : PixelFormat) :
  has_bits (pf_dwFlags pf) DDPF_FOURCC = false →
  has_bits (pf_dwFlags pf) DDPF_ALPHAPIXELS = false →
  dwRGBBitCount pf = 24 →
  classify pf = None.
Proof.
  intros Hcc Ha Hbits.
  unfold classify, isDXT1, isDXT3, isDXT5, isATI1, isATI2, isBGRA8,
    isBGR5A1, isBGR565, isINDEX8.
  rewrite isBGR8_never, Hcc, Ha, Hbits; simpl.
  by rewrite !andb_false_r.
Qed.

(** The loop over the levels of a compressed face reads and uploads the
    sizes of [mip_levels], one read and one upload per level. *)
Lemma compressed_mips_log (n : nat)
    (tex_img_target texture_target internal_format ix width height size : Z)
    (blob : Blob) (d : Device) :
  ∃ blob' evs,
    compressed_mips n tex_img_target texture_target internal_format
      ix width height size blob d = Ret blob' (add_log evs d)
    ∧ compressed_uploads evs
      = mip_levels n internal_format ix width height size
    ∧ blob_reads evs
      = (λ l, l.2) <$> mip_levels n internal_format ix width height size
    ∧ length (native_calls evs) = (3 * n)%nat.
Proof.
  revert ix width height size blob d.
  induction n as [|n IH]; intros ix width height size blob d; simpl.
  - exists blob, []. by rewrite add_log_nil.
  - unfold read_blob, gl_, emit, modify, bind, ret.
    destruct (blob_read blob size) as [data blob1].
    edestruct IH as (blob' & evs & -> & Hup & Hrd & Hlen).
    exists blob',
      ([EvBlobRead size;
        EvGL (glCompressedTexImage2D tex_img_target ix internal_format
                width height 0 size data) RNone;
        EvGL (glTexParameteri texture_target GL_TEXTURE_MIN_FILTER
                GL_LINEAR_MIPMAP_LINEAR) RNone;
        EvGL (glTexParameteri texture_target GL_TEXTURE_MAG_FILTER
                GL_LINEAR) RNone] ++ evs).
    rewrite !add_log_add_log. split; [reflexivity|].
    rewrite compressed_uploads_app, blob_reads_app, native_calls_app,
      length_app, Hup, Hrd, Hlen.
    split; [done|]. split; [done|]. simpl. lia.
Qed.



(** The entries of the table that [classify] can return for a
    compressed format. *)
Lemma classify_compressed pf li :
  classify pf = Some li → compressed li = true →
  li ∈ [loadInfoDXT1; loadInfoDXT3; loadInfoDXT5; loadInfoATI1; loadInfoATI2].
Proof.
  unfold classify. intros Hc Hcomp.
  repeat match type of Hc with
         | (if ?b then _ else _) = _ => destruct b
         end;
    simplify_eq; try done;
    repeat first [by apply elem_of_cons; left | apply elem_of_cons; right].
Qed.

(** The block size that [sizeDXTC] derives from the native format is the
    [blockBytes] of the table, for every compressed entry and both of its
    native formats, but for the sRGB format of ATI1. *)
Lemma sizeDXTC_block_size li (srgb : bool) w h :
  li ∈ [loadInfoDXT1; loadInfoDXT3; loadInfoDXT5; loadInfoATI1; loadInfoATI2] →
  ¬ (li = loadInfoATI1 ∧ srgb = true) →
  sizeDXTC w h (if srgb then internalSRGBFormat li else internalFormat li)
  = block_size li w h.
Proof.
  intros Hli Hnot. unfold block_size, sizeDXTC.
  repeat (apply elem_of_cons in Hli as [->|Hli]);
    [..|by apply elem_of_nil in Hli];
    destruct srgb; try reflexivity.
  exfalso. by apply Hnot.
Qed.

(** Without overflow the size of a level is the plain product. *)
Lemma block_size_exact li w h :
  0 <= blockBytes li <= 16 →
  0 <= w < 32768 → 0 <= h < 32768 →
  block_size li w h = (w + 3) / 4 * ((h + 3) / 4) * blockBytes li.
Proof.
  intros Hk Hw Hh. unfold block_size, to_uint.
  assert (0 <= (w + 3) / 4 <= 8192) as Ha by (Z.div_mod_to_equations; lia).
  assert (0 <= (h + 3) / 4 <= 8192) as Hb by (Z.div_mod_to_equations; lia).
  rewrite (Z.mod_small (w + 3)), (Z.mod_small (h + 3)) by lia.
  set (a := (w + 3) / 4) in *. set (b := (h + 3) / 4) in *.
  assert (0 <= a * b <= 8192 * 8192) by nia.
  rewrite (Z.mod_small (a * b)) by lia.
  rewrite Z.mod_small by nia. done.
Qed.

(** The levels that the loop works through are the levels of the
    format. *)
Lemma mip_levels_block li (srgb : bool) n ix w h :
  li ∈ [loadInfoDXT1; loadInfoDXT3; loadInfoDXT5; loadInfoATI1; loadInfoATI2] →
  ¬ (li = loadInfoATI1 ∧ srgb = true) →
  let fmt := if srgb then internalSRGBFormat li else internalFormat li in
  mip_levels n fmt ix w h (sizeDXTC w h fmt) = block_levels li n ix w h.
Proof.
  intros Hli Hnot fmt. revert ix w h.
  induction n as [|n IH]; intros ix w h; simpl; [done|].
  unfold maximum. rewrite !Z.shiftr_div_pow2 by lia.
  change (2 ^ 1) with 2.
  rewrite IH. unfold fmt. by rewrite sizeDXTC_block_size.
Qed.

Lemma load_side_compressed hdr li texture fmt mips (cube : bool) side blob d :
  compressed li = true →
  match load_side hdr li texture fmt mips cube side blob d with
  | Ret (Some _) d' =>
      ∃ evs, d' = add_log evs d
             ∧ compressed_uploads evs
               = mip_levels (Z.to_nat mips) fmt 0 (dwWidth hdr) (dwHeight hdr)
                   (sizeDXTC (dwWidth hdr) (dwHeight hdr) fmt)
             ∧ blob_reads evs
               = (λ l, l.2) <$>
                   mip_levels (Z.to_nat mips) fmt 0 (dwWidth hdr) (dwHeight hdr)
                     (sizeDXTC (dwWidth hdr) (dwHeight hdr) fmt)
  | _ => True
  end.
Proof.
  intros Hcomp. unfold load_side. rewrite Hcomp.
  unfold gl_, emit, modify, bind, ret.
  destruct (negb _ || _); [done|].
  match goal with
  | |- context [compressed_mips ?n ?t1 ?t2 ?f ?ix ?w ?h ?s ?b ?d0] =>
      destruct (compressed_mips_log n t1 t2 f ix w h s b d0)
        as (blob' & evs & -> & Hup & Hrd & _)
  end.
  rewrite !add_log_add_log. eexists. split; [reflexivity|].
  rewrite !compressed_uploads_app, !blob_reads_app, Hup, Hrd.
  simpl. by rewrite !app_nil_r.
Qed.

Lemma load_sides_compressed hdr li texture fmt mips (cube : bool) sides blob d :
  compressed li = true →
  match load_sides hdr li texture fmt mips cube sides blob d with
  | Ret true d' =>
      ∃ evs, d' = add_log evs d
             ∧ compressed_uploads evs
               = mjoin (replicate (length sides)
                   (mip_levels (Z.to_nat mips) fmt 0 (dwWidth hdr) (dwHeight hdr)
                      (sizeDXTC (dwWidth hdr) (dwHeight hdr) fmt)))
             ∧ blob_reads evs
               = (λ l, l.2) <$>
                 mjoin (replicate (length sides)
                   (mip_levels (Z.to_nat mips) fmt 0 (dwWidth hdr) (dwHeight hdr)
                      (sizeDXTC (dwWidth hdr) (dwHeight hdr) fmt)))
  | _ => True
  end.
Proof.
  intros Hcomp. revert blob d.
  induction sides as [|side sides IH]; intros blob d; simpl.
  - exists []. by rewrite add_log_nil.
  - unfold bind.
    pose proof (load_side_compressed hdr li texture fmt mips cube side blob d
                  Hcomp) as Hside.
    destruct (load_side _ _ _ _ _ _ _ _ _) as [[blob1|] d1|d1]; [|done..].
    destruct Hside as (evs1 & -> & Hup1 & Hrd1).
    specialize (IH blob1 (add_log evs1 d)).
    destruct (load_sides _ _ _ _ _ _ _ _ _) as [[] d2|d2]; [|done..].
    destruct IH as (evs2 & -> & Hup2 & Hrd2).
    exists (evs1 ++ evs2). rewrite add_log_add_log. split; [done|].
    rewrite compressed_uploads_app, blob_reads_app, Hup1, Hrd1, Hup2, Hrd2.
    by rewrite fmap_app.
Qed.

(** C3 (amended).  For every block-compressed container that
    [loadTexture] accepts, ATI1 loaded with the sRGB flag apart: what is
    read after the header and what is uploaded is, for each face (six of
    a cubemap, one otherwise), each level in turn with
    [((w+3)/4)*((h+3)/4)*blockBytes] bytes computed in [uint], the next
    level having both dimensions halved, rounded down and not below 1.
    A single face of 4x4 in one level is one upload of
    [((4+3)/4)*((4+3)/4)*blockBytes] bytes. *)
Theorem loadTexture_compressed_levels
    (handle : Z) (blob : Blob) (flags : Z) (want_info : bool)
    (d d' : Device) (info : option TextureInfo) (li : LoadInfo) :
  let hdr := header_of_bytes (blob_read blob 128).1 in
  let levels :=
    block_levels li (level_count hdr) 0 (dwWidth hdr) (dwHeight hdr) in
  loadTexture handle blob flags want_info d = Ret (true, info) d' →
  classify (pixelFormat hdr) = Some li →
  compressed li = true →
  ¬ (li = loadInfoATI1 ∧ has_bits flags TextureFlags_SRGB = true) →
  ∃ evs,
    g_log d' = g_log d ++ evs
    ∧ compressed_uploads evs = mjoin (replicate (face_count hdr) levels)
    ∧ blob_reads evs
      = 128 :: ((λ l, l.2) <$> mjoin (replicate (face_count hdr) levels))
    ∧ (face_count hdr = 1%nat → level_count hdr = 1%nat →
       dwWidth hdr = 4 → dwHeight hdr = 4 →
       compressed_uploads evs
       = [(0, 4, 4, (4 + 3) / 4 * ((4 + 3) / 4) * blockBytes li)]).
Proof.
  intros hdr levels Hload Hclass Hcomp Hnot.
  pose proof (classify_compressed _ _ Hclass Hcomp) as Hli.
  assert (∃ evs, g_log d' = g_log d ++ evs
            ∧ compressed_uploads evs = mjoin (replicate (face_count hdr) levels)
            ∧ blob_reads evs
              = 128 :: ((λ l, l.2) <$> mjoin (replicate (face_count hdr) levels)))
    as (evs & Hlog & Hup & Hrd).
  { revert Hload.
    unfold loadTexture, checkThread, read_blob, ASSERT, log_error, gl, emit,
      modify, get_device, bind, ret.
    subst levels hdr.
    destruct (blob_read blob 128) as [bytes blob1]; cbn [fst] in *.
    set (hdr := header_of_bytes bytes) in *. clearbody hdr.
    destruct (negb _ || _ || _ || _); [done|].
    rewrite Hclass.
    destruct (as_int _ =? 0); [done|].
    rewrite !add_log_add_log.
    match goal with
    | |- context [load_sides hdr li ?t ?f ?m ?c ?s ?b ?d0] =>
        pose proof (load_sides_compressed hdr li t f m c s b d0 Hcomp) as Hs;
        destruct (load_sides hdr li t f m c s b d0) as [[] d1|d1];
        simpl; [|done..]
    end.
    destruct Hs as (evs & -> & Hup & Hrd).
    rewrite add_log_add_log.
    unfold defined. destruct (pool_set _ _ _) as [ts|]; [|done].
    intros [= _ <-].
    eexists. split; [reflexivity|].
    change (compressed_uploads (_ :: _ :: _ :: evs))
      with (compressed_uploads evs).
    change (blob_reads (_ :: _ :: _ :: evs)) with (128 :: blob_reads evs).
    rewrite Hup, Hrd, length_seqZ.
    rewrite (mip_levels_block li (has_bits flags TextureFlags_SRGB))
      by done.
    replace (Z.to_nat (if negb (Z.land (dwCaps2 (caps2 hdr)) DDSCAPS2_CUBEMAP =? 0)
                       then 6 else 1)) with (face_count hdr)
      by (unfold face_count; by destruct (_ =? 0)).
    done. }
  exists evs. split; [done|]. split; [done|]. split; [done|].
  intros Hface Hlevel Hw Hh. rewrite Hup. subst levels.
  rewrite Hface, Hlevel, Hw, Hh. simpl.
  do 2 f_equal. unfold block_size.
  repeat (apply elem_of_cons in Hli as [->|Hli]);
    [..|by apply elem_of_nil in Hli]; reflexivity.
Qed.

End LoaderClaims.

(* ================================================================== *)
(** ** Relations kept by the entry points *)

Section Respects.
Context `{Platform}.
Context (R : Device → Device → Prop) `{!PreOrder R}.

Lemma respects_ret {A} (a : A) : respects R (ret a).
Proof. intros d. simpl. reflexivity. Qed.

Lemma respects_fault {A} : respects R (fault (A:=A)).
Proof. intros d. simpl. reflexivity. Qed.

Lemma respects_get : respects R get_device.
Proof. intros d. simpl. reflexivity. Qed.

Lemma respects_defined {A} (o : option A) : respects R (defined o).
Proof. destruct o; [apply respects_ret|apply respects_fault]. Qed.

Lemma respects_bind {A B} (m : M A) (k : A → M B) :
  respects R m → (∀ a, respects R (k a)) → respects R (bind m k).
Proof.
  intros Hm Hk d. unfold bind. specialize (Hm d).
  destruct (m d) as [a d'|d']; simpl in *; [|done].
  etrans; [exact Hm|apply Hk].
Qed.

Lemma respects_for_each {A} (f : A → M unit) (l : list A) :
  (∀ x, respects R (f x)) → respects R (for_each f l).
Proof.
  intros Hf. induction l as [|x l IH]; simpl.
  - apply respects_ret.
  - apply respects_bind; [apply Hf|by intros _].
Qed.

End Respects.

Global Instance extends_preorder (P : event → Prop) : PreOrder (extends P).
Proof.
  split.
  - intros d. exists []. by rewrite app_nil_r.
  - intros d1 d2 d3 (evs1 & H1 & HP1) (evs2 & H2 & HP2).
    exists (evs1 ++ evs2). rewrite H2, H1, app_assoc.
    split; [done|]. by apply Forall_app.
Qed.

(** Walks through a computation built from the monad: [prim] closes the
    goals about the operations that change the state. *)
Ltac respects_with prim :=
  repeat first
    [ match goal with |- PreOrder _ => apply _ end
    | prim
    | progress cbv zeta
    | apply respects_ret
    | apply respects_fault
    | apply respects_get
    | apply respects_defined
    | apply respects_bind; [| |intros ?]
    | apply respects_for_each; [|intros ?]
    | match goal with
      | |- respects _ (if ?b then _ else _) => destruct b
      | |- respects _ (match ?x with _ => _ end) => destruct x
      end ].

Section Extends.
Context `{Platform}.
Context (P : event → Prop).

Lemma extends_emit e : P e → respects (extends P) (emit e).
Proof. intros He d. exists [e]. split; [done|]. by constructor. Qed.

Lemma extends_gl_ c : P (EvGL c RNone) → respects (extends P) (gl_ c).
Proof. apply extends_emit. Qed.

Lemma extends_gl c : (∀ r, P (EvGL c r)) → respects (extends P) (gl c).
Proof.
  intros Hc d. exists [EvGL c (gl_driver (g_log d) c)].
  split; [done|]. by constructor.
Qed.

Lemma extends_modify f :
  (∀ d, g_log (f d) = g_log d) → respects (extends P) (modify f).
Proof. intros Hf d. exists []. simpl. by rewrite Hf, app_nil_r. Qed.

End Extends.

(* ================================================================== *)
(** ** [useProgram] *)

Section UseProgram.
Context `{Platform}.

(** C9.  With a handle that is not valid, [useProgram] returns at once:
    it issues no call and leaves the device as it found it. *)
Theorem useProgram_invalid_noop (handle : Z) (d : Device) :
  ProgramHandle_isValid handle = false →
  useProgram handle d = Ret () d.
Proof. intros Hv. unfold useProgram. by rewrite Hv. Qed.

Lemma upload_uniform_native pu : respects (extends is_native) (upload_uniform pu).
Proof.
  unfold upload_uniform.
  respects_with ltac:(by apply extends_gl_).
Qed.

(** Whatever the handle, every event of [useProgram] is a native call:
    the thread is not checked anywhere in it. *)
Lemma useProgram_native handle : respects (extends is_native) (useProgram handle).
Proof.
  unfold useProgram.
  respects_with ltac:(first [by apply extends_gl_|apply upload_uniform_native]).
Qed.

(** With a valid handle of a program, the first thing [useProgram] does
    is to bind the native program. *)
Lemma useProgram_first_event handle d prg :
  ProgramHandle_isValid handle = true →
  pool_get (g_programs d) handle = Some prg →
  ∃ rest, g_log (res_device (useProgram handle d))
          = g_log d ++ EvGL (glUseProgram (Program.handle prg)) RNone :: rest.
Proof.
  intros Hv Hprg. unfold useProgram. rewrite Hv. simpl.
  unfold bind, get_device, defined. rewrite Hprg. simpl.
  unfold gl_, emit, modify.
  destruct (respects_for_each (extends is_native) upload_uniform
              (Program.uniforms prg) upload_uniform_native
              (add_log [EvGL (glUseProgram (Program.handle prg)) RNone] d))
    as (evs & Hlog & _).
  exists evs. rewrite Hlog. simpl. by rewrite <- app_assoc.
Qed.

(** [viewport], as most entry points, starts with the check. *)
Lemma viewport_checks_first x y w h d :
  viewport x y w h d
  = Ret () (add_log [EvAssert (g_thread d =? GetCurrentThreadId);
                     EvGL (glViewport x y w h) RNone] d).
Proof.
  unfold viewport, checkThread, ASSERT, gl_, emit, modify, get_device,
    bind, ret.
  by rewrite add_log_add_log.
Qed.

End UseProgram.

(* ================================================================== *)
(** ** [createProgram]: a stage that does not compile *)

Section CreateProgram.
Context `{Platform}.

Lemma failed_stage_prefix name pre evs :
  Forall is_quiet pre → failed_stage name evs → failed_stage name (pre ++ evs).
Proof.
  intros Hpre (pre' & shd & type & st & ll & il & -> & Hq & Hst).
  exists (pre ++ pre'), shd, type, st, ll, il.
  rewrite <- app_assoc. split; [done|]. split; [|done]. by apply Forall_app.
Qed.

Lemma compile_stage_outcome prg srcs types prefixes prefixes_count name i d :
  stage_outcome name d
    (compile_stage prg srcs types prefixes prefixes_count name i d).
Proof.
  unfold compile_stage, arg_at, combine_srcs, defined, gl, gl_, log_error,
    emit, modify, bind, ret, fault, stage_outcome.
  destruct (i <? 0).
  { exists []. by rewrite add_log_nil. }
  destruct (types !! Z.to_nat i) as [type|].
  2:{ exists []. by rewrite add_log_nil. }
  destruct (srcs !! Z.to_nat i) as [src|].
  2:{ eexists. split; [reflexivity|]. by repeat constructor. }
  destruct ((prefixes_count <? 0) || (16 <=? prefixes_count)).
  { eexists. split; [reflexivity|]. by repeat constructor. }
  destruct (length prefixes <? Z.to_nat prefixes_count)%nat.
  { eexists. split; [reflexivity|]. by repeat constructor. }
  rewrite !add_log_add_log.
  set (created := gl_driver (g_log d) (glCreateShader (shader_type_of type))).
  set (shader := as_int created).
  set (pre := [EvGL (glCreateShader (shader_type_of type)) created;
               EvGL (glShaderSource shader (1 + prefixes_count)
                       (take (Z.to_nat prefixes_count) prefixes ++ [src])) RNone;
               EvGL (glCompileShader shader) RNone]).
  assert (Forall is_quiet pre) as Hpre by (by repeat constructor).
  match goal with
  | |- context [EvGL (glGetShaderiv shader GL_COMPILE_STATUS) ?r] =>
      set (status := r)
  end.
  destruct (as_int status =? GL_FALSE) eqn:Hstatus.
  - rewrite !add_log_add_log.
    match goal with
    | |- context [EvGL (glGetShaderiv shader GL_INFO_LOG_LENGTH) ?r] =>
        set (log_length := r)
    end.
    destruct (0 <? as_int log_length) eqn:Hlen.
    + rewrite !add_log_add_log.
      match goal with
      | |- context [EvGL (glGetShaderInfoLog shader (as_int log_length)) ?r] =>
          set (info_log := r)
      end.
      eexists. split; [reflexivity|].
      exists pre, shader, type, status, log_length, info_log.
      unfold compile_report. rewrite Hlen.
      split; [reflexivity|]. split; [done|].
      by apply Z.eqb_eq.
    + rewrite !add_log_add_log.
      eexists. split; [reflexivity|].
      exists pre, shader, type, status, log_length, RNone.
      unfold compile_report. rewrite Hlen.
      split; [reflexivity|]. split; [done|].
      by apply Z.eqb_eq.
  - rewrite !add_log_add_log.
    eexists. split; [reflexivity|].
    apply Forall_app. split; [|by repeat constructor].
    apply Forall_app. split; [done|].
    repeat constructor.
    unfold is_quiet, quiet, is_compile_failure. by rewrite Hstatus, andb_false_r.
Qed.

Lemma compile_stages_outcome n prg srcs types prefixes prefixes_count name i d :
  stage_outcome name d
    (compile_stages n prg srcs types prefixes prefixes_count name i d).
Proof.
  revert i d. induction n as [|n IH]; intros i d; simpl.
  - exists []. by rewrite add_log_nil.
  - unfold bind.
    pose proof (compile_stage_outcome prg srcs types prefixes
                  prefixes_count name i d) as Hstage.
    destruct (compile_stage _ _ _ _ _ _ _ _) as [[] d1|d1]; simpl in *.
    + done.
    + destruct Hstage as (evs1 & -> & Hq1).
      specialize (IH (i + 1) (add_log evs1 d)).
      destruct (compile_stages _ _ _ _ _ _ _ _ _) as [[] d2|d2]; simpl in *;
        destruct IH as (evs2 & -> & H2); exists (evs1 ++ evs2);
        rewrite add_log_add_log; (split; [done|]).
      * by apply failed_stage_prefix.
      * by apply Forall_app.
      * by apply Forall_app.
    + done.
Qed.

Lemma quiet_no_failure e : is_quiet e → no_failure e.
Proof.
  unfold is_quiet, quiet, no_failure.
  intros [Hf _]%andb_prop. by apply negb_true_iff.
Qed.

Lemma no_failure_compile_failed evs :
  Forall no_failure evs → compile_failed evs = false.
Proof.
  unfold compile_failed. induction 1 as [|e evs He _ IH]; simpl; [done|].
  by rewrite He, IH.
Qed.

Lemma compile_failed_app evs1 evs2 :
  compile_failed (evs1 ++ evs2) = compile_failed evs1 || compile_failed evs2.
Proof. unfold compile_failed. apply existsb_app. Qed.

Lemma quiet_no_link evs :
  Forall is_quiet evs → Forall (λ c, is_link c = false) (native_calls evs).
Proof.
  induction 1 as [|e evs He _ IH]; [constructor|].
  unfold native_calls in *. destruct e; simpl; try done.
  constructor; [|done].
  unfold is_quiet, quiet in He. apply andb_prop in He as [_ He].
  by apply negb_true_iff.
Qed.

(** The report of a failed stage contains no link. *)
Lemma failed_stage_no_link name evs :
  failed_stage name evs → Forall (λ c, is_link c = false) (native_calls evs).
Proof.
  intros (pre & shd & type & st & ll & il & -> & Hq & _).
  rewrite !native_calls_app. apply Forall_app. split; [by apply quiet_no_link|].
  apply Forall_app. split; [by repeat constructor|].
  apply Forall_app. split; [|by repeat constructor].
  unfold compile_report. destruct (0 <? as_int ll); by repeat constructor.
Qed.

(** Resolving a uniform, and with it everything after the stage loop,
    asks for no compile status. *)
Lemma allocUniform_extends (P : event → Prop) name type count :
  (∀ s m, P (EvLogError s m)) →
  respects (extends P) (allocUniform name type count).
Proof.
  intros HP. unfold allocUniform, log_error.
  respects_with ltac:(first [by apply extends_emit|by apply extends_modify]).
Qed.

Lemma reflect_uniforms_no_failure n prg id i :
  respects (extends no_failure) (reflect_uniforms n prg id i).
Proof.
  revert i. induction n as [|n IH]; intros i; simpl.
  - apply respects_ret, _.
  - apply respects_bind; [apply _| |intros _; apply IH].
    unfold reflect_uniform, uniform_type_of, ASSERT.
    respects_with ltac:(first
      [ by apply extends_emit | by apply extends_modify
      | by apply extends_gl | by apply allocUniform_extends ]).
Qed.

Lemma link_and_reflect_no_failure prg name :
  respects (extends no_failure) (link_and_reflect prg name).
Proof.
  unfold link_and_reflect, log_error.
  respects_with ltac:(first
    [ by apply extends_emit | by apply extends_gl_ | by apply extends_modify
    | by apply extends_gl | apply reflect_uniforms_no_failure ]).
Qed.

Lemma createProgram_events srcs types num prefixes prefixes_count name d :
  ∃ evs,
    g_log (res_device (createProgram srcs types num prefixes prefixes_count name d))
    = g_log d ++ evs
    ∧ (compile_failed evs = true →
       createProgram srcs types num prefixes prefixes_count name d
       = Ret INVALID_PROGRAM (add_log evs d)
       ∧ failed_stage name evs).
Proof.
  unfold createProgram, checkThread, ASSERT, log_error, emit, modify,
    get_device, bind, ret.
  change (g_programs (add_log ?e d)) with (g_programs d).
  destruct (isFull (g_programs d)).
  { rewrite !add_log_add_log. eexists. split; [reflexivity|]. done. }
  destruct (MAX_SHADERS_PER_PROGRAM <? num).
  { rewrite !add_log_add_log. eexists. split; [reflexivity|]. done. }
  unfold gl. rewrite !add_log_add_log. cbn [app].
  set (created := gl_driver _ glCreateProgram).
  set (pre := [_; _; EvGL glCreateProgram created]).
  assert (Forall is_quiet pre) as Hpre by (by repeat constructor).
  match goal with
  | |- context [compile_stages ?n ?prg _ _ _ _ _ _ _] =>
      pose proof (compile_stages_outcome n prg srcs types prefixes
                    prefixes_count name 0 (add_log pre d)) as Hloop;
      destruct (compile_stages n prg srcs types prefixes prefixes_count
                  name 0 (add_log pre d)) as [[] d1|d1]; simpl in Hloop;
      [|set (program := prg)|]
  end.
  - destruct Hloop as (evs & -> & Hfail). rewrite add_log_add_log.
    exists (pre ++ evs). split; [done|]. intros _. split; [done|].
    by apply failed_stage_prefix.
  - destruct Hloop as (evs & -> & Hq). rewrite add_log_add_log.
    destruct (link_and_reflect_no_failure program name (add_log (pre ++ evs) d))
      as (evs2 & Hlog & Hnf).
    exists ((pre ++ evs) ++ evs2). rewrite Hlog, g_log_add_log.
    split; [by rewrite <- !app_assoc|].
    rewrite no_failure_compile_failed; [done|].
    apply Forall_app. split; [|done].
    eapply Forall_impl; [|apply quiet_no_failure].
    by apply Forall_app.
  - destruct Hloop as (evs & -> & Hq). rewrite add_log_add_log.
    exists (pre ++ evs). split; [done|].
    rewrite no_failure_compile_failed; [done|].
    eapply Forall_impl; [|apply quiet_no_failure].
    by apply Forall_app.
Qed.

(** C8.  When among the events of a call of [createProgram] a compile
    status comes back as [GL_FALSE], the call returns [INVALID_PROGRAM]
    and changes nothing but the log; no link is among its native calls;
    and its events end with the report of the failed stage: the queries
    of the status and of the length of the info log, then, when that
    length is positive, the fetch of the info log and an error line that
    carries it (a plain error line otherwise), then the deletion of the
    shader. *)
Theorem createProgram_compile_failure
    (srcs : list string) (types : list ShaderType.t) (num : Z)
    (prefixes : list string) (prefixes_count : Z) (name : string)
    (d : Device) (evs : list event) :
  g_log (res_device
           (createProgram srcs types num prefixes prefixes_count name d))
  = g_log d ++ evs →
  compile_failed evs = true →
  createProgram srcs types num prefixes prefixes_count name d
  = Ret INVALID_PROGRAM (add_log evs d)
  ∧ Forall (λ c, is_link c = false) (native_calls evs)
  ∧ ∃ pre shd type status log_length info_log,
      evs = pre
            ++ [EvGL (glGetShaderiv shd GL_COMPILE_STATUS) status;
                EvGL (glGetShaderiv shd GL_INFO_LOG_LENGTH) log_length]
            ++ compile_report name type shd log_length info_log
            ++ [EvGL (glDeleteShader shd) RNone]
      ∧ as_int status = GL_FALSE.
Proof.
  intros Hlog Hfailed.
  destruct (createProgram_events srcs types num prefixes prefixes_count
              name d) as (evs' & Hlog' & Hspec).
  rewrite Hlog in Hlog'. apply app_inv_head in Hlog' as <-.
  destruct (Hspec Hfailed) as [Hret Hstage].
  split; [done|]. split; [by eapply failed_stage_no_link|].
  destruct Hstage as (pre & shd & type & st & ll & il & -> & _ & Hst).
  by exists pre, shd, type, st, ll, il.
Qed.

End CreateProgram.

(* ================================================================== *)
(** ** Uniform slots: one slot per name *)

Lemma uniforms_wf_same d d' fl :
  g_uniforms d' = g_uniforms d →
  g_uniforms_hash_map d' = g_uniforms_hash_map d →
  uniforms_wf d fl → uniforms_wf d' fl.
Proof. intros Hu Hm [? ? ? ? ?]. split; rewrite ?Hu, ?Hm; done. Qed.

Lemma keeps_same d d' :
  g_uniforms d' = g_uniforms d →
  g_uniforms_hash_map d' = g_uniforms_hash_map d →
  keeps_uniforms d d'.
Proof.
  intros Hu Hm [fl Hwf]. split.
  - exists fl. by eapply uniforms_wf_same.
  - intros k v. by rewrite Hm.
  - intros k v _. unfold slot_decl. by rewrite Hu.
  - intros Hfull. by rewrite Hu, Hm.
Qed.

Global Instance keeps_uniforms_preorder : PreOrder keeps_uniforms.
Proof.
  split.
  - intros d. by apply keeps_same.
  - intros d1 d2 d3 H12 H23 Hwf.
    destruct (H12 Hwf) as [Hwf2 Ht Hd Hf].
    destruct (H23 Hwf2) as [Hwf3 Ht' Hd' Hf']. split.
    + done.
    + intros k v Hk. by apply Ht', Ht.
    + intros k v Hk. rewrite (Hd' k v) by (by apply Ht). by apply (Hd k v).
    + intros Hfull. destruct (Hf Hfull) as [Hfull2 Hm2].
      destruct (Hf' Hfull2) as [Hfull3 Hm3]. split; [done|congruence].
Qed.

(** The state after [preinit] is well formed. *)
Lemma preinit_wf : uniforms_wf preinit (seqZ 0 Uniform.MAX_COUNT).
Proof.
  split; unfold preinit; cbn [g_uniforms g_uniforms_hash_map].
  - rewrite create_length; unfold Uniform.MAX_COUNT, INT_MAX; lia.
  - by apply create_chain.
  - apply NoDup_seqZ.
  - intros i Hi%elem_of_seqZ. rewrite create_length; unfold Uniform.MAX_COUNT in *; lia.
  - intros k v Hk. by rewrite lookup_empty in Hk.
Qed.

Section Uniforms.
Context `{Platform}.

Lemma keeps_emit e : respects keeps_uniforms (emit e).
Proof. intros d. apply keeps_same; reflexivity. Qed.

Lemma keeps_gl_ c : respects keeps_uniforms (gl_ c).
Proof. apply keeps_emit. Qed.

Lemma keeps_gl c : respects keeps_uniforms (gl c).
Proof. intros d. apply keeps_same; reflexivity. Qed.

Lemma keeps_modify f :
  (∀ d, g_uniforms (f d) = g_uniforms d) →
  (∀ d, g_uniforms_hash_map (f d) = g_uniforms_hash_map d) →
  respects keeps_uniforms (modify f).
Proof. intros Hu Hm d. apply keeps_same; [apply Hu|apply Hm]. Qed.

(** A name that is registered: the call returns its slot and does
    nothing else. *)
Lemma allocUniform_hit name type count d v :
  g_uniforms_hash_map d !! crc32 name = Some v →
  allocUniform name type count d = Ret v d.
Proof.
  intros Hhit. unfold allocUniform, get_device, bind. by rewrite Hhit.
Qed.

(** A new name when the pool is full: the call logs and returns
    [INVALID_UNIFORM]. *)
Lemma allocUniform_full name type count d :
  g_uniforms_hash_map d !! crc32 name = None →
  isFull (g_uniforms d) = true →
  allocUniform name type count d
  = Ret INVALID_UNIFORM
      (add_log [EvLogError "Renderer" "FFR is out of free uniform slots."] d).
Proof.
  intros Hmiss Hfull. unfold allocUniform, get_device, bind.
  by rewrite Hmiss, Hfull.
Qed.

(** A new name when the pool has a free slot: the call takes the head
    of the free list, writes the declaration there and registers it. *)
Lemma allocUniform_miss name type count d fl :
  uniforms_wf d fl →
  g_uniforms_hash_map d !! crc32 name = None →
  isFull (g_uniforms d) = false →
  ∃ h d', allocUniform name type count d = Ret h d'
          ∧ keeps_uniforms_from d d'
          ∧ g_uniforms_hash_map d' !! crc32 name = Some h
          ∧ slot_decl d' h = Some (type, to_uint count).
Proof.
  intros Hwf Hmiss Hfull.
  unfold allocUniform, get_device, bind. rewrite Hmiss, Hfull.
  destruct d as [bufs texs [vs ff] prgs hm th lg].
  destruct Hwf as [Hsize Hchain Hnd Hrange Htable]; simpl in *.
  destruct fl as [|i fl].
  { apply chain_empty in Hchain as ->. done. }
  destruct (alloc_chain_cons _ _ _ _ Hchain) as (nxt & -> & Hrest).
  apply chain_head in Hchain as [-> Hi].
  assert (i < Z.of_nat (length vs)) as Hlt.
  { apply Hrange. by left. }
  apply NoDup_cons in Hnd as [Hnotin Hnd].
  unfold defined, ret. simpl.
  rewrite pool_set_in_bounds by (simpl; lia). simpl.
  rewrite to_uint_small by (unfold INT_MAX in *; lia).
  unfold modify. simpl.
  eexists _, _. split; [reflexivity|].
  set (u := {| Uniform.type := type; Uniform.count := to_uint count;
               Uniform.data := _ |}).
  split; [split|split]; simpl.
  - exists fl. split; simpl.
    + by rewrite length_insert.
    + by apply chain_insert.
    + done.
    + intros j Hj. rewrite length_insert. apply Hrange. by right.
    + intros k v Hk. destruct (decide (k = crc32 name)) as [->|Hne].
      * rewrite lookup_insert_eq in Hk. injection Hk as <-.
        split; [done|]. rewrite pool_get_insert_eq by lia. by eexists.
      * rewrite lookup_insert_ne in Hk by done.
        destruct (Htable k v Hk) as [Hv Hsome].
        apply not_elem_of_cons in Hv as [Hvi Hv]. split; [done|].
        by rewrite (pool_get_insert_ne vs i) by done.
  - intros k v Hk. rewrite lookup_insert_ne; [done|]. congruence.
  - intros k v Hk. unfold slot_decl; simpl.
    destruct (Htable k v Hk) as [Hv _].
    apply not_elem_of_cons in Hv as [Hvi _].
    by rewrite (pool_get_insert_ne vs i) by done.
  - intros Hfull'. congruence.
  - by rewrite lookup_insert_eq.
  - unfold slot_decl; simpl. by rewrite pool_get_insert_eq by lia.
Qed.

(** On a well-formed state [allocUniform] returns, and keeps what is
    registered. *)
Lemma allocUniform_keeps name type count :
  respects keeps_uniforms (allocUniform name type count).
Proof.
  intros d [fl Hwf].
  destruct (g_uniforms_hash_map d !! crc32 name) as [v|] eqn:Hlook.
  { rewrite (allocUniform_hit _ _ _ _ v Hlook). simpl.
    apply (reflexivity (R:=keeps_uniforms)). by exists fl. }
  destruct (isFull (g_uniforms d)) eqn:Hfull.
  { rewrite allocUniform_full by done. simpl.
    apply keeps_same; [done..|]. by exists fl. }
  destruct (allocUniform_miss name type count d fl Hwf Hlook Hfull)
    as (h & d' & -> & Hkeeps & _). done.
Qed.

(** Writing the data of a slot keeps its declaration. *)
Lemma set_uniform_keeps expected n uniform value :
  respects keeps_uniforms (set_uniform expected n uniform value).
Proof.
  intros d [fl Hwf].
  unfold set_uniform, checkThread, ASSERT, emit, modify, get_device, bind,
    defined, ret, fault.
  change (g_uniforms (add_log ?e d)) with (g_uniforms d).
  destruct (pool_get (g_uniforms d) uniform) as [u|] eqn:Hget; simpl.
  2:{ apply keeps_same; [done..|]. by exists fl. }
  destruct (memcpy (Uniform.data u) value n) as [data|]; simpl.
  2:{ apply keeps_same; [done..|]. by exists fl. }
  apply pool_get_bounds in Hget as Hb. destruct Hb as [Hidx Hcell].
  rewrite pool_set_in_bounds by done. simpl.
  destruct d as [bufs texs [vs ff] prgs hm th lg].
  destruct Hwf as [Hsize Hchain Hnd Hrange Htable]; simpl in *.
  assert (uniform ∉ fl) as Hnotin.
  { intros Hin. destruct (chain_cell _ _ _ _ Hchain Hin) as (_ & m & Hm).
    congruence. }
  split; simpl.
  - exists fl. split; simpl.
    + by rewrite length_insert.
    + apply chain_insert; [done|lia|done].
    + done.
    + intros j Hj. rewrite length_insert. by apply Hrange.
    + intros k v Hk. destruct (Htable k v Hk) as [Hv Hsome].
      split; [done|]. destruct (decide (uniform = v)) as [<-|Hne].
      * rewrite pool_get_insert_eq by done. by eexists.
      * by rewrite (pool_get_insert_ne vs ff) by lia.
  - done.
  - intros k v Hk. unfold slot_decl; simpl.
    destruct (decide (uniform = v)) as [<-|Hne].
    + rewrite pool_get_insert_eq by done. by rewrite Hget.
    + by rewrite (pool_get_insert_ne vs ff) by lia.
  - done.
Qed.

Ltac keeps_prim :=
  first [ apply keeps_emit | apply keeps_gl_ | apply keeps_gl
        | by apply keeps_modify
        | apply allocUniform_keeps | apply set_uniform_keeps ].

Lemma compile_stages_keeps n prg srcs types prefixes prefixes_count name i :
  respects keeps_uniforms
    (compile_stages n prg srcs types prefixes prefixes_count name i).
Proof.
  revert i. induction n as [|n IH]; intros i; simpl.
  - apply respects_ret, _.
  - apply respects_bind; [apply _| |intros []; [apply respects_ret, _|apply IH]].
    unfold compile_stage, arg_at, combine_srcs, log_error.
    respects_with keeps_prim.
Qed.

Lemma reflect_uniforms_keeps n prg id i :
  respects keeps_uniforms (reflect_uniforms n prg id i).
Proof.
  revert i. induction n as [|n IH]; intros i; simpl.
  - apply respects_ret, _.
  - apply respects_bind; [apply _| |intros _; apply IH].
    unfold reflect_uniform, uniform_type_of, ASSERT.
    respects_with keeps_prim.
Qed.

Lemma createProgram_keeps srcs types num prefixes prefixes_count name :
  respects keeps_uniforms
    (createProgram srcs types num prefixes prefixes_count name).
Proof.
  unfold createProgram, link_and_reflect, checkThread, ASSERT, log_error.
  respects_with ltac:(first
    [ keeps_prim | apply compile_stages_keeps | apply reflect_uniforms_keeps ]).
Qed.

Lemma useProgram_keeps handle : respects keeps_uniforms (useProgram handle).
Proof.
  unfold useProgram, upload_uniform.
  respects_with keeps_prim.
Qed.

Lemma perform_keeps op : respects keeps_uniforms (perform op).
Proof.
  destruct op; simpl.
  - apply respects_bind; [apply _|apply allocUniform_keeps|intros; apply respects_ret, _].
  - apply set_uniform_keeps.
  - apply respects_bind; [apply _|apply createProgram_keeps|intros; apply respects_ret, _].
  - apply useProgram_keeps.
Qed.

Lemma perform_all_keeps ops : respects keeps_uniforms (perform_all ops).
Proof.
  induction ops as [|op ops IH]; simpl.
  - apply respects_ret, _.
  - apply respects_bind; [apply _|apply perform_keeps|by intros _].
Qed.

(** What is written through a handle is what is read through it. *)
Lemma set_uniform_visible expected n h value d d' :
  set_uniform expected n h value d = Ret () d' →
  ∃ u, pool_get (g_uniforms d') h = Some u
       ∧ take n (Uniform.data u) = take n value.
Proof.
  unfold set_uniform, checkThread, ASSERT, emit, modify, get_device, bind,
    defined, ret, fault.
  change (g_uniforms (add_log ?e d)) with (g_uniforms d).
  destruct (pool_get (g_uniforms d) h) as [u|] eqn:Hget; simpl; [|done].
  unfold memcpy.
  destruct (Nat.leb_spec n (length (Uniform.data u))); simpl; [|done].
  destruct (Nat.leb_spec n (length value)); simpl; [|done].
  apply pool_get_bounds in Hget as [Hidx _].
  rewrite pool_set_in_bounds by done. simpl.
  intros [= <-]. simpl.
  rewrite pool_get_insert_eq by done.
  eexists. split; [done|]. simpl.
  rewrite take_app_le by (rewrite length_take; lia).
  rewrite take_take. f_equal. lia.
Qed.

(** C6.  On a well-formed state a call of [allocUniform] returns a
    handle [h]; after any further calls of the entry points that touch
    uniforms, a second call with the same name returns the same [h],
    whatever type and count it passes, and changes no slot.  Unless the
    pool was full, [h] is the slot registered for the name: it carries
    the declaration of the call that created it, the second call leaves
    that declaration as it is, and data written through [h] is read
    back through [h]. *)
Theorem allocUniform_same_name
    (name : string) (type1 type2 : UniformType.t) (count1 count2 : Z)
    (ops : list device_op) (d : Device) (fl : list Z) :
  uniforms_wf d fl →
  ∃ h d1,
    allocUniform name type1 count1 d = Ret h d1
    ∧ (g_uniforms_hash_map d1 !! crc32 name = Some h
       ∨ (h = INVALID_UNIFORM ∧ isFull (g_uniforms d1) = true))
    ∧ (g_uniforms_hash_map d !! crc32 name = None →
       isFull (g_uniforms d) = false →
       slot_decl d1 h = Some (type1, to_uint count1))
    ∧ ∀ d2, perform_all ops d1 = Ret () d2 →
        ∃ d3,
          allocUniform name type2 count2 d2 = Ret h d3
          ∧ g_uniforms d3 = g_uniforms d2
          ∧ (g_uniforms_hash_map d1 !! crc32 name = Some h →
             slot_decl d3 h = slot_decl d1 h)
          ∧ ∀ expected n value d4,
              set_uniform expected n h value d3 = Ret () d4 →
              ∃ u, pool_get (g_uniforms d4) h = Some u
                   ∧ take n (Uniform.data u) = take n value.
Proof.
  intros Hwf.
  assert (∀ h d1,
    (∃ fl1, uniforms_wf d1 fl1) →
    (g_uniforms_hash_map d1 !! crc32 name = Some h
     ∨ (h = INVALID_UNIFORM ∧ isFull (g_uniforms d1) = true
        ∧ g_uniforms_hash_map d1 !! crc32 name = None)) →
    ∀ d2, perform_all ops d1 = Ret () d2 →
      ∃ d3,
        allocUniform name type2 count2 d2 = Ret h d3
        ∧ g_uniforms d3 = g_uniforms d2
        ∧ (g_uniforms_hash_map d1 !! crc32 name = Some h →
           slot_decl d3 h = slot_decl d1 h)
        ∧ ∀ expected n value d4,
            set_uniform expected n h value d3 = Ret () d4 →
            ∃ u, pool_get (g_uniforms d4) h = Some u
                 ∧ take n (Uniform.data u) = take n value) as Hsecond.
  { intros h d1 Hwf1 Hcase d2 Hrun.
    pose proof (perform_all_keeps ops d1 Hwf1) as Hkeeps.
    rewrite Hrun in Hkeeps. simpl in Hkeeps.
    destruct Hkeeps as [Hwf2 Htable Hdecl Hfull].
    destruct Hcase as [Hreg|(-> & Hisfull & Hmiss)].
    - exists d2. rewrite (allocUniform_hit _ _ _ _ h) by (by apply Htable).
      split; [done|]. split; [done|]. split; [by intros _; eapply Hdecl|].
      intros expected n value d4. apply set_uniform_visible.
    - destruct (Hfull Hisfull) as [Hfull2 Hmap].
      rewrite allocUniform_full by (by rewrite ?Hmap).
      eexists. split; [done|]. split; [done|]. split; [congruence|].
      intros expected n value d4. apply set_uniform_visible. }
  destruct (g_uniforms_hash_map d !! crc32 name) as [v|] eqn:Hlook.
  { exists v, d. rewrite (allocUniform_hit _ _ _ _ v Hlook).
    split; [done|]. split; [by left|]. split; [done|].
    apply Hsecond; [by exists fl|by left]. }
  destruct (isFull (g_uniforms d)) eqn:Hisfull.
  { eexists _, _. rewrite allocUniform_full by done.
    split; [done|]. split; [by right|]. split; [done|].
    apply Hsecond; [|by right].
    exists fl. by apply (uniforms_wf_same d). }
  destruct (allocUniform_miss name type1 count1 d fl Hwf Hlook Hisfull)
    as (h & d1 & Hret & Hkeeps & Hreg & Hdecl).
  exists h, d1. split; [done|]. split; [by left|]. split; [done|].
  apply Hsecond; [apply Hkeeps|by left].
Qed.

End Uniforms.

(* ================================================================== *)
(** ** The entry points on the sample platform *)

Lemma loadTexture_rejects_bad_header_witness :
  DDS.dwMagic (DDS.header_of_bytes
                 (blob_read (Platform:=sample_platform) bad_magic_4x4 128).1)
  ≠ 0x20534444
  ∧ ∃ evs, loadTexture (H:=sample_platform) 0 bad_magic_4x4 0 true sample_device
           = Ret (false, None) (add_log evs sample_device)
           ∧ native_calls evs = [].
Proof.
  split; [by vm_compute|].
  apply (loadTexture_rejects_bad_header (H:=sample_platform)).
  left. by vm_compute.
Defined.

(** C5.  A header that describes 24-bit BGR pixels (RGB flag set, alpha
    flag clear, masks 0xff0000, 0xff00, 0xff) passes none of the tests:
    [isBGR8] asks for the alpha flag where [isBGR565] asks for the RGB
    flag.  [loadTexture] returns false on it before any native call. *)
Theorem loadTexture_rejects_bgr24 :
  let pf := DDS.pixelFormat (DDS.header_of_bytes bgr8_2x2) in
  has_bits (DDS.pf_dwFlags pf) DDS.DDPF_RGB = true
  ∧ has_bits (DDS.pf_dwFlags pf) DDS.DDPF_ALPHAPIXELS = false
  ∧ DDS.dwRGBBitCount pf = 24
  ∧ (DDS.dwRBitMask pf, DDS.dwGBitMask pf, DDS.dwBBitMask pf)
    = (0xff0000, 0xff00, 0xff)
  ∧ DDS.isBGR8 pf = false
  ∧ DDS.classify pf = None
  ∧ loadTexture (H:=sample_platform) 0 bgr8_2x2 0 true sample_device
    = Ret (false, None) (add_log [EvAssert true; EvBlobRead 128] sample_device).
Proof. by vm_compute. Qed.

(** A valid cubemap of 4x4 DXT1 faces in one level is accepted and makes
    six uploads, one for each face: a container of one 4x4 level does
    not always make exactly one upload. *)
Lemma single_level_cubemap_six_uploads :
  let hdr := DDS.header_of_bytes dxt1_cube_4x4 in
  ∃ info d',
    loadTexture (H:=sample_platform) 0 dxt1_cube_4x4 0 true sample_device
    = Ret (true, info) d'
    ∧ DDS.classify (DDS.pixelFormat hdr) = Some DDS.loadInfoDXT1
    ∧ (level_count hdr, DDS.dwWidth hdr, DDS.dwHeight hdr) = (1%nat, 4, 4)
    ∧ compressed_uploads (g_log d') = replicate 6 (0, 4, 4, 8)
    ∧ compressed_uploads (g_log d')
      ≠ [(0, 4, 4, (4 + 3) / 4 * ((4 + 3) / 4) * DDS.blockBytes DDS.loadInfoDXT1)].
Proof. eexists _, _. by vm_compute. Qed.

Lemma loadTexture_compressed_levels_witness :
  let hdr := DDS.header_of_bytes dxt1_4x4 in
  let levels :=
    block_levels DDS.loadInfoDXT1 (level_count hdr) 0
      (DDS.dwWidth hdr) (DDS.dwHeight hdr) in
  sample_dxt1_load
  = Ret (true, Some {| width := 4; height := 4; depth := 1; layers := 1;
                       mips := 1; is_cubemap := false |})
      (res_device sample_dxt1_load)
  ∧ ∃ evs,
      g_log (res_device sample_dxt1_load) = g_log sample_device ++ evs
      ∧ compressed_uploads evs = mjoin (replicate (face_count hdr) levels)
      ∧ blob_reads evs
        = 128 :: ((λ l, l.2) <$> mjoin (replicate (face_count hdr) levels))
      ∧ (face_count hdr = 1%nat → level_count hdr = 1%nat →
         DDS.dwWidth hdr = 4 → DDS.dwHeight hdr = 4 →
         compressed_uploads evs
         = [(0, 4, 4, (4 + 3) / 4 * ((4 + 3) / 4)
                      * DDS.blockBytes DDS.loadInfoDXT1)]).
Proof.
  split; [by vm_compute|].
  apply (loadTexture_compressed_levels (H:=sample_platform) 0 dxt1_4x4 0 true
           sample_device (res_device sample_dxt1_load)
           (Some {| width := 4; height := 4; depth := 1; layers := 1;
                    mips := 1; is_cubemap := false |})
           DDS.loadInfoDXT1).
  - by vm_compute.
  - by vm_compute.
  - reflexivity.
  - intros [Hli _]. by vm_compute in Hli.
Defined.

(** A 4x4 ATI1 image in one level, loaded with the sRGB flag: the
    native format is the [GL_ZERO] of the table, for which [sizeDXTC]
    counts 16 bytes a block.  The container that declares 16 bytes is
    accepted, and its one level is read and uploaded as 16 bytes, where
    the block size of ATI1 gives 8. *)
Lemma loadTexture_ati1_srgb_block_size :
  ∃ d', loadTexture (H:=sample_platform) 0 ati1_4x4
          (TextureFlags_SRGB (Platform:=sample_platform)) true sample_device
        = Ret (true, Some {| width := 4; height := 4; depth := 1; layers := 1;
                             mips := 1; is_cubemap := false |}) d'
        ∧ DDS.classify (DDS.pixelFormat (DDS.header_of_bytes ati1_4x4))
          = Some DDS.loadInfoATI1
        ∧ compressed_uploads (g_log d') = [(0, 4, 4, 16)]
        ∧ blob_reads (g_log d') = [128; 16]
        ∧ block_size DDS.loadInfoATI1 4 4 = 8.
Proof. eexists. by vm_compute. Qed.

(** The same container without the sRGB flag is refused, which is what
    its declared size deserves. *)
Lemma loadTexture_ati1_linear_size :
  ∃ d', loadTexture (H:=sample_platform) 0 ati1_4x4 0 true sample_device
        = Ret (false, None) d'
        ∧ compressed_uploads (g_log d') = [].
Proof. eexists. by vm_compute. Qed.

(** C4.  [useProgram] on a thread that does not own the device: the
    first and only event is the native [glUseProgram]; no assertion
    about the thread precedes it, where [viewport] asserts first. *)
Theorem useProgram_skips_thread_check :
  g_thread device_with_program ≠ GetCurrentThreadId (Platform:=sample_platform)
  ∧ useProgram (H:=sample_platform) 0 device_with_program
    = Ret () (add_log [EvGL (glUseProgram 5) RNone] device_with_program)
  ∧ viewport (H:=sample_platform) 0 0 1 1 device_with_program
    = Ret () (add_log [EvAssert false; EvGL (glViewport 0 0 1 1) RNone]
                device_with_program).
Proof. by vm_compute. Qed.

Lemma useProgram_invalid_noop_witness :
  ProgramHandle_isValid (Platform:=sample_platform) 0xffffffff = false
  ∧ useProgram (H:=sample_platform) 0xffffffff device_with_program
    = Ret () device_with_program.
Proof.
  split; [reflexivity|].
  apply (useProgram_invalid_noop (H:=sample_platform)). reflexivity.
Defined.

Lemma createProgram_compile_failure_witness :
  compile_failed sample_build_events = true
  ∧ sample_build = Ret (INVALID_PROGRAM (Platform:=sample_platform))
                     (add_log sample_build_events sample_device)
  ∧ Forall (λ c, is_link c = false) (native_calls sample_build_events)
  ∧ ∃ pre shd type status log_length info_log,
      sample_build_events
      = pre
        ++ [EvGL (glGetShaderiv shd GL_COMPILE_STATUS) status;
            EvGL (glGetShaderiv shd GL_INFO_LOG_LENGTH) log_length]
        ++ compile_report "sample" type shd log_length info_log
        ++ [EvGL (glDeleteShader shd) RNone]
      ∧ as_int status = GL_FALSE.
Proof.
  split; [reflexivity|].
  apply (createProgram_compile_failure (H:=sample_platform)
           ["void main() {"%string] [ShaderType.VERTEX] 1 [] 0 "sample"
           sample_device sample_build_events).
  - vm_compute. reflexivity.
  - vm_compute. reflexivity.
Defined.

Lemma allocUniform_same_name_witness :
  ∃ h d1,
    allocUniform (H:=sample_platform) "u_color" UniformType.VEC4 1 preinit
    = Ret h d1
    ∧ (g_uniforms_hash_map d1 !! crc32 (Platform:=sample_platform) "u_color" = Some h
       ∨ (h = INVALID_UNIFORM (Platform:=sample_platform)
          ∧ isFull (g_uniforms d1) = true))
    ∧ (g_uniforms_hash_map preinit !! crc32 (Platform:=sample_platform) "u_color" = None →
       isFull (g_uniforms preinit) = false →
       slot_decl d1 h = Some (UniformType.VEC4, to_uint 1))
    ∧ ∀ d2,
        perform_all (H:=sample_platform)
          [DoAllocUniform "u_mvp" UniformType.MAT4 1;
           DoSetUniform UniformType.VEC4 16 0 (replicate 16 Byte.x3f)] d1
        = Ret () d2 →
        ∃ d3,
          allocUniform (H:=sample_platform) "u_color" UniformType.FLOAT 3 d2
          = Ret h d3
          ∧ g_uniforms d3 = g_uniforms d2
          ∧ (g_uniforms_hash_map d1 !! crc32 (Platform:=sample_platform) "u_color" = Some h →
             slot_decl d3 h = slot_decl d1 h)
          ∧ ∀ expected n value d4,
              set_uniform (H:=sample_platform) expected n h value d3 = Ret () d4 →
              ∃ u, pool_get (g_uniforms d4) h = Some u
                   ∧ take n (Uniform.data u) = take n value.
Proof.
  apply (allocUniform_same_name (H:=sample_platform) "u_color"
           UniformType.VEC4 UniformType.FLOAT 1 3 _ preinit
           (seqZ 0 Uniform.MAX_COUNT)).
  apply preinit_wf.
Defined.

(* ================================================================== *)
(** ** Vertex declarations: a packed layout *)

Lemma spec_bytes_nonneg s : 0 <= spec_components s → 0 <= spec_bytes s.
Proof. unfold spec_bytes. destruct (spec_type s); simpl; lia. Qed.

Lemma specs_bytes_nonneg specs :
  Forall (λ s, 0 <= spec_components s) specs → 0 <= specs_bytes specs.
Proof.
  induction 1 as [|s specs Hs _ IH]; simpl; [done|].
  pose proof (spec_bytes_nonneg s Hs). lia.
Qed.

Lemma declare_packed capacity decl specs :
  capacity <= INT_MAX →
  Z.of_nat (length (VertexDecl.attributes decl)) + Z.of_nat (length specs)
    <= capacity →
  Forall (λ s, 0 <= spec_components s) specs →
  0 <= decl_end decl →
  decl_end decl + specs_bytes specs <= INT_MAX →
  VertexDecl.size decl = decl_end decl →
  declare capacity decl specs
  = ([], {| VertexDecl.attributes :=
              VertexDecl.attributes decl ++ layout (decl_end decl) specs;
            VertexDecl.size := decl_end decl + specs_bytes specs |}).
Proof.
  intros Hcap. revert decl.
  induction specs as [|s specs IH]; intros decl Hlen Hpos Hend Hsum Hsize.
  - simpl. rewrite app_nil_r, Z.add_0_r, <- Hsize. by destruct decl.
  - apply Forall_cons in Hpos as [Hs Hpos].
    pose proof (spec_bytes_nonneg s Hs) as Hb.
    pose proof (specs_bytes_nonneg specs Hpos) as Hbs.
    simpl in Hlen, Hsum.
    cbn [declare]. unfold VertexDecl.addAttribute, VertexDecl.attributes_count.
    rewrite to_int_small by lia.
    destruct (Z.leb_spec capacity
                (Z.of_nat (length (VertexDecl.attributes decl)))); [lia|].
    fold (decl_end decl).
    assert (to_uint (decl_end decl) = decl_end decl) as Hoff.
    { unfold decl_end in *. destruct (last (VertexDecl.attributes decl)).
      - apply to_uint_small. unfold INT_MAX in *. lia.
      - done. }
    assert (match last (VertexDecl.attributes decl) with
            | Some prev =>
                to_uint (Attribute.offset prev
                         + Attribute.components_num prev
                           * AttributeType.getSize (Attribute.type prev))
            | None => 0
            end = decl_end decl) as ->.
    { unfold decl_end in *. by destruct (last (VertexDecl.attributes decl)). }
    fold (spec_bytes s).
    rewrite (to_uint_small (decl_end decl + spec_bytes s))
      by (unfold INT_MAX in *; lia).
    set (decl1 := {| VertexDecl.attributes := _; VertexDecl.size := _ |}).
    assert (decl_end decl1 = decl_end decl + spec_bytes s) as Hend1.
    { unfold decl_end at 1. subst decl1. cbn [VertexDecl.attributes].
      by rewrite last_snoc. }
    rewrite (IH decl1).
    + subst decl1. cbn [VertexDecl.attributes VertexDecl.size app].
      rewrite Hend1, <- app_assoc. simpl. by rewrite Z.add_assoc.
    + subst decl1. cbn [VertexDecl.attributes]. rewrite length_app. simpl. lia.
    + done.
    + lia.
    + lia.
    + by rewrite Hend1.
Qed.

Lemma declare_from_empty capacity specs :
  Z.of_nat (length specs) <= capacity <= INT_MAX →
  Forall (λ s, 0 <= spec_components s) specs →
  specs_bytes specs <= INT_MAX →
  declare capacity VertexDecl.empty specs
  = ([], {| VertexDecl.attributes := layout 0 specs;
            VertexDecl.size := specs_bytes specs |}).
Proof.
  intros Hcap Hpos Hsum.
  rewrite declare_packed; simpl; try done; lia.
Qed.

(** X1.  A declaration filled from empty by [addAttribute], when the
    array has room for all of them: no assertion fails, the attributes
    lie one after the other without gap or overlap (each offset is the
    sum of the byte sizes before it), and [size] is the sum of all byte
    sizes. *)
Theorem declare_layout (capacity : Z) (specs : list attribute_spec) :
  Z.of_nat (length specs) <= capacity <= INT_MAX →
  Forall (λ s, 0 <= spec_components s) specs →
  specs_bytes specs <= INT_MAX →
  declare capacity VertexDecl.empty specs
  = ([], {| VertexDecl.attributes := layout 0 specs;
            VertexDecl.size := specs_bytes specs |}).
Proof.
  intros Hcap Hpos Hsum. by apply declare_from_empty.
Qed.

Lemma declare_at_capacity capacity decl specs :
  0 <= capacity →
  capacity <= Z.of_nat (length (VertexDecl.attributes decl)) <= INT_MAX →
  declare capacity decl specs = (replicate (length specs) (EvAssert false), decl).
Proof.
  intros Hcap Hfull. induction specs as [|s specs IH]; simpl; [done|].
  unfold VertexDecl.addAttribute, VertexDecl.attributes_count.
  rewrite to_int_small by lia.
  destruct (Z.leb_spec capacity
              (Z.of_nat (length (VertexDecl.attributes decl)))); [|lia].
  by rewrite IH.
Qed.

Lemma declare_app capacity decl specs1 specs2 :
  declare capacity decl (specs1 ++ specs2)
  = let '(evs1, decl1) := declare capacity decl specs1 in
    let '(evs2, decl2) := declare capacity decl1 specs2 in
    (evs1 ++ evs2, decl2).
Proof.
  revert decl. induction specs1 as [|s specs1 IH]; intros decl; simpl.
  - by destruct (declare capacity decl specs2).
  - destruct (VertexDecl.addAttribute _ _ _ _ _ _) as [evs0 decl0].
    rewrite IH. destruct (declare capacity decl0 specs1) as [evs1 decl1].
    destruct (declare capacity decl1 specs2) as [evs2 decl2].
    by rewrite app_assoc.
Qed.

(** X2.  When more attributes are added than the array holds, the ones
    beyond the capacity are dropped, each with a failed assertion: the
    declaration is that of the first [capacity] attributes. *)
Theorem declare_overflow (capacity : nat) (specs : list attribute_spec) :
  Z.of_nat capacity <= INT_MAX →
  (capacity ≤ length specs)%nat →
  Forall (λ s, 0 <= spec_components s) specs →
  specs_bytes (take capacity specs) <= INT_MAX →
  declare (Z.of_nat capacity) VertexDecl.empty specs
  = (replicate (length specs - capacity) (EvAssert false),
     {| VertexDecl.attributes := layout 0 (take capacity specs);
        VertexDecl.size := specs_bytes (take capacity specs) |}).
Proof.
  intros Hcap Hlen Hpos Hsum.
  rewrite <- (take_drop capacity specs) at 1.
  rewrite declare_app.
  rewrite declare_from_empty.
  - rewrite declare_at_capacity.
    + by rewrite length_drop.
    + lia.
    + cbn [VertexDecl.attributes].
      assert (length (layout 0 (take capacity specs)) = capacity) as ->; [|lia].
      clear Hsum Hpos. revert specs Hlen. generalize 0.
      induction capacity as [|n IH]; intros acc [|s specs] Hlen;
        simpl in *; try lia; try done.
      rewrite IH; [done|lia|lia].
  - rewrite length_take. lia.
  - by apply Forall_take.
  - done.
Qed.

Lemma declare_layout_witness :
  declare 16 VertexDecl.empty
    [{| spec_components := 3; spec_type := AttributeType.FLOAT;
        spec_normalized := false; spec_as_int := false |};
     {| spec_components := 4; spec_type := AttributeType.U8;
        spec_normalized := true; spec_as_int := false |};
     {| spec_components := 2; spec_type := AttributeType.I16;
        spec_normalized := false; spec_as_int := true |}]
  = ([], {| VertexDecl.attributes :=
              layout 0
                [{| spec_components := 3; spec_type := AttributeType.FLOAT;
                    spec_normalized := false; spec_as_int := false |};
                 {| spec_components := 4; spec_type := AttributeType.U8;
                    spec_normalized := true; spec_as_int := false |};
                 {| spec_components := 2; spec_type := AttributeType.I16;
                    spec_normalized := false; spec_as_int := true |}];
            VertexDecl.size := 12 + 4 + 4 |}).
Proof.
  apply (declare_layout 16).
  - unfold INT_MAX. simpl. lia.
  - repeat constructor; simpl; lia.
  - by vm_compute.
Defined.

Lemma declare_overflow_witness :
  declare (Z.of_nat 1) VertexDecl.empty
    [{| spec_components := 3; spec_type := AttributeType.FLOAT;
        spec_normalized := false; spec_as_int := false |};
     {| spec_components := 4; spec_type := AttributeType.U8;
        spec_normalized := true; spec_as_int := false |}]
  = ([EvAssert false],
     {| VertexDecl.attributes :=
          layout 0 [{| spec_components := 3; spec_type := AttributeType.FLOAT;
                       spec_normalized := false; spec_as_int := false |}];
        VertexDecl.size := 12 |}).
Proof.
  apply (declare_overflow 1).
  - by vm_compute.
  - simpl. lia.
  - repeat constructor; simpl; lia.
  - by vm_compute.
Defined.

(* ================================================================== *)
(** ** Handle pool: conservation of slots, and what misuse does *)

Section PoolExtra.
Context {T : Type}.

(** X3.  In every state that a well-behaved client reaches from a fresh
    pool of capacity [N], the free list and the live handles together
    are exactly the slots 0 .. N-1, each once: [N] allocations in a row
    return the free slots, then -1 as many times as handles are live. *)
Theorem pool_slots_conserved (N : Z) (ops : list (pool_op T)) (c : client T) :
  0 < N <= INT_MAX →
  run ops (fresh N) = Ok c →
  ∃ free p',
    alloc_n (Z.to_nat N) (c_pool c)
    = Some (free ++ replicate (length (c_live c)) (-1), p')
    ∧ free ++ c_live c ≡ₚ seqZ 0 N.
Proof.
  intros HN Hrun.
  destruct (run_inv N ops (fresh N) (seqZ 0 N) HN) as [Hm|(c' & fl & Hrun' & Hinv)].
  { apply fresh_inv. lia. }
  { congruence. }
  rewrite Hrun in Hrun'. injection Hrun' as <-.
  pose proof (inv_count N _ _ ltac:(lia) Hinv) as Hcount.
  destruct c as [[vs ff] live]. destruct Hinv as [_ Hchain Hperm]; simpl in *.
  exists fl, (mkPool vs (-1)). split; [|done].
  rewrite (alloc_n_exhaust vs ff fl) by (done || lia).
  by replace (Z.to_nat N - length fl)%nat with (length live) by lia.
Qed.

(** X4.  Returning the same index twice ties the free list into a loop
    on that slot: from then on every [alloc] returns that index, and
    the pool never reports full. *)
Theorem double_dealloc_cycles (p : Pool T) (i : Z) (n : nat) :
  0 <= i < Z.of_nat (length (values p)) →
  Z.of_nat (length (values p)) <= INT_MAX →
  ∃ p1 p2,
    dealloc p i = Some p1
    ∧ dealloc p1 i = Some p2
    ∧ isFull p2 = false
    ∧ alloc_n n p2 = Some (replicate n i, p2).
Proof.
  intros Hi Hsize. destruct p as [vs ff]; simpl in *.
  set (vs1 := <[Z.to_nat i := Link ff]> vs).
  set (vs2 := <[Z.to_nat i := Link i]> vs1).
  assert (length vs1 = length vs) as Hlen1 by apply length_insert.
  assert (length vs2 = length vs) as Hlen2
    by (unfold vs2; by rewrite length_insert).
  exists (mkPool vs1 i), (mkPool vs2 i).
  split; [|split; [|split]].
  - unfold dealloc, store_int; simpl.
    destruct (Z.leb_spec 0 i); [|lia].
    destruct (Z.ltb_spec i (Z.of_nat (length vs))); [|lia]. simpl.
    by rewrite to_int_small by lia.
  - unfold dealloc, store_int; simpl.
    destruct (Z.leb_spec 0 i); [|lia].
    destruct (Z.ltb_spec i (Z.of_nat (length vs1))); [|lia]. simpl.
    by rewrite to_int_small by lia.
  - unfold isFull; simpl. apply Z.eqb_neq. lia.
  - induction n as [|n IH]; simpl; [done|].
    unfold alloc at 1, load_int; simpl.
    destruct (Z.eqb_spec i (-1)); [lia|].
    destruct (Z.ltb_spec i 0); [lia|].
    unfold vs2 at 1. rewrite list_lookup_insert_eq by lia.
    by rewrite IH.
Qed.

End PoolExtra.

Lemma pool_slots_conserved_witness :
  ∃ free p',
    alloc_n (Z.to_nat 3)
      (mkPool (values (create (T:=unit) 3)) 2)
    = Some (free ++ replicate (length [1; 0]) (-1), p')
    ∧ free ++ [1; 0] ≡ₚ seqZ 0 3.
Proof.
  apply (pool_slots_conserved 3 [OpAlloc; OpAlloc]
           (mkClient (mkPool (values (create 3)) 2) [1; 0])).
  - unfold INT_MAX. lia.
  - reflexivity.
Defined.

Lemma double_dealloc_cycles_witness :
  ∃ p1 p2,
    dealloc (mkPool (values (create (T:=unit) 3)) 1) 0 = Some p1
    ∧ dealloc p1 0 = Some p2
    ∧ isFull p2 = false
    ∧ alloc_n 5 p2 = Some (replicate 5 0, p2).
Proof.
  apply (double_dealloc_cycles (mkPool (values (create 3)) 1) 0 5).
  - simpl. lia.
  - by vm_compute.
Defined.

(* ================================================================== *)
(** ** Textures: what a load leaves behind *)

Global Instance logs_only_preorder (P : event → Prop) : PreOrder (logs_only P).
Proof.
  split.
  - intros d. exists []. by rewrite add_log_nil.
  - intros d1 d2 d3 (evs1 & -> & HP1) (evs2 & -> & HP2).
    exists (evs1 ++ evs2). rewrite add_log_add_log.
    split; [done|]. by apply Forall_app.
Qed.

(** Closes a goal [Forall P evs] over a list of events that is spelled
    out but for parts covered by hypotheses. *)
Ltac solve_events :=
  repeat first
    [ assumption | exact I | apply Forall_nil_2
    | apply Forall_cons_2 | apply Forall_app_2 ].

Section TextureExtra.
Context `{Platform}.
Import DDS.

Lemma mips_cut (w : Z) : maximum 1 (Z.shiftr w 1) = Z.max 1 (w / 2).
Proof. unfold maximum. by rewrite Z.shiftr_div_pow2 by lia. Qed.

(** The three mip loops return, and change nothing but the log; none
    of them generates a texture. *)
Lemma compressed_mips_logs n t1 t2 fmt ix w h size blob d :
  ∃ blob' evs,
    compressed_mips n t1 t2 fmt ix w h size blob d = Ret blob' (add_log evs d)
    ∧ Forall not_gen_textures evs.
Proof.
  revert ix w h size blob d.
  induction n as [|n IH]; intros ix w h size blob d; simpl.
  - exists blob, []. by rewrite add_log_nil.
  - unfold read_blob, gl_, emit, modify, bind, ret.
    destruct (blob_read blob size) as [data blob1].
    edestruct IH as (blob' & evs & -> & Hng).
    rewrite !add_log_add_log. eexists _, _. split; [reflexivity|].
    solve_events.
Qed.

Lemma palette_mips_logs n li pal t1 fmt ix w h size blob d :
  ∃ blob' evs,
    palette_mips n li pal t1 fmt ix w h size blob d = Ret blob' (add_log evs d)
    ∧ Forall not_gen_textures evs.
Proof.
  revert ix w h size blob d.
  induction n as [|n IH]; intros ix w h size blob d; simpl.
  - exists blob, []. by rewrite add_log_nil.
  - unfold read_blob, gl_, emit, modify, bind, ret.
    destruct (blob_read blob size) as [data blob1].
    edestruct IH as (blob' & evs & -> & Hng).
    rewrite !add_log_add_log. eexists _, _. split; [reflexivity|].
    solve_events.
Qed.

Lemma plain_mips_logs n li t1 fmt ix w h blob d :
  ∃ blob' evs,
    plain_mips n li t1 fmt ix w h (to_uint (w * h * blockBytes li)) blob d
    = Ret blob' (add_log evs d)
    ∧ Forall not_gen_textures evs
    ∧ blob_reads evs = plain_levels li n w h
    ∧ compressed_uploads evs = [].
Proof.
  revert ix w h blob d.
  induction n as [|n IH]; intros ix w h blob d; simpl.
  - exists blob, []. by rewrite add_log_nil.
  - unfold read_blob, gl_, emit, modify, bind, ret.
    destruct (blob_read blob _) as [data blob1].
    rewrite !mips_cut.
    edestruct IH as (blob' & evs & -> & Hng & Hrd & Hup).
    rewrite !add_log_add_log. eexists _, _. split; [reflexivity|].
    split; [solve_events|].
    rewrite !blob_reads_app, !compressed_uploads_app, Hrd, Hup. done.
Qed.

Lemma load_side_outcome hdr li texture fmt mips (cube : bool) side blob d :
  side_outcome texture d (λ o : option Blob, bool_decide (o = None))
    (load_side hdr li texture fmt mips cube side blob d).
Proof.
  unfold load_side, side_outcome.
  unfold gl_, emit, modify, bind, ret.
  destruct (compressed li).
  { destruct (negb _ || _).
    - rewrite !add_log_add_log. simpl.
      exists [EvGL (glBindTexture (if cube then GL_TEXTURE_CUBE_MAP
                                   else GL_TEXTURE_2D) texture) RNone].
      split; [reflexivity|]. solve_events.
    - match goal with
      | |- context [compressed_mips ?n ?t1 ?t2 ?f ?ix ?w ?h ?s ?b ?d0] =>
          destruct (compressed_mips_logs n t1 t2 f ix w h s b d0)
            as (blob' & evs & -> & Hng)
      end.
      rewrite !add_log_add_log. simpl.
      eexists. split; [reflexivity|]. solve_events. }
  destruct (palette li).
  { destruct (_ || _).
    { rewrite !add_log_add_log. simpl.
      exists [EvGL (glBindTexture (if cube then GL_TEXTURE_CUBE_MAP
                                   else GL_TEXTURE_2D) texture) RNone].
      split; [reflexivity|]. solve_events. }
    destruct (negb _).
    { rewrite !add_log_add_log. simpl.
      exists [EvGL (glBindTexture (if cube then GL_TEXTURE_CUBE_MAP
                                   else GL_TEXTURE_2D) texture) RNone].
      split; [reflexivity|]. solve_events. }
    unfold read_blob, emit, modify, bind, ret.
    destruct (blob_read blob (4 * 256)) as [pal blob1].
    match goal with
    | |- context [palette_mips ?n ?l ?p ?t1 ?f ?ix ?w ?h ?s ?b ?d0] =>
        destruct (palette_mips_logs n l p t1 f ix w h s b d0)
          as (blob' & evs & -> & Hng)
    end.
    rewrite !add_log_add_log. simpl.
    eexists. split; [reflexivity|]. solve_events. }
  assert (∃ evs0, ((if swap li
                    then gl_ (glPixelStorei GL_UNPACK_SWAP_BYTES GL_TRUE)
                    else ret ())
                   (add_log [EvGL (glBindTexture
                                     (if cube then GL_TEXTURE_CUBE_MAP
                                      else GL_TEXTURE_2D) texture) RNone] d))
                  = Ret () (add_log evs0 d)
                  ∧ Forall not_gen_textures evs0) as (evs0 & Hswap & Hng0).
  { destruct (swap li); unfold gl_, emit, modify, ret.
    - rewrite add_log_add_log. eexists. split; [reflexivity|].
      solve_events.
    - eexists. split; [reflexivity|]. solve_events. }
  unfold gl_, emit, modify, ret in Hswap. rewrite Hswap.
  match goal with
  | |- context [plain_mips ?n ?l ?t1 ?f ?ix ?w ?h _ ?b ?d0] =>
      destruct (plain_mips_logs n l t1 f ix w h b d0)
        as (blob' & evs & -> & Hng & _)
  end.
  rewrite !add_log_add_log. simpl.
  eexists. split; [reflexivity|]. solve_events.
Qed.

Lemma load_sides_outcome hdr li texture fmt mips (cube : bool) sides blob d :
  side_outcome texture d negb
    (load_sides hdr li texture fmt mips cube sides blob d).
Proof.
  revert blob d. induction sides as [|side sides IH]; intros blob d; simpl.
  - exists []. by rewrite add_log_nil.
  - unfold bind.
    pose proof (load_side_outcome hdr li texture fmt mips cube side blob d)
      as Hside.
    destruct (load_side _ _ _ _ _ _ _ _ _) as [[blob1|] d1|d1]; simpl in *;
      [| |done].
    + destruct Hside as (evs1 & -> & Hng1).
      specialize (IH blob1 (add_log evs1 d)).
      destruct (load_sides _ _ _ _ _ _ _ _ _) as [[] d2|d2]; simpl in *;
        [| |done].
      * destruct IH as (evs2 & -> & Hng2). exists (evs1 ++ evs2).
        rewrite add_log_add_log. split; [done|]. by apply Forall_app.
      * destruct IH as (mid & -> & Hng2). exists (evs1 ++ mid).
        rewrite add_log_add_log, app_assoc. split; [done|].
        by apply Forall_app.
    + done.
Qed.

(** What a successful load has done: the texture of the generated name
    is in the slot, and nothing else of the state changed but the log. *)
Lemma loadTexture_success handle blob flags (want_info : bool) d info d' :
  loadTexture handle blob flags want_info d = Ret (true, info) d' →
  let hdr := header_of_bytes (blob_read blob 128).1 in
  ∃ evs ts,
    d' = with_textures (λ _, ts) (add_log evs d)
    ∧ generated_texture d ≠ 0
    ∧ pool_set (g_textures d) handle
        {| Texture.handle := generated_texture d;
           Texture.cubemap :=
             negb (Z.land (dwCaps2 (caps2 hdr)) DDSCAPS2_CUBEMAP =? 0) |}
      = Some ts
    ∧ info = (if want_info then Some (getTextureInfo (blob_read blob 128).1)
              else None).
Proof.
  unfold loadTexture, checkThread, read_blob, ASSERT, log_error, gl, emit,
    modify, get_device, bind, ret, generated_texture.
  destruct (blob_read blob 128) as [bytes blob1]; cbn [fst].
  set (hdr := header_of_bytes bytes).
  destruct (negb _ || _ || _ || _); [done|].
  destruct (classify (pixelFormat hdr)) as [li|]; [|done].
  rewrite !add_log_add_log. cbn [app].
  change (g_log (add_log ?e d)) with (g_log d ++ e).
  destruct (Z.eqb_spec (as_int (gl_driver
              (g_log d ++ [EvAssert (g_thread d =? GetCurrentThreadId);
                           EvBlobRead 128]) (glGenTextures 1))) 0)
    as [|Hname]; [done|].
  rewrite ?add_log_add_log.
  match goal with
  | |- context [load_sides hdr li ?t ?f ?m ?c ?s ?b ?d0] =>
      pose proof (load_sides_outcome hdr li t f m c s b d0) as Hs;
      destruct (load_sides hdr li t f m c s b d0) as [[] d1|d1];
      simpl in Hs; [|done..]
  end.
  destruct Hs as (evs & -> & _). rewrite add_log_add_log.
  cbn [negb]. unfold defined.
  change (g_textures (add_log ?e d)) with (g_textures d).
  destruct (pool_set (g_textures d) handle _) as [ts|] eqn:Hset; [|done].
  unfold ret. intros [= <- <-].
  eexists _, ts. split; [reflexivity|]. split; [done|]. split; [done|].
  unfold getTextureInfo. by destruct want_info.
Qed.

(** X5.  The information that a successful [loadTexture] writes through
    [info] is what [getTextureInfo] reads from the same header. *)
Theorem loadTexture_info_agrees
    (handle : Z) (blob : Blob) (flags : Z) (d d' : Device) (info : TextureInfo) :
  loadTexture handle blob flags true d = Ret (true, Some info) d' →
  info = getTextureInfo (blob_read blob 128).1.
Proof.
  intros Hload.
  destruct (loadTexture_success _ _ _ _ _ _ _ Hload) as (_ & _ & _ & _ & _ & Hinfo).
  by injection Hinfo.
Qed.

Lemma generated_names_app evs1 evs2 :
  generated_names (evs1 ++ evs2) = generated_names evs1 ++ generated_names evs2.
Proof. apply omap_app. Qed.

Lemma deleted_names_app evs1 evs2 :
  deleted_names (evs1 ++ evs2) = deleted_names evs1 ++ deleted_names evs2.
Proof. apply omap_app. Qed.

Lemma generated_names_none evs :
  Forall not_gen_textures evs → generated_names evs = [].
Proof.
  induction 1 as [|e evs He _ IH]; [done|].
  unfold generated_names in *. cbn [omap list_omap]. rewrite IH.
  destruct e as [| [] | |]; try done.
Qed.

(** X6.  A [loadTexture] that returns false leaves no texture behind:
    the state is the one before but for the log, and every name that
    [glGenTextures] handed out in the call was given to
    [glDeleteTextures] in it. *)
Theorem loadTexture_failure_releases
    (handle : Z) (blob : Blob) (flags : Z) (want_info : bool)
    (d d' : Device) (info : option TextureInfo) :
  loadTexture handle blob flags want_info d = Ret (false, info) d' →
  ∃ evs, d' = add_log evs d
         ∧ generated_names evs ⊆ deleted_names evs.
Proof.
  unfold loadTexture, checkThread, read_blob, ASSERT, log_error, gl, emit,
    modify, get_device, bind, ret.
  destruct (blob_read blob 128) as [bytes blob1].
  set (hdr := header_of_bytes bytes). clearbody hdr.
  destruct (negb _ || _ || _ || _).
  { rewrite !add_log_add_log. intros [= _ <-].
    eexists. split; [reflexivity|]. done. }
  destruct (classify (pixelFormat hdr)) as [li|].
  2:{ rewrite !add_log_add_log. intros [= _ <-].
      eexists. split; [reflexivity|]. done. }
  rewrite !add_log_add_log. cbn [app].
  change (g_log (add_log ?e d)) with (g_log d ++ e).
  set (r := gl_driver _ (glGenTextures 1)).
  destruct (Z.eqb_spec (as_int r) 0) as [Hzero|Hname].
  { intros [= _ <-]. eexists. split; [reflexivity|].
    unfold generated_names. cbn [omap list_omap].
    destruct (Z.eqb_spec (as_int r) 0); done. }
  rewrite ?add_log_add_log.
  match goal with
  | |- context [load_sides hdr li ?t ?f ?m ?c ?s ?b ?d0] =>
      pose proof (load_sides_outcome hdr li t f m c s b d0) as Hs;
      destruct (load_sides hdr li t f m c s b d0) as [[] d1|d1];
      simpl in Hs; [| |done]
  end.
  { cbn [negb]. unfold defined.
    destruct (pool_set _ _ _); [|done]. by intros [=]. }
  destruct Hs as (mid & -> & Hng). rewrite add_log_add_log.
  cbn [negb]. intros [= _ <-].
  eexists. split; [reflexivity|].
  match goal with
  | |- generated_names (?a :: ?b :: ?g :: ?l) ⊆ _ =>
      change (generated_names ([a; b; g] ++ l) ⊆ deleted_names ([a; b; g] ++ l))
  end.
  rewrite !generated_names_app, !deleted_names_app.
  rewrite (generated_names_none mid) by done.
  unfold generated_names, deleted_names at 1 3. cbn [omap list_omap app].
  destruct (Z.eqb_spec (as_int r) 0); [done|].
  intros x ->%list_elem_of_singleton.
  rewrite elem_of_app. right. by apply list_elem_of_singleton.
Qed.


Lemma palette_mips_reads n li pal t1 fmt ix w h blob d :
  ∃ blob' evs,
    palette_mips n li pal t1 fmt ix w h (to_uint (w * h * blockBytes li)) blob d
    = Ret blob' (add_log evs d)
    ∧ blob_reads evs = plain_levels li n w h
    ∧ compressed_uploads evs = [].
Proof.
  revert ix w h blob d.
  induction n as [|n IH]; intros ix w h blob d; simpl.
  - exists blob, []. by rewrite add_log_nil.
  - unfold read_blob, gl_, emit, modify, bind, ret.
    destruct (blob_read blob _) as [data blob1].
    rewrite !mips_cut.
    edestruct IH as (blob' & evs & -> & Hrd & Hup).
    rewrite !add_log_add_log. eexists _, _. split; [reflexivity|].
    rewrite !blob_reads_app, !compressed_uploads_app, Hrd, Hup. done.
Qed.

Lemma load_side_uncompressed hdr li texture fmt mips (cube : bool) side blob d :
  compressed li = false →
  match load_side hdr li texture fmt mips cube side blob d with
  | Ret (Some _) d' =>
      ∃ evs, d' = add_log evs d
             ∧ compressed_uploads evs = []
             ∧ blob_reads evs
               = plain_reads li (Z.to_nat mips) (dwWidth hdr) (dwHeight hdr)
  | _ => True
  end.
Proof.
  intros Hcomp. unfold load_side, plain_reads. rewrite Hcomp.
  unfold gl_, emit, modify, bind, ret.
  destruct (palette li).
  { destruct (_ || _); [done|].
    destruct (negb _) eqn:Hsize; [done|].
    apply negb_false_iff, Z.eqb_eq in Hsize. rewrite Hsize.
    unfold read_blob, emit, modify, bind, ret.
    destruct (blob_read blob (4 * 256)) as [pal blob1].
    match goal with
    | |- context [palette_mips ?n ?l ?p ?t1 ?f ?ix ?w ?h _ ?b ?d0] =>
        destruct (palette_mips_reads n l p t1 f ix w h b d0)
          as (blob' & evs & -> & Hrd & Hup)
    end.
    rewrite !add_log_add_log. eexists. split; [reflexivity|].
    rewrite !compressed_uploads_app, !blob_reads_app, Hup, Hrd.
    split; [reflexivity|].
    unfold blob_reads. cbn [omap list_omap app]. by rewrite app_nil_r. }
  assert (∃ evs0, ((if swap li
                    then gl_ (glPixelStorei GL_UNPACK_SWAP_BYTES GL_TRUE)
                    else ret ())
                   (add_log [EvGL (glBindTexture
                                     (if cube then GL_TEXTURE_CUBE_MAP
                                      else GL_TEXTURE_2D) texture) RNone] d))
                  = Ret () (add_log evs0 d)
                  ∧ compressed_uploads evs0 = [] ∧ blob_reads evs0 = [])
    as (evs0 & Hswap & Hup0 & Hrd0).
  { destruct (swap li); unfold gl_, emit, modify, ret.
    - rewrite add_log_add_log. eexists. split; [reflexivity|]. done.
    - eexists. split; [reflexivity|]. done. }
  unfold gl_, emit, modify, ret in Hswap. rewrite Hswap.
  match goal with
  | |- context [plain_mips ?n ?l ?t1 ?f ?ix ?w ?h _ ?b ?d0] =>
      destruct (plain_mips_logs n l t1 f ix w h b d0)
        as (blob' & evs & -> & _ & Hrd & Hup)
  end.
  rewrite !add_log_add_log. eexists. split; [reflexivity|].
  rewrite !compressed_uploads_app, !blob_reads_app, Hup, Hrd, Hup0, Hrd0.
  split; [reflexivity|].
  unfold blob_reads. cbn [omap list_omap app]. by rewrite app_nil_r.
Qed.

Lemma load_sides_uncompressed hdr li texture fmt mips (cube : bool) sides blob d :
  compressed li = false →
  match load_sides hdr li texture fmt mips cube sides blob d with
  | Ret true d' =>
      ∃ evs, d' = add_log evs d
             ∧ compressed_uploads evs = []
             ∧ blob_reads evs
               = mjoin (replicate (length sides)
                   (plain_reads li (Z.to_nat mips) (dwWidth hdr) (dwHeight hdr)))
  | _ => True
  end.
Proof.
  intros Hcomp. revert blob d.
  induction sides as [|side sides IH]; intros blob d; simpl.
  - exists []. by rewrite add_log_nil.
  - unfold bind.
    pose proof (load_side_uncompressed hdr li texture fmt mips cube side blob d
                  Hcomp) as Hside.
    destruct (load_side _ _ _ _ _ _ _ _ _) as [[blob1|] d1|d1]; [|done..].
    destruct Hside as (evs1 & -> & Hup1 & Hrd1).
    specialize (IH blob1 (add_log evs1 d)).
    destruct (load_sides _ _ _ _ _ _ _ _ _) as [[] d2|d2]; [|done..].
    destruct IH as (evs2 & -> & Hup2 & Hrd2).
    exists (evs1 ++ evs2). rewrite add_log_add_log. split; [done|].
    by rewrite compressed_uploads_app, blob_reads_app, Hup1, Hrd1, Hup2, Hrd2.
Qed.

(** X8.  For every uncompressed container that [loadTexture] accepts:
    after the header each face (six of a cubemap, one otherwise) reads
    the palette of 1024 bytes if the format has one, then each level
    with [width * height * blockBytes] bytes computed in [uint], the
    next level having both dimensions halved, rounded down and not
    below 1; no compressed upload is made. *)
Theorem loadTexture_plain_levels
    (handle : Z) (blob : Blob) (flags : Z) (want_info : bool)
    (d d' : Device) (info : option TextureInfo) (li : LoadInfo) :
  let hdr := header_of_bytes (blob_read blob 128).1 in
  loadTexture handle blob flags want_info d = Ret (true, info) d' →
  classify (pixelFormat hdr) = Some li →
  compressed li = false →
  ∃ evs,
    g_log d' = g_log d ++ evs
    ∧ compressed_uploads evs = []
    ∧ blob_reads evs
      = 128 :: mjoin (replicate (face_count hdr)
                 (plain_reads li (level_count hdr) (dwWidth hdr) (dwHeight hdr))).
Proof.
  intros hdr Hload Hclass Hcomp. revert Hload.
  unfold loadTexture, checkThread, read_blob, ASSERT, log_error, gl, emit,
    modify, get_device, bind, ret.
  subst hdr.
  destruct (blob_read blob 128) as [bytes blob1]; cbn [fst] in *.
  set (hdr := header_of_bytes bytes) in *. clearbody hdr.
  destruct (negb _ || _ || _ || _); [done|].
  rewrite Hclass.
  destruct (as_int _ =? 0); [done|].
  rewrite !add_log_add_log.
  match goal with
  | |- context [load_sides hdr li ?t ?f ?m ?c ?s ?b ?d0] =>
      pose proof (load_sides_uncompressed hdr li t f m c s b d0 Hcomp) as Hs;
      destruct (load_sides hdr li t f m c s b d0) as [[] d1|d1];
      simpl; [|done..]
  end.
  destruct Hs as (evs & -> & Hup & Hrd).
  rewrite add_log_add_log.
  unfold defined. destruct (pool_set _ _ _) as [ts|]; [|done].
  intros [= _ <-].
  eexists. split; [reflexivity|].
  change (compressed_uploads (_ :: _ :: _ :: evs))
    with (compressed_uploads evs).
  change (blob_reads (_ :: _ :: _ :: evs)) with (128 :: blob_reads evs).
  rewrite Hup, Hrd, length_seqZ.
  replace (Z.to_nat (if negb (Z.land (dwCaps2 (caps2 hdr)) DDSCAPS2_CUBEMAP =? 0)
                     then 6 else 1)) with (face_count hdr)
    by (unfold face_count; by destruct (_ =? 0)).
  done.
Qed.

(** X19.  After a successful [loadTexture] into a slot, [bindTexture]
    of a valid handle to the slot binds the texture that the load
    generated, as a cube map exactly when [getTextureInfo] says that
    the file is one. *)
Theorem loadTexture_then_bindTexture
    (handle : Z) (blob : Blob) (flags : Z) (want_info : bool)
    (d d' : Device) (info : option TextureInfo) (tex_unit : Z) :
  TextureHandle_isValid handle = true →
  loadTexture handle blob flags want_info d = Ret (true, info) d' →
  bindTexture tex_unit handle d'
  = Ret ()
      (add_log
         [EvGL (glActiveTexture (to_uint (GL_TEXTURE0 + tex_unit))) RNone;
          EvGL (glBindTexture
                  (if is_cubemap (getTextureInfo (blob_read blob 128).1)
                   then GL_TEXTURE_CUBE_MAP else GL_TEXTURE_2D)
                  (generated_texture d)) RNone] d').
Proof.
  intros Hvalid Hload.
  destruct (loadTexture_success _ _ _ _ _ _ _ Hload)
    as (evs & ts & -> & _ & Hset & _).
  unfold pool_set in Hset.
  destruct (Z.leb_spec 0 handle); [|done].
  destruct (Z.ltb_spec handle (Z.of_nat (length (values (g_textures d)))));
    [|done].
  injection Hset as <-.
  unfold bindTexture. rewrite Hvalid.
  unfold gl_, emit, modify, get_device, defined, bind, ret.
  unfold pool_get, add_log, with_log, with_textures.
  cbn [g_textures values first_free].
  destruct (Z.ltb_spec handle 0); [lia|].
  rewrite list_lookup_insert_eq by lia.
  cbn [Texture.handle Texture.cubemap g_buffers g_textures g_uniforms
       g_programs g_uniforms_hash_map g_thread g_log].
  unfold getTextureInfo. cbn [is_cubemap].
  by rewrite <- !app_assoc.
Qed.

End TextureExtra.

(* ================================================================== *)
(** ** [createProgram]: the ways out *)

Section ProgramExtra.
Context `{Platform}.

Lemma link_failed_app evs1 evs2 :
  link_failed (evs1 ++ evs2) = link_failed evs1 || link_failed evs2.
Proof. unfold link_failed. apply existsb_app. Qed.

Lemma no_link_failure_link_failed evs :
  Forall no_link_failure evs → link_failed evs = false.
Proof.
  unfold link_failed. induction 1 as [|e evs He _ IH]; simpl; [done|].
  by rewrite He, IH.
Qed.

Lemma not_program_call_no_delete e : not_program_call e → not_delete_program e.
Proof. by destruct e as [| [] | |]. Qed.

Lemma not_program_call_no_link_failure e : not_program_call e → no_link_failure e.
Proof. by destruct e as [| [] | |]. Qed.

(** The stage loop neither deletes nor queries a program. *)
Lemma compile_stages_no_program_call n prg srcs types prefixes prefixes_count name i :
  respects (extends not_program_call)
    (compile_stages n prg srcs types prefixes prefixes_count name i).
Proof.
  revert i. induction n as [|n IH]; intros i; simpl.
  - apply respects_ret, _.
  - apply respects_bind; [apply _| |intros []; [apply respects_ret, _|apply IH]].
    unfold compile_stage, arg_at, combine_srcs, log_error.
    respects_with ltac:(first
      [ by apply extends_emit | by apply extends_gl_ | by apply extends_gl ]).
Qed.

Lemma reflect_uniforms_no_link_failure n prg id i :
  respects (extends no_link_failure) (reflect_uniforms n prg id i).
Proof.
  revert i. induction n as [|n IH]; intros i; simpl.
  - apply respects_ret, _.
  - apply respects_bind; [apply _| |intros _; apply IH].
    unfold reflect_uniform, uniform_type_of, ASSERT.
    respects_with ltac:(first
      [ by apply extends_emit | by apply extends_modify
      | by apply extends_gl | by apply allocUniform_extends ]).
Qed.

Lemma bind_step {A B} (m : M A) (k : A → M B) d a d1 :
  m d = Ret a d1 → bind m k d = k a d1.
Proof. unfold bind. by intros ->. Qed.

(** What the code after the stage loop does when the link status comes
    back as [GL_FALSE], and that no other path has such a reply. *)
Lemma link_and_reflect_outcome prg name d :
  (∃ mid, link_and_reflect prg name d
          = Ret INVALID_PROGRAM
              (add_log (mid ++ [EvGL (glDeleteProgram prg) RNone]) d))
  ∨ extends no_link_failure d (res_device (link_and_reflect prg name d)).
Proof.
  unfold link_and_reflect.
  set (d1 := add_log [EvGL (glLinkProgram prg) RNone] d).
  set (status := gl_driver (g_log d1) (glGetProgramiv prg GL_LINK_STATUS)).
  set (d2 := add_log [EvGL (glGetProgramiv prg GL_LINK_STATUS) status] d1).
  rewrite (bind_step _ _ d () d1) by reflexivity.
  rewrite (bind_step _ _ d1 status d2) by reflexivity.
  destruct (as_int status =? GL_FALSE) eqn:Hstatus.
  - left. unfold gl, gl_, log_error, emit, modify, bind, ret.
    destruct (0 <? _); rewrite ?add_log_add_log;
      unfold d2, d1; rewrite ?add_log_add_log; eexists;
      rewrite ?app_assoc; reflexivity.
  - right.
    assert (extends no_link_failure d d2) as Hpre.
    { exists [EvGL (glLinkProgram prg) RNone;
              EvGL (glGetProgramiv prg GL_LINK_STATUS) status].
      split; [by unfold d2, d1; rewrite add_log_add_log|].
      repeat constructor.
      unfold no_link_failure, is_link_failure. by rewrite Hstatus, andb_false_r. }
    etrans; [exact Hpre|].
    match goal with
    | |- extends _ d2 (res_device (?m d2)) =>
        assert (respects (extends no_link_failure) m) as Hrest; [|apply Hrest]
    end.
    unfold log_error.
    respects_with ltac:(first
      [ by apply extends_emit | by apply extends_gl_ | by apply extends_modify
      | by apply extends_gl | apply reflect_uniforms_no_link_failure ]).
Qed.

(** [createProgram] once it is past its two refusals. *)
Lemma createProgram_started srcs types num prefixes prefixes_count name d :
  isFull (g_programs d) = false →
  (MAX_SHADERS_PER_PROGRAM <? num) = false →
  let pre := [EvAssert (g_thread d =? GetCurrentThreadId);
              EvAssert (prefixes_count <? 16 - 1)] in
  let created := gl_driver (g_log d ++ pre) glCreateProgram in
  createProgram srcs types num prefixes prefixes_count name d
  = match compile_stages (Z.to_nat num) (as_int created) srcs types prefixes
            prefixes_count name 0
            (add_log (pre ++ [EvGL glCreateProgram created]) d) with
    | Ret true d1 => Ret INVALID_PROGRAM d1
    | Ret false d1 => link_and_reflect (as_int created) name d1
    | Fault d1 => Fault d1
    end.
Proof.
  intros Hfull Hnum pre created.
  unfold createProgram, checkThread, ASSERT, log_error, gl, emit, modify,
    get_device, bind, ret.
  change (g_programs (add_log ?e d)) with (g_programs d).
  rewrite Hfull, Hnum, !add_log_add_log.
  change (g_log (add_log ?e d)) with (g_log d ++ e).
  fold created. cbn [app].
  by destruct (compile_stages _ _ _ _ _ _ _ _ _) as [[] d1|d1].
Qed.

(** The two refusals: an error line, and no native call. *)
Lemma createProgram_refusal_events srcs types num prefixes prefixes_count name d :
  isFull (g_programs d) = true ∨ MAX_SHADERS_PER_PROGRAM < num →
  ∃ evs,
    createProgram srcs types num prefixes prefixes_count name d
    = Ret INVALID_PROGRAM (add_log evs d)
    ∧ Forall no_failure evs
    ∧ Forall no_link_failure evs
    ∧ native_calls evs = [].
Proof.
  intros Hrefused.
  unfold createProgram, checkThread, ASSERT, log_error, gl, emit, modify,
    get_device, bind, ret.
  change (g_programs (add_log ?e d)) with (g_programs d).
  destruct (isFull (g_programs d)) eqn:Hfull.
  { rewrite !add_log_add_log. eexists. split; [reflexivity|].
    split; [by repeat constructor|]. split; [by repeat constructor|]. done. }
  destruct Hrefused as [|Hnum]; [done|].
  apply Z.ltb_lt in Hnum. rewrite Hnum, !add_log_add_log.
  eexists. split; [reflexivity|].
  split; [by repeat constructor|]. split; [by repeat constructor|]. done.
Qed.

(** X9.  [createProgram] refuses before it has made any native call
    when the program pool is full and when more than sixteen stages
    are passed: it returns [INVALID_PROGRAM] and only the log has
    changed. *)
Theorem createProgram_refusal_makes_no_call
    (srcs : list string) (types : list ShaderType.t) (num : Z)
    (prefixes : list string) (prefixes_count : Z) (name : string)
    (d : Device) :
  isFull (g_programs d) = true ∨ MAX_SHADERS_PER_PROGRAM < num →
  ∃ evs,
    createProgram srcs types num prefixes prefixes_count name d
    = Ret INVALID_PROGRAM (add_log evs d)
    ∧ native_calls evs = [].
Proof.
  intros Hrefused.
  destruct (createProgram_refusal_events srcs types num prefixes
              prefixes_count name d Hrefused) as (evs & Hret & _ & _ & Hnone).
  by exists evs.
Qed.

(** The events of a call in which a stage did not compile: the two
    assertions, the creation of the program, and a stage loop that
    ended in [return INVALID_PROGRAM]. *)
Lemma createProgram_failed_stage srcs types num prefixes prefixes_count name d evs :
  g_log (res_device
           (createProgram srcs types num prefixes prefixes_count name d))
  = g_log d ++ evs →
  compile_failed evs = true →
  ∃ created rest,
    evs = [EvAssert (g_thread d =? GetCurrentThreadId);
           EvAssert (prefixes_count <? 16 - 1);
           EvGL glCreateProgram created] ++ rest
    ∧ Forall not_program_call rest.
Proof.
  intros Hlog Hfailed.
  destruct (isFull (g_programs d)) eqn:Hfull.
  { destruct (createProgram_refusal_events srcs types num prefixes
                prefixes_count name d) as (evs' & Hret & Hnf & _); [by left|].
    rewrite Hret in Hlog. simpl in Hlog. apply app_inv_head in Hlog as <-.
    by rewrite no_failure_compile_failed in Hfailed. }
  destruct (MAX_SHADERS_PER_PROGRAM <? num) eqn:Hnum.
  { destruct (createProgram_refusal_events srcs types num prefixes
                prefixes_count name d) as (evs' & Hret & Hnf & _);
      [right; by apply Z.ltb_lt|].
    rewrite Hret in Hlog. simpl in Hlog. apply app_inv_head in Hlog as <-.
    by rewrite no_failure_compile_failed in Hfailed. }
  rewrite createProgram_started in Hlog by done.
  set (pre := [EvAssert (g_thread d =? GetCurrentThreadId);
               EvAssert (prefixes_count <? 16 - 1)]) in *.
  set (created := gl_driver (g_log d ++ pre) glCreateProgram) in *.
  set (d0 := add_log (pre ++ [EvGL glCreateProgram created]) d) in *.
  assert (Forall is_quiet (pre ++ [EvGL glCreateProgram created])) as Hpre
    by (by repeat constructor).
  pose proof (compile_stages_outcome (Z.to_nat num) (as_int created) srcs types
                prefixes prefixes_count name 0 d0) as Hloop.
  pose proof (compile_stages_no_program_call (Z.to_nat num) (as_int created)
                srcs types prefixes prefixes_count name 0 d0) as Hcalls.
  destruct (compile_stages _ _ _ _ _ _ _ _ _) as [[] d1|d1];
    simpl in Hloop, Hcalls.
  - destruct Hloop as (evs1 & -> & _).
    destruct Hcalls as (evs2 & Hlog2 & Hcalls).
    rewrite g_log_add_log in Hlog2. apply app_inv_head in Hlog2 as <-.
    unfold d0 in Hlog. rewrite add_log_add_log in Hlog.
    cbn [res_device] in Hlog. rewrite g_log_add_log in Hlog.
    apply app_inv_head in Hlog as <-.
    by exists created, evs1.
  - destruct Hloop as (evs1 & -> & Hq).
    destruct (link_and_reflect_no_failure (as_int created) name
                (add_log evs1 d0)) as (evs2 & Hlog2 & Hnf).
    rewrite Hlog2 in Hlog. unfold d0 in Hlog.
    rewrite add_log_add_log, g_log_add_log, <- app_assoc in Hlog.
    apply app_inv_head in Hlog as <-.
    rewrite no_failure_compile_failed in Hfailed; [done|].
    apply Forall_app. split; [|done].
    eapply Forall_impl; [|apply quiet_no_failure].
    by apply Forall_app.
  - destruct Hloop as (evs1 & -> & Hq).
    unfold d0 in Hlog. rewrite add_log_add_log in Hlog.
    cbn [res_device] in Hlog. rewrite g_log_add_log in Hlog.
    apply app_inv_head in Hlog as <-.
    rewrite no_failure_compile_failed in Hfailed; [done|].
    eapply Forall_impl; [|apply quiet_no_failure].
    by apply Forall_app.
Qed.

(** X10.  When a stage does not compile, [createProgram] returns
    without deleting the program it created: [glCreateProgram] is the
    first native call of the events, and no [glDeleteProgram] is among
    them. *)
Theorem createProgram_compile_failure_keeps_program
    (srcs : list string) (types : list ShaderType.t) (num : Z)
    (prefixes : list string) (prefixes_count : Z) (name : string)
    (d : Device) (evs : list event) :
  g_log (res_device
           (createProgram srcs types num prefixes prefixes_count name d))
  = g_log d ++ evs →
  compile_failed evs = true →
  head (native_calls evs) = Some glCreateProgram
  ∧ Forall not_delete_program evs.
Proof.
  intros Hlog Hfailed.
  destruct (createProgram_failed_stage _ _ _ _ _ _ _ _ Hlog Hfailed)
    as (created & rest & -> & Hrest).
  split; [done|].
  apply Forall_app. split; [by repeat constructor|].
  eapply Forall_impl; [done|apply not_program_call_no_delete].
Qed.

(** X11.  When the link status comes back as [GL_FALSE],
    [createProgram] returns [INVALID_PROGRAM] with only the log
    changed, so that no program slot is taken, and the last thing it
    does is delete the program it created. *)
Theorem createProgram_link_failure
    (srcs : list string) (types : list ShaderType.t) (num : Z)
    (prefixes : list string) (prefixes_count : Z) (name : string)
    (d : Device) (evs : list event) :
  g_log (res_device
           (createProgram srcs types num prefixes prefixes_count name d))
  = g_log d ++ evs →
  link_failed evs = true →
  createProgram srcs types num prefixes prefixes_count name d
  = Ret INVALID_PROGRAM (add_log evs d)
  ∧ ∃ created,
      evs !! 2%nat = Some (EvGL glCreateProgram created)
      ∧ last evs = Some (EvGL (glDeleteProgram (as_int created)) RNone).
Proof.
  intros Hlog Hfailed.
  destruct (isFull (g_programs d)) eqn:Hfull.
  { destruct (createProgram_refusal_events srcs types num prefixes
                prefixes_count name d) as (evs' & Hret & _ & Hnl & _); [by left|].
    rewrite Hret in Hlog. simpl in Hlog. apply app_inv_head in Hlog as <-.
    by rewrite no_link_failure_link_failed in Hfailed. }
  destruct (MAX_SHADERS_PER_PROGRAM <? num) eqn:Hnum.
  { destruct (createProgram_refusal_events srcs types num prefixes
                prefixes_count name d) as (evs' & Hret & _ & Hnl & _);
      [right; by apply Z.ltb_lt|].
    rewrite Hret in Hlog. simpl in Hlog. apply app_inv_head in Hlog as <-.
    by rewrite no_link_failure_link_failed in Hfailed. }
  rewrite createProgram_started in Hlog |- * by done.
  set (pre := [EvAssert (g_thread d =? GetCurrentThreadId);
               EvAssert (prefixes_count <? 16 - 1)]) in *.
  set (created := gl_driver (g_log d ++ pre) glCreateProgram) in *.
  set (d0 := add_log (pre ++ [EvGL glCreateProgram created]) d) in *.
  assert (Forall no_link_failure (pre ++ [EvGL glCreateProgram created]))
    as Hpre by (by repeat constructor).
  pose proof (compile_stages_outcome (Z.to_nat num) (as_int created) srcs types
                prefixes prefixes_count name 0 d0) as Hloop.
  pose proof (compile_stages_no_program_call (Z.to_nat num) (as_int created)
                srcs types prefixes prefixes_count name 0 d0) as Hcalls.
  assert (∀ d1,
    (∃ evs1, d1 = add_log evs1 d0) →
    extends not_program_call d0 d1 →
    ∃ evs1, d1 = add_log evs1 d0 ∧ Forall no_link_failure evs1) as Hstages.
  { intros d1 (evs1 & ->) (evs2 & Hlog2 & Hnp).
    rewrite g_log_add_log in Hlog2. apply app_inv_head in Hlog2 as <-.
    exists evs1. split; [done|].
    eapply Forall_impl; [done|apply not_program_call_no_link_failure]. }
  destruct (compile_stages _ _ _ _ _ _ _ _ _) as [[] d1|d1];
    simpl in Hloop, Hcalls.
  - destruct (Hstages d1) as (evs1 & -> & Hnl);
      [destruct Hloop as (e & -> & _); by exists e|done|].
    unfold d0 in Hlog. rewrite add_log_add_log in Hlog.
    cbn [res_device] in Hlog. rewrite g_log_add_log in Hlog.
    apply app_inv_head in Hlog as <-.
    rewrite no_link_failure_link_failed in Hfailed; [done|].
    by apply Forall_app.
  - destruct (Hstages d1) as (evs1 & -> & Hnl);
      [destruct Hloop as (e & -> & _); by exists e|done|].
    destruct (link_and_reflect_outcome (as_int created) name (add_log evs1 d0))
      as [(mid & Hret)|(evs2 & Hlog2 & Hnl2)].
    + rewrite Hret in Hlog |- *. unfold d0 in Hlog |- *.
      rewrite !add_log_add_log in Hlog |- *.
      cbn [res_device] in Hlog. rewrite g_log_add_log in Hlog.
      apply app_inv_head in Hlog as <-.
      split; [done|]. exists created. split; [done|].
      rewrite !app_assoc. by rewrite last_snoc.
    + rewrite Hlog2 in Hlog. unfold d0 in Hlog.
      rewrite add_log_add_log, g_log_add_log, <- app_assoc in Hlog.
      apply app_inv_head in Hlog as <-.
      rewrite no_link_failure_link_failed in Hfailed; [done|].
      apply Forall_app. split; [|done]. by apply Forall_app.
  - destruct (Hstages d1) as (evs1 & -> & Hnl);
      [destruct Hloop as (e & -> & _); by exists e|done|].
    unfold d0 in Hlog. rewrite add_log_add_log in Hlog.
    cbn [res_device] in Hlog. rewrite g_log_add_log in Hlog.
    apply app_inv_head in Hlog as <-.
    rewrite no_link_failure_link_failed in Hfailed; [done|].
    by apply Forall_app.
Qed.

(** [destroy] of a program changes nothing but the log. *)
Lemma destroy_program_logs program d :
  ∃ evs, destroy_program program d = Ret () (add_log evs d).
Proof.
  unfold destroy_program, checkThread, ASSERT, gl_, emit, modify, get_device,
    bind, ret.
  destruct (ProgramHandle_isValid program); rewrite ?add_log_add_log;
    by eexists.
Qed.

(** X12.  Program slots are not given back: [destroy] of a program
    leaves the program pool as it is, so once the pool is full
    [createProgram] refuses, whatever programs have been destroyed
    since. *)
Theorem program_slots_never_reclaimed
    (handles : list Z)
    (srcs : list string) (types : list ShaderType.t) (num : Z)
    (prefixes : list string) (prefixes_count : Z) (name : string)
    (d : Device) :
  isFull (g_programs d) = true →
  ∃ d1 evs,
    for_each destroy_program handles d = Ret () d1
    ∧ g_programs d1 = g_programs d
    ∧ createProgram srcs types num prefixes prefixes_count name d1
      = Ret INVALID_PROGRAM (add_log evs d1)
    ∧ native_calls evs = [].
Proof.
  intros Hfull.
  assert (∃ evs, for_each destroy_program handles d = Ret () (add_log evs d))
    as (evs & Hrun).
  { revert d Hfull. induction handles as [|h handles IH]; intros d Hfull; simpl.
    - exists []. by rewrite add_log_nil.
    - destruct (destroy_program_logs h d) as (evs1 & Hdestroy).
      destruct (IH (add_log evs1 d) Hfull) as (evs2 & Hrest).
      exists (evs1 ++ evs2). unfold bind. rewrite Hdestroy, Hrest.
      by rewrite add_log_add_log. }
  destruct (createProgram_refusal_events srcs types num prefixes
              prefixes_count name (add_log evs d))
    as (evs' & Hret & _ & _ & Hnone); [by left|].
  by exists (add_log evs d), evs'.
Qed.

End ProgramExtra.

(* ================================================================== *)
(** ** Uniform slots: storage, names, and the way to the driver *)

Section UniformExtra.
Context `{Platform}.

(** Every setter copies as many bytes as [getSize] gives for the type
    it asserts. *)
Lemma run_setter_set_uniform s uniform :
  run_setter s uniform
  = set_uniform (setter_type s) (Z.to_nat (getSize (setter_type s))) uniform
      (setter_bytes s).
Proof. by destruct s. Qed.

(** A new name when the pool has a free slot: what the slot holds. *)
Lemma allocUniform_miss_slot name type count d fl :
  uniforms_wf d fl →
  g_uniforms_hash_map d !! crc32 name = None →
  isFull (g_uniforms d) = false →
  ∃ h d', allocUniform name type count d = Ret h d'
          ∧ g_log d' = g_log d
          ∧ g_thread d' = g_thread d
          ∧ pool_get (g_uniforms d') h
            = Some {| Uniform.type := type;
                      Uniform.count := to_uint count;
                      Uniform.data :=
                        replicate (Z.to_nat (to_uint (getSize type * to_uint count)))
                          Byte.x00 |}.
Proof.
  intros Hwf Hmiss Hfull.
  unfold allocUniform, get_device, bind. rewrite Hmiss, Hfull.
  destruct d as [bufs texs [vs ff] prgs hm th lg].
  destruct Hwf as [Hsize Hchain Hnd Hrange Htable]; simpl in *.
  destruct fl as [|i fl].
  { apply chain_empty in Hchain as ->. done. }
  destruct (alloc_chain_cons _ _ _ _ Hchain) as (nxt & -> & Hrest).
  apply chain_head in Hchain as [-> Hi].
  assert (i < Z.of_nat (length vs)) as Hlt.
  { apply Hrange. by left. }
  unfold defined, ret. simpl.
  rewrite pool_set_in_bounds by (simpl; lia). simpl.
  rewrite to_uint_small by (unfold INT_MAX in *; lia).
  unfold modify. simpl.
  eexists _, _. split; [reflexivity|]. simpl.
  split; [done|]. split; [done|].
  by rewrite pool_get_insert_eq by lia.
Qed.

(** X13.  A setter fits the storage that [allocUniform] made for its
    type: after [allocUniform] has created a slot of [count >= 1]
    elements of the type that the setter asserts, the setter returns,
    its assertion on the type holds, and the slot holds the bytes
    copied, followed by the zeros that [allocUniform] wrote. *)
Theorem setter_fits_allocation
    (name : string) (s : setter) (count : Z) (d : Device) (fl : list Z) :
  uniforms_wf d fl →
  g_uniforms_hash_map d !! crc32 name = None →
  isFull (g_uniforms d) = false →
  0 < count →
  getSize (setter_type s) * count < 4294967296 →
  getSize (setter_type s) <= Z.of_nat (length (setter_bytes s)) →
  ∃ h d1 d2,
    allocUniform name (setter_type s) count d = Ret h d1
    ∧ run_setter s h d1 = Ret () d2
    ∧ g_log d2
      = g_log d ++ [EvAssert (g_thread d =? GetCurrentThreadId); EvAssert true]
    ∧ pool_get (g_uniforms d2) h
      = Some {| Uniform.type := setter_type s;
                Uniform.count := count;
                Uniform.data :=
                  take (Z.to_nat (getSize (setter_type s))) (setter_bytes s)
                  ++ replicate (Z.to_nat (getSize (setter_type s) * (count - 1)))
                       Byte.x00 |}.
Proof.
  intros Hwf Hmiss Hfull Hcount Hsize Hvalue.
  destruct (allocUniform_miss_slot name (setter_type s) count d fl Hwf Hmiss Hfull)
    as (h & d1 & Halloc & Hlog & Hthread & Hslot).
  assert (0 < getSize (setter_type s)) as Hpos by (by destruct s).
  assert (to_uint count = count) as Hc.
  { apply to_uint_small. nia. }
  rewrite Hc in Hslot.
  rewrite to_uint_small in Hslot by nia.
  exists h, d1. rewrite run_setter_set_uniform.
  unfold set_uniform, checkThread, ASSERT, emit, modify, get_device, bind,
    defined, ret, fault.
  change (g_uniforms (add_log ?e d1)) with (g_uniforms d1).
  rewrite Hslot. cbn [Uniform.type Uniform.count Uniform.data].
  rewrite bool_decide_eq_true_2 by done.
  unfold memcpy. rewrite length_replicate.
  destruct (Nat.leb_spec (Z.to_nat (getSize (setter_type s)))
              (Z.to_nat (getSize (setter_type s) * count))); [|nia].
  destruct (Nat.leb_spec (Z.to_nat (getSize (setter_type s)))
              (length (setter_bytes s))); [|lia].
  cbn [andb].
  apply pool_get_bounds in Hslot as [Hidx _].
  rewrite pool_set_in_bounds by done.
  eexists. split; [done|]. split; [done|].
  split.
  { rewrite !add_log_add_log. cbn [g_log with_uniforms].
    by rewrite g_log_add_log, Hlog, Hthread. }
  cbn [g_uniforms with_uniforms].
  rewrite pool_get_insert_eq by done.
  do 2 f_equal. rewrite drop_replicate. do 2 f_equal. nia.
Qed.

(** X14.  The storage of a slot is [getSize(type) * count] bytes
    computed in [uint]; when that is less than one element, as it is
    for a count of zero, the copy that a setter of the type makes runs
    past the end of the storage. *)
Theorem setter_overruns_short_allocation
    (name : string) (s : setter) (count : Z) (d : Device) (fl : list Z) :
  uniforms_wf d fl →
  g_uniforms_hash_map d !! crc32 name = None →
  isFull (g_uniforms d) = false →
  to_uint (getSize (setter_type s) * to_uint count) < getSize (setter_type s) →
  ∃ h d1 d2,
    allocUniform name (setter_type s) count d = Ret h d1
    ∧ run_setter s h d1 = Fault d2.
Proof.
  intros Hwf Hmiss Hfull Hshort.
  destruct (allocUniform_miss_slot name (setter_type s) count d fl Hwf Hmiss Hfull)
    as (h & d1 & Halloc & _ & _ & Hslot).
  exists h, d1. rewrite run_setter_set_uniform.
  unfold set_uniform, checkThread, ASSERT, emit, modify, get_device, bind,
    defined, ret, fault.
  change (g_uniforms (add_log ?e d1)) with (g_uniforms d1).
  rewrite Hslot. cbn [Uniform.type Uniform.count Uniform.data].
  unfold memcpy. rewrite length_replicate.
  assert (0 <= to_uint (getSize (setter_type s) * to_uint count)) as Hnn.
  { unfold to_uint. apply Z.mod_pos_bound. lia. }
  destruct (Nat.leb_spec (Z.to_nat (getSize (setter_type s)))
              (Z.to_nat (to_uint (getSize (setter_type s) * to_uint count))));
    [lia|].
  cbn [andb]. eexists. split; [done|]. reflexivity.
Qed.

(** X15.  Slots are found by the checksum of the name alone: a second
    name with the checksum of a registered one gets the slot of the
    first, with the declaration of the first, and its own type and
    count are dropped. *)
Theorem allocUniform_checksum_collision
    (name1 name2 : string) (type1 type2 : UniformType.t) (count1 count2 : Z)
    (d : Device) (fl : list Z) :
  uniforms_wf d fl →
  crc32 name1 = crc32 name2 →
  g_uniforms_hash_map d !! crc32 name1 = None →
  isFull (g_uniforms d) = false →
  ∃ h d1,
    allocUniform name1 type1 count1 d = Ret h d1
    ∧ allocUniform name2 type2 count2 d1 = Ret h d1
    ∧ slot_decl d1 h = Some (type1, to_uint count1).
Proof.
  intros Hwf Hsame Hmiss Hfull.
  destruct (allocUniform_miss name1 type1 count1 d fl Hwf Hmiss Hfull)
    as (h & d1 & Halloc & _ & Hreg & Hdecl).
  exists h, d1. split; [done|]. split; [|done].
  apply allocUniform_hit. by rewrite <- Hsame.
Qed.

Lemma byte_val_byte_of z : byte_val (byte_of z) = z mod 256.
Proof.
  unfold byte_val, byte_of.
  assert (0 <= z mod 256 < 256) as Hr by (apply Z.mod_pos_bound; lia).
  destruct (Byte.of_N (Z.to_N (z mod 256))) as [b|] eqn:Hb.
  - apply Byte.to_of_N in Hb. rewrite Hb. lia.
  - apply Byte.of_N_None_iff in Hb. lia.
Qed.

(** Four bytes written from a 32-bit value are read back as the value. *)
Lemma le32_le_bytes32 z :
  le32 (byte_of z) (byte_of (z / 256)) (byte_of (z / 65536))
       (byte_of (z / 16777216))
  = to_uint z.
Proof.
  unfold le32, to_uint. rewrite !byte_val_byte_of.
  Z.div_mod_to_equations. lia.
Qed.

Lemma to_int_to_uint z :
  -2147483648 <= z <= INT_MAX → to_int (to_uint z) = z.
Proof.
  unfold to_int, to_uint, INT_MAX. intros Hz.
  Z.div_mod_to_equations. lia.
Qed.

(** The body of the loop of [useProgram] is one native call, chosen by
    the type of the slot. *)
Lemma upload_uniform_call pu d :
  upload_uniform pu d
  = match pool_get (g_uniforms d) (Program.uniform pu) with
    | Some u =>
        match upload_call (Uniform.type u) (Program.loc pu) (Uniform.count u)
                (Uniform.data u) with
        | Some c => Ret () (add_log [EvGL c RNone] d)
        | None => Fault d
        end
    | None => Fault d
    end.
Proof.
  unfold upload_uniform, get_device, defined, bind, ret, fault.
  destruct (pool_get _ _) as [u|]; [|done].
  unfold upload_call.
  destruct (Uniform.type u); try done.
  by destruct (Uniform.data u) as [|b0 [|b1 [|b2 [|b3 ?]]]].
Qed.

(** The loop of [useProgram] makes the call of every entry. *)
Lemma for_each_upload l d d' pu :
  for_each upload_uniform l d = Ret () d' →
  pu ∈ l →
  ∃ evs u c,
    d' = add_log evs d
    ∧ pool_get (g_uniforms d) (Program.uniform pu) = Some u
    ∧ upload_call (Uniform.type u) (Program.loc pu) (Uniform.count u)
        (Uniform.data u) = Some c
    ∧ EvGL c RNone ∈ evs.
Proof.
  revert d. induction l as [|x l IH]; intros d Hrun Hin.
  { by apply elem_of_nil in Hin. }
  simpl in Hrun. unfold bind in Hrun. rewrite upload_uniform_call in Hrun.
  destruct (pool_get (g_uniforms d) (Program.uniform x)) as [ux|] eqn:Hx;
    [|done].
  destruct (upload_call _ _ _ _) as [cx|] eqn:Hcx; [|done].
  apply elem_of_cons in Hin as [->|Hin].
  - assert (∃ evs, d' = add_log evs (add_log [EvGL cx RNone] d)) as (evs & ->).
    { clear -Hrun. revert Hrun. generalize (add_log [EvGL cx RNone] d).
      induction l as [|y l IH]; intros d0; simpl.
      - intros [= <-]. exists []. by rewrite add_log_nil.
      - unfold bind. rewrite upload_uniform_call.
        destruct (pool_get _ _); [|done].
        destruct (upload_call _ _ _ _); [|done].
        intros (evs & ->)%IH. rewrite add_log_add_log. by eexists. }
    rewrite add_log_add_log.
    exists ([EvGL cx RNone] ++ evs), ux, cx.
    split; [done|]. split; [done|]. split; [done|].
    apply elem_of_app. left. by apply list_elem_of_singleton.
  - destruct (IH _ Hrun Hin) as (evs & u & c & -> & Hu & Hc & Hev).
    rewrite add_log_add_log.
    exists ([EvGL cx RNone] ++ evs), u, c.
    split; [done|]. split; [done|]. split; [done|].
    apply elem_of_app. by right.
Qed.

(** X16.  What a setter writes reaches the driver: when a slot of the
    type that the setter asserts is in the table of a program, the next
    [useProgram] of that program makes the upload call of that type at
    the location of the entry, with data that starts with the bytes the
    setter copied; for [setUniform1i] that is [glUniform1i] with the
    value itself. *)
Theorem setter_value_reaches_driver
    (s : setter) (handle h : Z) (prg : Program.t) (pu : Program.entry)
    (u : Uniform.t) (d d1 d2 : Device) :
  ProgramHandle_isValid handle = true →
  pool_get (g_programs d) handle = Some prg →
  pu ∈ Program.uniforms prg →
  Program.uniform pu = h →
  pool_get (g_uniforms d) h = Some u →
  Uniform.type u = setter_type s →
  run_setter s h d = Ret () d1 →
  useProgram handle d1 = Ret () d2 →
  ∃ evs data c,
    g_log d2 = g_log d1 ++ evs
    ∧ take (Z.to_nat (getSize (setter_type s))) data
      = take (Z.to_nat (getSize (setter_type s))) (setter_bytes s)
    ∧ upload_call (setter_type s) (Program.loc pu) (Uniform.count u) data
      = Some c
    ∧ EvGL c RNone ∈ evs
    ∧ ∀ value, s = Set1i value → -2147483648 <= value <= INT_MAX →
        c = glUniform1i (Program.loc pu) value.
Proof.
  intros Hvalid Hprg Hin Hh Hslot Htype Hset Huse.
  (* the state after the setter *)
  rewrite run_setter_set_uniform in Hset.
  assert (∃ u1, pool_get (g_uniforms d1) h = Some u1
                ∧ Uniform.type u1 = Uniform.type u
                ∧ Uniform.count u1 = Uniform.count u
                ∧ take (Z.to_nat (getSize (setter_type s))) (Uniform.data u1)
                  = take (Z.to_nat (getSize (setter_type s))) (setter_bytes s)
                ∧ g_programs d1 = g_programs d)
    as (u1 & Hslot1 & Htype1 & Hcount1 & Hdata1 & Hprgs).
  { revert Hset.
    unfold set_uniform, checkThread, ASSERT, emit, modify, get_device, bind,
      defined, ret, fault.
    change (g_uniforms (add_log ?e d)) with (g_uniforms d).
    rewrite Hslot. unfold memcpy.
    destruct (Nat.leb_spec (Z.to_nat (getSize (setter_type s)))
                (length (Uniform.data u))); simpl; [|done].
    destruct (Nat.leb_spec (Z.to_nat (getSize (setter_type s)))
                (length (setter_bytes s))); simpl; [|done].
    apply pool_get_bounds in Hslot as [Hidx _].
    rewrite pool_set_in_bounds by done. simpl.
    intros [= <-]. simpl.
    rewrite pool_get_insert_eq by done.
    eexists. split; [done|]. simpl. split; [done|]. split; [done|].
    split; [|done].
    rewrite take_app_le by (rewrite length_take; lia).
    rewrite take_take. f_equal. lia. }
  (* the loop of [useProgram] *)
  revert Huse. unfold useProgram. rewrite Hvalid. cbn [negb].
  unfold get_device, defined, gl_, emit, modify, bind, ret.
  rewrite Hprgs, Hprg.
  intros Hloop.
  destruct (for_each_upload _ _ _ pu Hloop Hin) as (evs & u' & c & -> & Hu' & Hc & Hev).
  change (g_uniforms (add_log ?e d1)) with (g_uniforms d1) in Hu'.
  rewrite Hh, Hslot1 in Hu'. injection Hu' as <-.
  rewrite Htype1, Htype, Hcount1 in Hc.
  exists ([EvGL (glUseProgram (Program.handle prg)) RNone] ++ evs),
    (Uniform.data u1), c.
  split; [by rewrite add_log_add_log|].
  split; [done|]. split; [done|].
  split; [apply elem_of_app; by right|].
  intros value -> Hrange.
  cbn [setter_type setter_bytes getSize] in *.
  unfold le_bytes32 in Hdata1.
  destruct (Uniform.data u1) as [|b0 [|b1 [|b2 [|b3 rest]]]]; try done.
  cbn [take Z.to_nat Pos.to_nat Pos.iter_op Nat.add] in Hdata1.
  simpl in Hdata1. injection Hdata1 as -> -> -> ->.
  simpl in Hc. injection Hc as <-.
  by rewrite le32_le_bytes32, to_int_to_uint.
Qed.

End UniformExtra.

(* ================================================================== *)
(** ** The uniform table of a program *)

Global Instance same_programs_preorder : PreOrder same_programs.
Proof.
  split.
  - by intros d.
  - intros d1 d2 d3 H1 H2. unfold same_programs in *. congruence.
Qed.

Section TableExtra.
Context `{Platform}.

Lemma bind_ret_inv {A B} (m : M A) (k : A → M B) d b d' :
  bind m k d = Ret b d' → ∃ a d1, m d = Ret a d1 ∧ k a d1 = Ret b d'.
Proof.
  unfold bind. destruct (m d) as [a d1|d1]; [|done]. intros Hk. by exists a, d1.
Qed.

Lemma same_programs_emit e : respects same_programs (emit e).
Proof. by intros d. Qed.

Lemma same_programs_gl c : respects same_programs (gl c).
Proof. by intros d. Qed.

Lemma allocUniform_same_programs name type count :
  respects same_programs (allocUniform name type count).
Proof.
  unfold allocUniform, log_error.
  respects_with ltac:(first [apply same_programs_emit | by intros ?]).
Qed.

Lemma uniform_type_of_same_programs type :
  respects same_programs (uniform_type_of type).
Proof.
  unfold uniform_type_of, ASSERT.
  respects_with ltac:(apply same_programs_emit).
Qed.

(** One turn of the loop over the active uniforms adds at most one
    entry to the table, and only one whose location is not negative. *)
Lemma reflect_uniform_table prg id i d d' p :
  reflect_uniform prg id i d = Ret () d' →
  pool_get (g_programs d) id = Some p →
  ∃ added,
    pool_get (g_programs d') id
    = Some {| Program.handle := Program.handle p;
              Program.uniforms := Program.uniforms p ++ added |}
    ∧ (length added ≤ 1)%nat
    ∧ Forall (λ pu, 0 <= Program.loc pu) added.
Proof.
  intros Hrun Hp. unfold reflect_uniform in Hrun.
  apply bind_ret_inv in Hrun as (r1 & d1 & Hgl1 & Hrun).
  pose proof (same_programs_gl (glGetActiveUniform prg i 32) d) as H1. rewrite Hgl1 in H1.
  destruct (as_uniform r1) as [[size type] name].
  apply bind_ret_inv in Hrun as (ffr_type & d2 & Hty & Hrun).
  pose proof (uniform_type_of_same_programs type d1) as H2. rewrite Hty in H2.
  apply bind_ret_inv in Hrun as (r2 & d3 & Hgl2 & Hrun).
  pose proof (same_programs_gl (glGetUniformLocation prg name) d2) as H3. rewrite Hgl2 in H3.
  unfold same_programs in *. simpl in H1, H2, H3.
  destruct (Z.leb_spec 0 (as_int r2)) as [Hloc|Hloc].
  - apply bind_ret_inv in Hrun as (h & d4 & Halloc & Hrun).
    pose proof (allocUniform_same_programs name ffr_type size d3) as H4.
    rewrite Halloc in H4. unfold same_programs in H4. simpl in H4.
    revert Hrun. unfold get_device, defined, modify, bind, ret, fault.
    rewrite H4, H3, H2, H1, Hp.
    apply pool_get_bounds in Hp as [Hidx _].
    rewrite pool_set_in_bounds by done.
    intros [= <-]. cbn [g_programs with_programs].
    destruct (g_programs d) as [vs ff]. cbn [values first_free] in *.
    rewrite pool_get_insert_eq by done.
    eexists [_]. split; [reflexivity|]. split; [done|].
    by repeat constructor.
  - injection Hrun as <-. rewrite H3, H2, H1, Hp.
    exists []. rewrite app_nil_r. split; [by destruct p|].
    split; [simpl; lia|constructor].
Qed.

Lemma reflect_uniforms_table n prg id i d d' p :
  reflect_uniforms n prg id i d = Ret () d' →
  pool_get (g_programs d) id = Some p →
  ∃ added,
    pool_get (g_programs d') id
    = Some {| Program.handle := Program.handle p;
              Program.uniforms := Program.uniforms p ++ added |}
    ∧ (length added ≤ n)%nat
    ∧ Forall (λ pu, 0 <= Program.loc pu) added.
Proof.
  revert i d p. induction n as [|n IH]; intros i d p Hrun Hp; simpl in Hrun.
  - injection Hrun as <-. exists []. rewrite app_nil_r.
    split; [by destruct p|]. split; [done|constructor].
  - apply bind_ret_inv in Hrun as ([] & d1 & Hone & Hrun).
    destruct (reflect_uniform_table _ _ _ _ _ _ Hone Hp)
      as (added1 & Hp1 & Hlen1 & Hloc1).
    destruct (IH _ _ _ Hrun Hp1) as (added2 & Hp2 & Hlen2 & Hloc2).
    cbn [Program.handle Program.uniforms] in Hp2.
    exists (added1 ++ added2). rewrite app_assoc.
    split; [done|]. split; [rewrite length_app; lia|by apply Forall_app].
Qed.

Lemma compile_stages_same_programs n prg srcs types prefixes prefixes_count name i :
  respects same_programs
    (compile_stages n prg srcs types prefixes prefixes_count name i).
Proof.
  revert i. induction n as [|n IH]; intros i; simpl.
  - apply respects_ret, _.
  - apply respects_bind; [apply _| |intros []; [apply respects_ret, _|apply IH]].
    unfold compile_stage, arg_at, combine_srcs, log_error, gl_.
    respects_with ltac:(first [apply same_programs_emit | apply same_programs_gl]).
Qed.

(** The code after the stage loop, when it returns a handle. *)
Lemma link_and_reflect_success prg name d h d' :
  Z.of_nat (length (values (g_programs d))) <= INT_MAX →
  link_and_reflect prg name d = Ret h d' →
  h ≠ INVALID_PROGRAM →
  ∃ p, pool_get (g_programs d') h = Some p
       ∧ Program.handle p = prg
       ∧ (length (Program.uniforms p) ≤ 32)%nat
       ∧ located (Program.uniforms p).
Proof.
  intros Hsize Hrun Hvalid. unfold link_and_reflect in Hrun.
  apply bind_ret_inv in Hrun as ([] & d1 & Hlink & Hrun).
  injection Hlink as <-.
  apply bind_ret_inv in Hrun as (status & d2 & Hstatus & Hrun).
  injection Hstatus as <- <-.
  destruct (as_int _ =? GL_FALSE).
  { apply bind_ret_inv in Hrun as (r & d3 & _ & Hrun).
    apply bind_ret_inv in Hrun as ([] & d4 & _ & Hrun).
    apply bind_ret_inv in Hrun as ([] & d5 & _ & Hrun).
    by injection Hrun as <-. }
  revert Hrun. unfold get_device at 1. unfold bind at 1.
  change (g_programs (add_log ?e (add_log ?e' d))) with (g_programs d).
  destruct (g_programs d) as [vs ff] eqn:Hpool. cbn [values] in Hsize.
  unfold alloc, load_int. cbn [values first_free].
  destruct (ff =? -1); [|destruct (Z.ltb_spec ff 0)].
  { unfold defined, bind, ret, pool_set. cbn [values].
    by destruct (Z.leb_spec 0 (-1)). }
  { by unfold defined, bind, fault. }
  destruct (vs !! Z.to_nat ff) as [[nxt|v]|] eqn:Hlook;
    [|by unfold defined, bind, fault..].
  apply lookup_lt_Some in Hlook.
  unfold defined at 1. unfold bind at 1. unfold ret at 1.
  rewrite pool_set_in_bounds by (cbn [values]; lia).
  cbn [values first_free].
  unfold defined at 1. unfold bind at 1. unfold ret at 1.
  intros Hrun.
  apply bind_ret_inv in Hrun as ([] & d3 & Hmod & Hrun).
  injection Hmod as <-.
  apply bind_ret_inv in Hrun as (r & d4 & Hgl & Hrun).
  injection Hgl as <- <-.
  apply bind_ret_inv in Hrun as (n & d5 & Hclamp & Hrun).
  apply bind_ret_inv in Hrun as ([] & d6 & Hreflect & Hrun).
  injection Hrun as <- <-.
  assert (n <= 32 ∧ g_programs d5
                    = mkPool (<[Z.to_nat ff := Obj {| Program.handle := prg;
                                                     Program.uniforms := [] |}]> vs)
                        nxt) as [Hn Hd5].
  { revert Hclamp. unfold log_error, emit, modify, bind, ret.
    match goal with
    | |- context [32 <? ?x] => destruct (Z.ltb_spec 32 x)
    end; intros [= <- <-]; by split; [lia|]. }
  assert (pool_get (g_programs d5) ff
          = Some {| Program.handle := prg; Program.uniforms := [] |}) as Hp.
  { rewrite Hd5. apply pool_get_insert_eq. lia. }
  destruct (reflect_uniforms_table _ _ _ _ _ _ _ Hreflect Hp)
    as (added & Hp' & Hlen & Hloc).
  rewrite to_uint_small by (unfold INT_MAX in *; lia).
  eexists. split; [exact Hp'|]. cbn [Program.handle Program.uniforms app].
  split; [done|]. split; [lia|done].
Qed.

(** X17.  A handle other than [INVALID_PROGRAM] that [createProgram]
    returns names a slot that holds the program that the call created,
    with a uniform table of at most 32 entries, the length of the
    array, each with a location that is not negative. *)
Theorem createProgram_success_table
    (srcs : list string) (types : list ShaderType.t) (num : Z)
    (prefixes : list string) (prefixes_count : Z) (name : string)
    (d d' : Device) (h : Z) :
  Z.of_nat (length (values (g_programs d))) <= INT_MAX →
  createProgram srcs types num prefixes prefixes_count name d = Ret h d' →
  h ≠ INVALID_PROGRAM →
  ∃ p, pool_get (g_programs d') h = Some p
       ∧ Program.handle p = created_program d prefixes_count
       ∧ (length (Program.uniforms p) ≤ 32)%nat
       ∧ located (Program.uniforms p).
Proof.
  intros Hsize Hrun Hvalid.
  destruct (isFull (g_programs d)) eqn:Hfull.
  { destruct (createProgram_refusal_events srcs types num prefixes
                prefixes_count name d) as (evs & Hret & _); [by left|].
    rewrite Hret in Hrun. by injection Hrun as <-. }
  destruct (MAX_SHADERS_PER_PROGRAM <? num) eqn:Hnum.
  { destruct (createProgram_refusal_events srcs types num prefixes
                prefixes_count name d) as (evs & Hret & _);
      [right; by apply Z.ltb_lt|].
    rewrite Hret in Hrun. by injection Hrun as <-. }
  rewrite createProgram_started in Hrun by done.
  fold (created_program d prefixes_count) in Hrun.
  match type of Hrun with
  | context [compile_stages ?n ?p ?s ?t ?pf ?pc ?nm ?i ?d0] =>
      pose proof (compile_stages_same_programs n p s t pf pc nm i d0) as Hsame;
      destruct (compile_stages n p s t pf pc nm i d0) as [[] d1|d1];
      [by injection Hrun as <-| |done]
  end.
  unfold same_programs in Hsame. simpl in Hsame.
  apply (link_and_reflect_success _ _ _ _ _) in Hrun; [done| |done].
  by rewrite Hsame.
Qed.

(** X18.  [getUniformLocation] returns the location of the first entry
    of the table for the given uniform; on a table as [createProgram]
    leaves it, it returns -1 exactly when the table has no entry for
    the uniform. *)
Theorem getUniformLocation_finds
    (program_handle uniform : Z) (prg : Program.t) (d : Device) :
  pool_get (g_programs d) program_handle = Some prg →
  located (Program.uniforms prg) →
  ∃ loc,
    getUniformLocation program_handle uniform d = Ret loc d
    ∧ (loc = -1 ↔ ∀ pu, pu ∈ Program.uniforms prg → Program.uniform pu ≠ uniform)
    ∧ (loc ≠ -1 →
       ∃ before pu after,
         Program.uniforms prg = before ++ pu :: after
         ∧ (∀ x, x ∈ before → Program.uniform x ≠ uniform)
         ∧ Program.uniform pu = uniform
         ∧ Program.loc pu = loc).
Proof.
  intros Hprg Hloc.
  unfold getUniformLocation, get_device, defined, bind, ret. rewrite Hprg.
  eexists. split; [reflexivity|].
  unfold located in Hloc.
  induction (Program.uniforms prg) as [|x l IH]; simpl.
  - split; [split; [by intros _ pu ?%elem_of_nil|done]|done].
  - apply Forall_cons in Hloc as [Hx Hl].
    destruct (Z.eqb_spec (Program.uniform x) uniform) as [Heq|Hne].
    + split.
      * split; [lia|]. intros Hnone. exfalso.
        apply (Hnone x); [by left|done].
      * intros _. exists [], x, l. split; [done|].
        split; [by intros ? ?%elem_of_nil|done].
    + destruct (IH Hl) as [Hiff Hfound]. split.
      * rewrite Hiff. split.
        -- intros Hnone pu [->|Hin]%elem_of_cons; [done|by apply Hnone].
        -- intros Hnone pu Hin. apply Hnone. by right.
      * intros Hsome. destruct (Hfound Hsome) as (before & pu & after & -> & Hb & Hu & Hl').
        exists (x :: before), pu, after. split; [done|].
        split; [|done].
        intros y [->|Hin]%elem_of_cons; [done|by apply Hb].
Qed.

End TableExtra.

(* ================================================================== *)
(** ** Buffer handles *)

Section BufferExtra.
Context `{Platform}.

(** X20.  A buffer handle that [allocBufferHandle] has just returned
    binds the native buffer 0 as index buffer, as an invalid handle
    does: the slot it names holds no native buffer yet, and the
    handle returned for a full pool is the invalid one. *)
Theorem fresh_buffer_handle_binds_zero
    (INVALID_BUFFER : Z) (d d1 : Device) (h : Z) :
  BufferHandle_isValid INVALID_BUFFER = false →
  Z.of_nat (length (values (g_buffers d))) <= INT_MAX →
  allocBufferHandle INVALID_BUFFER d = Ret h d1 →
  setIndexBuffer h d1
  = Ret () (add_log [EvGL (glBindBuffer GL_ELEMENT_ARRAY_BUFFER 0) RNone] d1).
Proof.
  intros Hinvalid Hsize.
  unfold allocBufferHandle, log_error, emit, modify, get_device, defined,
    bind, ret, fault.
  destruct (isFull (g_buffers d)) eqn:Hfull.
  { intros [= <- <-]. unfold setIndexBuffer. rewrite Hinvalid. reflexivity. }
  unfold isFull in Hfull. unfold alloc, load_int. rewrite Hfull.
  destruct (Z.ltb_spec (first_free (g_buffers d)) 0); [done|].
  destruct (values (g_buffers d) !! Z.to_nat (first_free (g_buffers d)))
    as [[nxt|v]|] eqn:Hlook; [|done..].
  apply lookup_lt_Some in Hlook.
  rewrite pool_set_in_bounds by (cbn [values]; lia).
  cbn [values first_free]. intros [= <- <-].
  rewrite to_uint_small by (unfold INT_MAX in *; lia).
  unfold setIndexBuffer.
  destruct (BufferHandle_isValid (first_free (g_buffers d))); [|reflexivity].
  unfold get_device, defined, gl_, emit, modify, bind, ret.
  cbn [g_buffers with_buffers].
  by rewrite pool_get_insert_eq by lia.
Qed.

End BufferExtra.

(* ================================================================== *)
(** ** Flipping a block-compressed surface *)

Section FlipExtra.
Import Flip.

Lemma read_chunk pre x post :
  read (pre ++ x ++ post) (length pre) (length x) = x.
Proof.
  unfold read. by rewrite drop_app_length, take_app_length.
Qed.

Lemma write_chunk pre x post y :
  length y = length x →
  write (pre ++ x ++ post) (length pre) y = pre ++ y ++ post.
Proof.
  intros Hlen. unfold write.
  rewrite take_app_length, Hlen, drop_app_add, drop_app_length. done.
Qed.

(** [swapMemory] exchanges two chunks of the same length and leaves
    what lies before, between and after them. *)
Lemma swapMemory_chunks pre x mid y post :
  length x = length y →
  swapMemory (pre ++ x ++ mid ++ y ++ post) (length pre)
    (length pre + length x + length mid) (Z.of_nat (length x))
  = Some (pre ++ y ++ mid ++ x ++ post).
Proof.
  intros Hlen. unfold swapMemory.
  destruct (Z.ltb_spec (Z.of_nat (length x)) 0); [lia|].
  rewrite Nat2Z.id, !length_app.
  destruct (Nat.leb_spec (length pre + length x)
              (length pre + (length x + (length mid + (length y + length post)))));
    [|lia].
  destruct (Nat.leb_spec (length pre + length x + length mid + length x)
              (length pre + (length x + (length mid + (length y + length post)))));
    [|lia].
  destruct (Nat.leb_spec (length pre + length x)
              (length pre + length x + length mid)); [|lia].
  rewrite orb_true_r. cbn [andb].
  rewrite read_chunk.
  assert (read (pre ++ x ++ mid ++ y ++ post)
            (length pre + length x + length mid) (length x) = y) as ->.
  { replace (pre ++ x ++ mid ++ y ++ post)
      with ((pre ++ x ++ mid) ++ y ++ post) by (by rewrite <- !app_assoc).
    replace (length pre + length x + length mid)%nat
      with (length (pre ++ x ++ mid)) by (rewrite !length_app; lia).
    rewrite Hlen. apply read_chunk. }
  rewrite write_chunk by done.
  replace (pre ++ y ++ mid ++ y ++ post)
    with ((pre ++ y ++ mid) ++ y ++ post) by (by rewrite <- !app_assoc).
  replace (length pre + length x + length mid)%nat
    with (length (pre ++ y ++ mid)) by (rewrite !length_app; lia).
  rewrite write_chunk by done.
  by rewrite <- !app_assoc.
Qed.

Lemma swapMemory_chunks_back pre x mid y post :
  length x = length y →
  swapMemory (pre ++ x ++ mid ++ y ++ post)
    (length pre + length x + length mid) (length pre) (Z.of_nat (length x))
  = Some (pre ++ y ++ mid ++ x ++ post).
Proof.
  intros Hlen. unfold swapMemory.
  destruct (Z.ltb_spec (Z.of_nat (length x)) 0); [lia|].
  rewrite Nat2Z.id, !length_app.
  destruct (Nat.leb_spec (length pre + length x)
              (length pre + (length x + (length mid + (length y + length post)))));
    [|lia].
  destruct (Nat.leb_spec (length pre + length x + length mid + length x)
              (length pre + (length x + (length mid + (length y + length post)))));
    [|lia].
  destruct (Nat.leb_spec (length pre + length x)
              (length pre + length x + length mid)); [|lia].
  rewrite orb_true_r. cbn [andb].
  rewrite read_chunk.
  assert (read (pre ++ x ++ mid ++ y ++ post)
            (length pre + length x + length mid) (length x) = y) as ->.
  { replace (pre ++ x ++ mid ++ y ++ post)
      with ((pre ++ x ++ mid) ++ y ++ post) by (by rewrite <- !app_assoc).
    replace (length pre + length x + length mid)%nat
      with (length (pre ++ x ++ mid)) by (rewrite !length_app; lia).
    rewrite Hlen. apply read_chunk. }
  replace (pre ++ x ++ mid ++ y ++ post)
    with ((pre ++ x ++ mid) ++ y ++ post) at 1 by (by rewrite <- !app_assoc).
  replace (length pre + length x + length mid)%nat
    with (length (pre ++ x ++ mid)) by (rewrite !length_app; lia).
  rewrite write_chunk by done.
  rewrite <- !app_assoc.
  rewrite write_chunk by done.
  done.
Qed.

Lemma swapMemory_units pre x mid y post p1 p2 size :
  length x = length y →
  p1 = length pre →
  p2 = (length pre + length x + length mid)%nat →
  size = Z.of_nat (length x) →
  swapMemory (pre ++ x ++ mid ++ y ++ post) p1 p2 size
  = Some (pre ++ y ++ mid ++ x ++ post).
Proof. intros Hlen -> -> ->. by apply swapMemory_chunks. Qed.

(** The rows of one colour block, reversed by the two swaps. *)
Lemma flip_colour_rows {A} (k : memory → option A)
    pre c0 c1 c2 c3 r0 r1 r2 r3 post :
  (mem ← swapMemory (pre ++ [c0; c1; c2; c3; r0; r1; r2; r3] ++ post)
           (length pre + 4) (length pre + 7) 1;
   mem ← swapMemory mem (length pre + 5) (length pre + 6) 1;
   k mem)
  = k (pre ++ [c0; c1; c2; c3; r3; r2; r1; r0] ++ post).
Proof.
  replace (pre ++ [c0; c1; c2; c3; r0; r1; r2; r3] ++ post)
    with ((pre ++ [c0; c1; c2; c3]) ++ [r0] ++ [r1; r2] ++ [r3] ++ post)
    by (by rewrite <- app_assoc).
  rewrite (swapMemory_units (pre ++ [c0; c1; c2; c3]) [r0] [r1; r2] [r3] post);
    [|done|rewrite length_app; simpl; lia..|done].
  cbn [mbind option_bind].
  replace ((pre ++ [c0; c1; c2; c3]) ++ [r3] ++ [r1; r2] ++ [r0] ++ post)
    with ((pre ++ [c0; c1; c2; c3; r3]) ++ [r1] ++ [] ++ [r2] ++ r0 :: post)
    by (by rewrite <- !app_assoc).
  rewrite (swapMemory_units (pre ++ [c0; c1; c2; c3; r3]) [r1] [] [r2]
             (r0 :: post));
    [|done|rewrite length_app; simpl; lia..|done].
  cbn [mbind option_bind]. by rewrite <- !app_assoc.
Qed.

Lemma length_8 {A} (b : list A) :
  length b = 8%nat → ∃ x0 x1 x2 x3 x4 x5 x6 x7, b = [x0; x1; x2; x3; x4; x5; x6; x7].
Proof.
  intros Hlen.
  do 8 (destruct b as [|? b]; [done|]). destruct b; [|done].
  by eexists _, _, _, _, _, _, _, _.
Qed.

Lemma flipBlockDXTC1_blocks blocks pre post :
  blocks_of 8 blocks →
  flipBlockDXTC1_from (length blocks) (pre ++ mjoin blocks ++ post) (length pre)
  = Some (pre ++ mjoin (flip_colour <$> blocks) ++ post).
Proof.
  revert pre. induction blocks as [|b blocks IH]; intros pre Hb; [done|].
  apply Forall_cons in Hb as [Hlen Hb].
  destruct (length_8 b Hlen) as (c0 & c1 & c2 & c3 & r0 & r1 & r2 & r3 & ->).
  cbn [length flipBlockDXTC1_from mjoin list_join fmap list_fmap].
  change (flip_colour [c0; c1; c2; c3; r0; r1; r2; r3])
    with [c0; c1; c2; c3; r3; r2; r1; r0].
  rewrite <- !app_assoc.
  rewrite flip_colour_rows.
  replace (pre ++ [c0; c1; c2; c3; r3; r2; r1; r0] ++ mjoin blocks ++ post)
    with ((pre ++ [c0; c1; c2; c3; r3; r2; r1; r0]) ++ mjoin blocks ++ post)
    by (by rewrite <- app_assoc).
  replace (length pre + 8)%nat
    with (length (pre ++ [c0; c1; c2; c3; r3; r2; r1; r0]))
    by (rewrite length_app; simpl; lia).
  rewrite IH by done. by rewrite <- !app_assoc.
Qed.

End FlipExtra.

Section FlipBits.
Import Flip.

Lemma testbit_small a n : 0 <= a < 2 ^ n → 0 <= n → ∀ m, n <= m → Z.testbit a m = false.
Proof.
  intros Ha Hn m Hm.
  destruct (Z.eq_dec a 0) as [->|Hne]; [apply Z.bits_0|].
  apply Z.bits_above_log2; [lia|].
  assert (Z.log2 a < n); [|lia].
  apply Z.log2_lt_pow2; lia.
Qed.

Lemma land_shiftl_small a d s :
  0 <= s → 0 <= a < 2 ^ s → Z.land a (Z.shiftl d s) = 0.
Proof.
  intros Hs Ha. apply Z.bits_inj'. intros n Hn.
  rewrite Z.land_spec, Z.bits_0.
  destruct (Z.ltb_spec n s).
  - by rewrite Z.shiftl_spec_low, andb_false_r.
  - by rewrite (testbit_small a s).
Qed.

Lemma lor_add_shift a d s :
  0 <= s → 0 <= a < 2 ^ s → Z.lor a (Z.shiftl d s) = a + d * 2 ^ s.
Proof.
  intros Hs Ha.
  rewrite <- Z.lxor_lor by (by apply land_shiftl_small).
  rewrite <- Z.add_nocarry_lxor by (by apply land_shiftl_small).
  by rewrite Z.shiftl_mul_pow2.
Qed.

Lemma lor_small a b n :
  0 <= n → 0 <= a < 2 ^ n → 0 <= b < 2 ^ n → 0 <= Z.lor a b < 2 ^ n.
Proof.
  intros Hn Ha Hb. split; [apply Z.lor_nonneg; lia|].
  destruct (Z.eq_dec a 0) as [->|Ha0]; [rewrite Z.lor_0_l; lia|].
  destruct (Z.eq_dec b 0) as [->|Hb0]; [rewrite Z.lor_0_r; lia|].
  assert (0 < Z.lor a b).
  { pose proof (Z.lor_nonneg a b). 
    assert (Z.lor a b ≠ 0); [|lia].
    intros [-> _]%Z.lor_eq_0_iff. done. }
  apply Z.log2_lt_pow2; [done|].
  rewrite Z.log2_lor by lia.
  apply Z.max_lub_lt; apply Z.log2_lt_pow2; lia.
Qed.

Lemma or_in_lor out ds s :
  or_in out ds s = Z.lor out (or_in 0 ds s).
Proof.
  revert out s. induction ds as [|d ds IH]; intros out s; simpl.
  - by rewrite Z.lor_0_r.
  - rewrite IH, (IH (Z.shiftl d s)). by rewrite Z.lor_assoc.
Qed.

End FlipBits.

Section FlipAlpha.
Import Flip.

Lemma pack_bound ds :
  Forall (λ d, 0 <= d < 8) ds → 0 <= pack ds < 8 ^ Z.of_nat (length ds).
Proof.
  induction 1 as [|d ds Hd _ IH]; simpl pack; [simpl; lia|].
  rewrite length_cons, Nat2Z.inj_succ, Z.pow_succ_r by lia. lia.
Qed.

Lemma or_in_pack a ds s :
  0 <= s → 0 <= a < 2 ^ s → Forall (λ d, 0 <= d < 8) ds →
  or_in a ds s = a + 2 ^ s * pack ds.
Proof.
  intros Hs Ha Hds. revert a s Hs Ha.
  induction Hds as [|d ds Hd _ IH]; intros a s Hs Ha; simpl.
  - lia.
  - rewrite lor_add_shift by done.
    rewrite IH.
    + rewrite Z.pow_add_r by lia. lia.
    + lia.
    + rewrite Z.pow_add_r by lia. nia.
Qed.

Lemma digits_8 bits :
  0 <= bits →
  digits 8 bits
  = [bits mod 8; bits / 8 mod 8; bits / 64 mod 8; bits / 512 mod 8;
     bits / 4096 mod 8; bits / 32768 mod 8; bits / 262144 mod 8;
     bits / 2097152 mod 8].
Proof.
  intros Hb. cbn [digits].
  change 7 with (Z.ones 3).
  rewrite !Z.land_ones by lia.
  rewrite !Z.shiftr_div_pow2 by lia.
  rewrite !Z.div_div by lia.
  reflexivity.
Qed.

Lemma digits_range n bits : Forall (λ d, 0 <= d < 8) (digits n bits).
Proof.
  revert bits. induction n as [|n IH]; intros bits; simpl; constructor; [|done].
  change 7 with (Z.ones 3). rewrite Z.land_ones by lia.
  apply Z.mod_pos_bound. lia.
Qed.

(** The codes of the second row before those of the first, packed
    again: the two rows exchanged. *)
Lemma pack_rows_exchanged bits :
  0 <= bits < 16777216 →
  pack (drop 4 (digits 8 bits) ++ take 4 (digits 8 bits)) = swap12 bits.
Proof.
  intros Hb. rewrite digits_8 by lia. cbn [drop take app pack].
  unfold swap12. Z.div_mod_to_equations. lia.
Qed.

Lemma swap12_range bits : 0 <= bits < 16777216 → 0 <= swap12 bits < 16777216.
Proof. intros Hb. unfold swap12. Z.div_mod_to_equations. lia. Qed.

Lemma or_in_rows out bits :
  0 <= bits < 16777216 →
  or_in out (drop 4 (digits 8 bits) ++ take 4 (digits 8 bits)) 0
  = Z.lor out (swap12 bits).
Proof.
  intros Hb. rewrite or_in_lor. f_equal.
  rewrite or_in_pack.
  - rewrite pack_rows_exchanged by done. lia.
  - done.
  - simpl. lia.
  - apply Forall_app. split.
    + apply Forall_drop, digits_range.
    + apply Forall_take, digits_range.
Qed.

Lemma byte_val_range b : 0 <= byte_val b < 256.
Proof.
  unfold byte_val. pose proof (Byte.to_N_bounded b). lia.
Qed.

Lemma byte_of_byte_val b : byte_of (byte_val b) = b.
Proof.
  unfold byte_of. rewrite Z.mod_small by apply byte_val_range.
  unfold byte_val. rewrite N2Z.id. by rewrite Byte.of_to_N.
Qed.

Lemma byte_of_eq z1 z2 : z1 mod 256 = z2 mod 256 → byte_of z1 = byte_of z2.
Proof. unfold byte_of. by intros ->. Qed.

(** A word of 24 low bits and one high byte, as it lies in memory. *)
Lemma le_bytes32_high low b :
  0 <= low < 16777216 →
  le_bytes32 (low + byte_val b * 16777216) = bytes24 low ++ [b].
Proof.
  intros Hlow. pose proof (byte_val_range b) as Hb.
  unfold le_bytes32, bytes24. cbn [app].
  f_equal; [|f_equal; [|f_equal; [|f_equal]]].
  - apply byte_of_eq. Z.div_mod_to_equations. lia.
  - apply byte_of_eq. Z.div_mod_to_equations. lia.
  - apply byte_of_eq. Z.div_mod_to_equations. lia.
  - rewrite <- (byte_of_byte_val b) at 2. apply byte_of_eq.
    Z.div_mod_to_equations. lia.
Qed.

Lemma le24_range b0 b1 b2 : 0 <= le32 b0 b1 b2 Byte.x00 < 16777216.
Proof.
  unfold le32.
  pose proof (byte_val_range b0). pose proof (byte_val_range b1).
  pose proof (byte_val_range b2).
  change (byte_val Byte.x00) with 0. lia.
Qed.

Lemma le32_split b0 b1 b2 b3 :
  le32 b0 b1 b2 b3 = le32 b0 b1 b2 Byte.x00 + byte_val b3 * 16777216.
Proof. unfold le32. change (byte_val Byte.x00) with 0. lia. Qed.

(** An [or] into the low 24 bits of a word leaves its high byte. *)
Lemma lor_low24 low b p :
  0 <= low < 16777216 → 0 <= p < 16777216 →
  Z.lor (low + byte_val b * 16777216) p
  = Z.lor low p + byte_val b * 16777216.
Proof.
  intros Hlow Hp.
  change 16777216 with (2 ^ 24) in *.
  rewrite <- (lor_add_shift low (byte_val b) 24) by (done || lia).
  rewrite <- Z.lor_assoc, (Z.lor_comm (Z.shiftl _ _)), Z.lor_assoc.
  apply lor_add_shift; [lia|]. by apply lor_small.
Qed.

(** The mask [0xff000000] keeps the high byte of a word. *)
Lemma land_high_byte low b :
  0 <= low < 16777216 →
  Z.land (low + byte_val b * 16777216) 0xff000000 = byte_val b * 16777216.
Proof.
  intros Hlow. pose proof (byte_val_range b) as Hb.
  change 16777216 with (2 ^ 24) in *.
  rewrite <- (lor_add_shift low (byte_val b) 24) by (done || lia).
  change 0xff000000 with (Z.shiftl 255 24).
  rewrite Z.land_lor_distr_l.
  rewrite land_shiftl_small by (done || lia).
  rewrite <- Z.shiftl_land.
  change 255 with (Z.ones 8). rewrite Z.land_ones by lia.
  rewrite Z.mod_small by (simpl; lia).
  by rewrite Z.lor_0_l, Z.shiftl_mul_pow2.
Qed.

Lemma lor_high_byte b p :
  0 <= p < 16777216 →
  Z.lor (byte_val b * 16777216) p = p + byte_val b * 16777216.
Proof.
  intros Hp. rewrite Z.lor_comm.
  change 16777216 with (2 ^ 24) in *.
  rewrite <- (Z.shiftl_mul_pow2 (byte_val b) 24) at 1 by lia.
  by apply lor_add_shift.
Qed.

End FlipAlpha.

Section FlipAlphaMem.
Import Flip.

Lemma read_after pre l k n :
  read (pre ++ l) (length pre + k) n = take n (drop k l).
Proof. unfold read. by rewrite drop_app_add. Qed.

Lemma write_after pre l k bs :
  write (pre ++ l) (length pre + k) bs
  = pre ++ take k l ++ bs ++ drop (k + length bs) l.
Proof.
  unfold write. rewrite take_app_add, <- Nat.add_assoc, drop_app_add.
  by rewrite <- app_assoc.
Qed.

(** What [flipDXT5Alpha] leaves in the six bytes of codes: the second
    half holds the rows of the first half, exchanged; the first half
    holds the rows of the second half, exchanged, on top of what was
    there, which is not cleared. *)
Lemma flipDXT5Alpha_block pre a0 a1 r0 r1 r2 r3 r4 r5 next post :
  flipDXT5Alpha (pre ++ [a0; a1; r0; r1; r2; r3; r4; r5; next] ++ post)
    (length pre)
  = Some (pre ++ [a0; a1]
          ++ bytes24 (Z.lor (le32 r0 r1 r2 Byte.x00)
                        (swap12 (le32 r3 r4 r5 Byte.x00)))
          ++ bytes24 (swap12 (le32 r0 r1 r2 Byte.x00))
          ++ [next] ++ post).
Proof.
  pose proof (le24_range r0 r1 r2) as Hlo.
  pose proof (le24_range r3 r4 r5) as Hhi.
  pose proof (swap12_range _ Hlo) as Hslo.
  pose proof (swap12_range _ Hhi) as Hshi.
  unfold flipDXT5Alpha, read24, read32, write32.
  rewrite !read_after. cbn [app take drop mbind option_bind].
  rewrite (or_in_rows (le32 r0 r1 r2 r3) _ Hhi).
  rewrite (le32_split r0 r1 r2 r3), lor_low24 by done.
  rewrite le_bytes32_high by (by apply (lor_small _ _ 24)).
  rewrite write_after. unfold bytes24.
  cbn [app take drop length Nat.add].
  rewrite read_after. cbn [app take drop mbind option_bind].
  rewrite take_0. cbn [mbind option_bind].
  rewrite (or_in_rows _ _ Hlo).
  rewrite (le32_split r3 r4 r5 next), land_high_byte by done.
  rewrite lor_high_byte by done.
  rewrite le_bytes32_high by done.
  rewrite write_after. unfold bytes24.
  cbn [app take drop length Nat.add].
  reflexivity.
Qed.

End FlipAlphaMem.

Section FlipLines.
Import Flip.

Lemma length_16 {A} (b : list A) :
  length b = 16%nat →
  ∃ x0 x1 x2 x3 x4 x5 x6 x7 y0 y1 y2 y3 y4 y5 y6 y7,
    b = [x0; x1; x2; x3; x4; x5; x6; x7; y0; y1; y2; y3; y4; y5; y6; y7].
Proof.
  intros Hlen.
  do 16 (destruct b as [|? b]; [done|]). destruct b; [|done].
  by eexists _, _, _, _, _, _, _, _, _, _, _, _, _, _, _, _.
Qed.

(** The rows of one alpha block of DXT3, reversed by the two swaps. *)
Lemma flip_alpha3_rows {A} (k : memory → option A)
    pre a0 a1 a2 a3 a4 a5 a6 a7 post :
  (mem ← swapMemory (pre ++ [a0; a1; a2; a3; a4; a5; a6; a7] ++ post)
           (length pre + 0) (length pre + 6) 2;
   mem ← swapMemory mem (length pre + 2) (length pre + 4) 2;
   k mem)
  = k (pre ++ [a6; a7; a4; a5; a2; a3; a0; a1] ++ post).
Proof.
  replace (pre ++ [a0; a1; a2; a3; a4; a5; a6; a7] ++ post)
    with (pre ++ [a0; a1] ++ [a2; a3; a4; a5] ++ [a6; a7] ++ post) by done.
  rewrite (swapMemory_units pre [a0; a1] [a2; a3; a4; a5] [a6; a7] post);
    [|done|simpl; lia..|done].
  cbn [mbind option_bind].
  replace (pre ++ [a6; a7] ++ [a2; a3; a4; a5] ++ [a0; a1] ++ post)
    with ((pre ++ [a6; a7]) ++ [a2; a3] ++ [] ++ [a4; a5] ++ a0 :: a1 :: post)
    by (by rewrite <- !app_assoc).
  rewrite (swapMemory_units (pre ++ [a6; a7]) [a2; a3] [] [a4; a5]
             (a0 :: a1 :: post));
    [|done|rewrite length_app; simpl; lia..|done].
  cbn [mbind option_bind]. by rewrite <- !app_assoc.
Qed.

Lemma flipBlockDXTC3_blocks blocks pre post :
  blocks_of 16 blocks →
  flipBlockDXTC3_from (length blocks) (pre ++ mjoin blocks ++ post) (length pre)
  = Some (pre ++ mjoin (flip_block3 <$> blocks) ++ post).
Proof.
  revert pre. induction blocks as [|b blocks IH]; intros pre Hb; [done|].
  apply Forall_cons in Hb as [Hlen Hb].
  destruct (length_16 b Hlen)
    as (a0 & a1 & a2 & a3 & a4 & a5 & a6 & a7
        & c0 & c1 & c2 & c3 & r0 & r1 & r2 & r3 & ->).
  cbn [length flipBlockDXTC3_from mjoin list_join fmap list_fmap].
  change (flip_block3 [a0; a1; a2; a3; a4; a5; a6; a7;
                       c0; c1; c2; c3; r0; r1; r2; r3])
    with ([a6; a7; a4; a5; a2; a3; a0; a1] ++ [c0; c1; c2; c3; r3; r2; r1; r0]).
  replace (pre ++ ([a0; a1; a2; a3; a4; a5; a6; a7;
                    c0; c1; c2; c3; r0; r1; r2; r3] ++ mjoin blocks) ++ post)
    with (pre ++ [a0; a1; a2; a3; a4; a5; a6; a7]
          ++ ([c0; c1; c2; c3; r0; r1; r2; r3] ++ mjoin blocks ++ post))
    by (by rewrite <- !app_assoc).
  rewrite flip_alpha3_rows.
  replace (pre ++ [a6; a7; a4; a5; a2; a3; a0; a1]
           ++ [c0; c1; c2; c3; r0; r1; r2; r3] ++ mjoin blocks ++ post)
    with ((pre ++ [a6; a7; a4; a5; a2; a3; a0; a1])
          ++ [c0; c1; c2; c3; r0; r1; r2; r3] ++ mjoin blocks ++ post)
    by (by rewrite <- !app_assoc).
  replace (length pre + 8)%nat
    with (length (pre ++ [a6; a7; a4; a5; a2; a3; a0; a1]))
    by (rewrite length_app; simpl; lia).
  rewrite flip_colour_rows.
  replace ((pre ++ [a6; a7; a4; a5; a2; a3; a0; a1])
           ++ [c0; c1; c2; c3; r3; r2; r1; r0] ++ mjoin blocks ++ post)
    with ((pre ++ [a6; a7; a4; a5; a2; a3; a0; a1]
               ++ [c0; c1; c2; c3; r3; r2; r1; r0]) ++ mjoin blocks ++ post)
    by (by rewrite <- !app_assoc).
  replace (length (pre ++ [a6; a7; a4; a5; a2; a3; a0; a1]) + 8)%nat
    with (length (pre ++ [a6; a7; a4; a5; a2; a3; a0; a1]
                      ++ [c0; c1; c2; c3; r3; r2; r1; r0]))
    by (rewrite !length_app; simpl; lia).
  rewrite IH by done. by rewrite <- !app_assoc.
Qed.

Lemma flipBlockDXTC5_blocks blocks pre post :
  blocks_of 16 blocks →
  flipBlockDXTC5_from (length blocks) (pre ++ mjoin blocks ++ post) (length pre)
  = Some (pre ++ mjoin (flip_block5 <$> blocks) ++ post).
Proof.
  revert pre. induction blocks as [|b blocks IH]; intros pre Hb; [done|].
  apply Forall_cons in Hb as [Hlen Hb].
  destruct (length_16 b Hlen)
    as (a0 & a1 & a2 & a3 & a4 & a5 & a6 & a7
        & c0 & c1 & c2 & c3 & r0 & r1 & r2 & r3 & ->).
  cbn [length flipBlockDXTC5_from mjoin list_join fmap list_fmap].
  set (alpha := flip_alpha5 [a0; a1; a2; a3; a4; a5; a6; a7]).
  assert (length alpha = 8%nat) as Halpha by done.
  change (flip_block5 [a0; a1; a2; a3; a4; a5; a6; a7;
                       c0; c1; c2; c3; r0; r1; r2; r3])
    with (alpha ++ [c0; c1; c2; c3; r3; r2; r1; r0]).
  replace (pre ++ ([a0; a1; a2; a3; a4; a5; a6; a7;
                    c0; c1; c2; c3; r0; r1; r2; r3] ++ mjoin blocks) ++ post)
    with (pre ++ [a0; a1; a2; a3; a4; a5; a6; a7; c0]
          ++ ([c1; c2; c3; r0; r1; r2; r3] ++ mjoin blocks ++ post))
    by (by rewrite <- !app_assoc).
  rewrite flipDXT5Alpha_block. cbn [mbind option_bind].
  match goal with
  | |- context [swapMemory ?m (length pre + 8 + 4)] =>
      replace m
        with ((pre ++ alpha)
              ++ [c0; c1; c2; c3; r0; r1; r2; r3] ++ mjoin blocks ++ post)
        by (subst alpha; unfold flip_alpha5; by rewrite <- !app_assoc)
  end.
  replace (length pre + 8)%nat with (length (pre ++ alpha))
    by (rewrite length_app; lia).
  rewrite flip_colour_rows.
  replace ((pre ++ alpha)
           ++ [c0; c1; c2; c3; r3; r2; r1; r0] ++ mjoin blocks ++ post)
    with ((pre ++ alpha ++ [c0; c1; c2; c3; r3; r2; r1; r0])
          ++ mjoin blocks ++ post)
    by (by rewrite <- !app_assoc).
  replace (length (pre ++ alpha) + 8)%nat
    with (length (pre ++ alpha ++ [c0; c1; c2; c3; r3; r2; r1; r0]))
    by (rewrite !length_app; simpl; lia).
  rewrite IH by done. by rewrite <- !app_assoc.
Qed.

End FlipLines.

Section FlipSurface.
Import Flip.

Lemma swapMemory_units_back pre x mid y post p1 p2 size :
  length x = length y →
  p1 = (length pre + length x + length mid)%nat →
  p2 = length pre →
  size = Z.of_nat (length x) →
  swapMemory (pre ++ x ++ mid ++ y ++ post) p1 p2 size
  = Some (pre ++ y ++ mid ++ x ++ post).
Proof. intros Hlen -> -> ->. by apply swapMemory_chunks_back. Qed.

Lemma length_blocks size (blocks : list (list Byte.byte)) :
  blocks_of size blocks → length (mjoin blocks) = (length blocks * size)%nat.
Proof.
  induction 1 as [|b blocks Hb _ IH]; [done|].
  change (mjoin (b :: blocks)) with (b ++ mjoin blocks).
  rewrite length_app, IH, Hb. simpl. lia.
Qed.

Lemma blocks_of_fmap size f (blocks : list (list Byte.byte)) :
  (∀ b, length b = size → length (f b) = size) →
  blocks_of size blocks → blocks_of size (f <$> blocks).
Proof.
  intros Hf Hb. apply Forall_fmap. eapply Forall_impl; [exact Hb|]. done.
Qed.

Lemma length_bytes_of size X (lines : list (list (list Byte.byte))) :
  Forall (λ line, length line = X ∧ blocks_of size line) lines →
  length (bytes_of lines) = (length lines * (X * size))%nat.
Proof.
  unfold bytes_of.
  induction 1 as [|line lines [HX Hb] _ IH]; [done|].
  change (mjoin (mjoin <$> line :: lines))
    with (mjoin line ++ mjoin (mjoin <$> lines)).
  rewrite length_app, IH, (length_blocks size) by done. simpl. lia.
Qed.

Lemma bytes_of_cons line lines :
  bytes_of (line :: lines) = mjoin line ++ bytes_of lines.
Proof. done. Qed.

Lemma bytes_of_snoc lines line :
  bytes_of (lines ++ [line]) = bytes_of lines ++ mjoin line.
Proof.
  unfold bytes_of. rewrite fmap_app, join_app. simpl. by rewrite app_nil_r.
Qed.

(** The loop of [flipCompressedTexture] over a surface given by its
    lines: with fuel for half of them it returns, with the lines
    mirrored. *)
Lemma flip_lines_mirror size flip f X fuel lines before after :
  flips_blocks size flip f →
  (∀ b, length b = size → length (f b) = size) →
  (0 < X * size)%nat →
  Forall (λ line, length line = X ∧ blocks_of size line) lines →
  (length lines ≤ 2 * fuel + 1)%nat →
  flip_lines fuel flip (Z.of_nat X) (Z.of_nat (X * size))
    (Z.of_nat (length before))
    (Z.of_nat (length before)
     + (Z.of_nat (length lines) - 1) * Z.of_nat (X * size))
    (before ++ bytes_of lines ++ after)
  = Some (before ++ bytes_of (mirror fuel (fmap f) lines) ++ after).
Proof.
  intros Hflip Hf HL. revert lines before after.
  induction fuel as [|fuel IH]; intros lines before after Hlines Hfuel.
  { cbn [flip_lines mirror].
    destruct (Z.ltb_spec (Z.of_nat (length before))
                (Z.of_nat (length before)
                 + (Z.of_nat (length lines) - 1) * Z.of_nat (X * size)));
      [nia|done]. }
  cbn [flip_lines].
  destruct (Z.ltb_spec (Z.of_nat (length before))
              (Z.of_nat (length before)
               + (Z.of_nat (length lines) - 1) * Z.of_nat (X * size)))
    as [Hlt|Hge].
  2:{ assert (length lines ≤ 1)%nat as Hshort by nia.
      destruct lines as [|T [|? ?]]; simpl in Hshort; try lia; done. }
  assert (2 ≤ length lines)%nat as Hlong by nia.
  destruct lines as [|T rest]; [simpl in Hlong; lia|].
  destruct (last rest) as [B|] eqn:Hlast.
  2:{ apply last_None in Hlast as ->. simpl in Hlong. lia. }
  apply last_Some in Hlast as (mid & ->).
  apply Forall_cons in Hlines as [[HT HTb] Hlines].
  apply Forall_app in Hlines as [Hmid HB].
  apply Forall_singleton in HB as [HB HBb].
  destruct (Z.ltb_spec (Z.of_nat (length before)) 0); [lia|].
  cbn [mirror]. rewrite last_snoc.
  replace (take (length (mid ++ [B]) - 1) (mid ++ [B])) with mid
    by (rewrite length_app; simpl;
        replace (length mid + 1 - 1)%nat with (length mid) by lia;
        by rewrite take_app_length).
  rewrite !bytes_of_cons, !bytes_of_snoc, <- !app_assoc.
  pose proof (length_blocks size T HTb) as HlenT.
  pose proof (length_blocks size B HBb) as HlenB.
  pose proof (length_blocks size _ (blocks_of_fmap size f T Hf HTb)) as HlenT'.
  pose proof (length_blocks size _ (blocks_of_fmap size f B Hf HBb)) as HlenB'.
  rewrite length_fmap in HlenT', HlenB'.
  pose proof (length_bytes_of size X mid Hmid) as Hlenmid.
  (* the top line *)
  rewrite Nat2Z.id. rewrite <- HT at 1.
  rewrite Hflip by done. cbn [mbind option_bind].
  (* the bottom line *)
  replace (before ++ mjoin (f <$> T) ++ bytes_of mid ++ mjoin B ++ after)
    with ((before ++ mjoin (f <$> T) ++ bytes_of mid) ++ mjoin B ++ after)
    by (by rewrite <- !app_assoc).
  replace (Z.to_nat (Z.of_nat (length before)
                     + (Z.of_nat (length (T :: mid ++ [B])) - 1)
                       * Z.of_nat (X * size)))
    with (length (before ++ mjoin (f <$> T) ++ bytes_of mid))
    by (rewrite !length_app, HlenT', Hlenmid; simpl length;
        rewrite length_app; simpl length; nia).
  rewrite <- HB at 1.
  rewrite Hflip by done. cbn [mbind option_bind].
  (* the two lines exchanged *)
  rewrite <- !app_assoc.
  rewrite (swapMemory_units_back before (mjoin (f <$> T)) (bytes_of mid)
             (mjoin (f <$> B)) after);
    [|lia|rewrite !length_app, HlenT', Hlenmid; lia|done|rewrite HlenT'; lia].
  cbn [mbind option_bind].
  (* the lines between them *)
  replace (before ++ mjoin (f <$> B) ++ bytes_of mid ++ mjoin (f <$> T) ++ after)
    with ((before ++ mjoin (f <$> B)) ++ bytes_of mid
          ++ (mjoin (f <$> T) ++ after))
    by (by rewrite <- !app_assoc).
  replace (Z.of_nat (length before) + Z.of_nat (X * size))
    with (Z.of_nat (length (before ++ mjoin (f <$> B))))
    by (rewrite length_app, HlenB'; lia).
  replace (Z.of_nat (length before)
           + (Z.of_nat (length (T :: mid ++ [B])) - 1) * Z.of_nat (X * size)
           - Z.of_nat (X * size))
    with (Z.of_nat (length (before ++ mjoin (f <$> B)))
          + (Z.of_nat (length mid) - 1) * Z.of_nat (X * size))
    by (rewrite !length_app, HlenB'; simpl length;
        rewrite length_app; simpl length; nia).
  rewrite IH.
  - by rewrite <- !app_assoc.
  - done.
  - simpl in Hfuel. rewrite length_app in Hfuel. simpl in Hfuel. lia.
Qed.

End FlipSurface.

Section FlipTheorems.
Import Flip.

Lemma to_int_range z : -2147483648 <= z <= INT_MAX → to_int z = z.
Proof.
  unfold to_int, INT_MAX. intros Hz. rewrite Z.mod_small by lia. lia.
Qed.

Lemma flip_colour_length b : length b = 8%nat → length (flip_colour b) = 8%nat.
Proof.
  intros (? & ? & ? & ? & ? & ? & ? & ? & ->)%length_8. done.
Qed.

Lemma flip_colour_twice b : length b = 8%nat → flip_colour (flip_colour b) = b.
Proof.
  intros (? & ? & ? & ? & ? & ? & ? & ? & ->)%length_8. done.
Qed.

Lemma flip_block3_length b : length b = 16%nat → length (flip_block3 b) = 16%nat.
Proof.
  intros (? & ? & ? & ? & ? & ? & ? & ? & ? & ? & ? & ? & ? & ? & ? & ? & ->)%length_16.
  done.
Qed.

Lemma flip_block3_twice b : length b = 16%nat → flip_block3 (flip_block3 b) = b.
Proof.
  intros (? & ? & ? & ? & ? & ? & ? & ? & ? & ? & ? & ? & ? & ? & ? & ? & ->)%length_16.
  done.
Qed.

Lemma flip_block5_length b : length b = 16%nat → length (flip_block5 b) = 16%nat.
Proof.
  intros (? & ? & ? & ? & ? & ? & ? & ? & ? & ? & ? & ? & ? & ? & ? & ? & ->)%length_16.
  done.
Qed.

Lemma flipBlockDXTC1_flips : flips_blocks 8 flipBlockDXTC1 flip_block1.
Proof.
  intros pre blocks post Hb. unfold flipBlockDXTC1. rewrite Nat2Z.id.
  by apply flipBlockDXTC1_blocks.
Qed.

Lemma flipBlockDXTC3_flips : flips_blocks 16 flipBlockDXTC3 flip_block3.
Proof.
  intros pre blocks post Hb. unfold flipBlockDXTC3. rewrite Nat2Z.id.
  by apply flipBlockDXTC3_blocks.
Qed.

Lemma flipBlockDXTC5_flips : flips_blocks 16 flipBlockDXTC5 flip_block5.
Proof.
  intros pre blocks post Hb. unfold flipBlockDXTC5. rewrite Nat2Z.id.
  by apply flipBlockDXTC5_blocks.
Qed.

(** The [switch] picks, for each format, the block size and the
    function that does to every block what [block_flip] says. *)
Lemma flip_of_block_flip format size f :
  block_flip format = Some (size, f) →
  ∃ flip,
    flip_of format = Some (Z.of_nat size, flip)
    ∧ flips_blocks size flip f
    ∧ (∀ b, length b = size → length (f b) = size)
    ∧ (0 < size)%nat.
Proof.
  unfold block_flip, flip_of.
  destruct (_ || _).
  { intros [= <- <-]. exists flipBlockDXTC1.
    split; [done|]. split; [apply flipBlockDXTC1_flips|].
    split; [apply flip_colour_length|lia]. }
  destruct (_ || _).
  { intros [= <- <-]. exists flipBlockDXTC3.
    split; [done|]. split; [apply flipBlockDXTC3_flips|].
    split; [apply flip_block3_length|lia]. }
  destruct (_ || _); [|done].
  intros [= <- <-]. exists flipBlockDXTC5.
  split; [done|]. split; [apply flipBlockDXTC5_flips|].
  split; [apply flip_block5_length|lia].
Qed.

Lemma flipCompressedTexture_lines w h format size f X Y lines after :
  block_flip format = Some (size, f) →
  Z.shiftr w 2 = Z.of_nat X →
  Z.shiftr h 2 = Z.of_nat Y →
  (1 ≤ X)%nat →
  surface_of size X Y lines →
  Z.of_nat (X * size) <= INT_MAX →
  Z.of_nat (Y * (X * size)) <= INT_MAX →
  flipCompressedTexture w h format (bytes_of lines ++ after)
  = Flipped (bytes_of (mirror Y (fmap f) lines) ++ after).
Proof.
  intros Hformat Hw Hh HX [HY Hlines] Hline Hsurface.
  destruct (flip_of_block_flip _ _ _ Hformat) as (flip & Hflip & Hspec & Hlen & Hsize).
  unfold flipCompressedTexture. rewrite Hflip, Hw, Hh.
  replace (Z.of_nat X * Z.of_nat size) with (Z.of_nat (X * size)) by lia.
  rewrite (to_int_range (Z.of_nat (X * size))) by (unfold INT_MAX in *; lia).
  rewrite to_int_range by (unfold INT_MAX in *; nia).
  rewrite Nat2Z.id.
  pose proof (flip_lines_mirror size flip f X Y lines [] after Hspec Hlen)
    as Hloop.
  cbn [app length] in Hloop. rewrite HY in Hloop.
  change (Z.of_nat 0) with 0 in Hloop. rewrite Z.add_0_l in Hloop.
  rewrite Hloop; [done|nia|done|lia].
Qed.

Lemma mirror_length {A} fuel (g : A → A) lines :
  length (mirror fuel g lines) = length lines.
Proof.
  revert lines. induction fuel as [|fuel IH]; intros lines; [done|].
  destruct lines as [|T rest]; [done|]. cbn [mirror].
  destruct (last rest) as [B|] eqn:Hlast.
  - apply last_Some in Hlast as (mid & ->).
    cbn [length]. rewrite !length_app, IH, length_take, length_app.
    simpl. lia.
  - by apply last_None in Hlast as ->.
Qed.

Lemma mirror_Forall {A} (P : A → Prop) fuel (g : A → A) lines :
  (∀ x, P x → P (g x)) → Forall P lines → Forall P (mirror fuel g lines).
Proof.
  intros Hg. revert lines. induction fuel as [|fuel IH]; intros lines Hl; [done|].
  destruct lines as [|T rest]; [done|]. cbn [mirror].
  apply Forall_cons in Hl as [HT Hrest].
  destruct (last rest) as [B|] eqn:Hlast.
  - apply last_Some in Hlast as (mid & ->).
    apply Forall_app in Hrest as [Hmid HB].
    rewrite Forall_singleton in HB.
    apply Forall_cons. split; [by apply Hg|].
    apply Forall_app. split; [|by apply Forall_singleton, Hg].
    apply IH, Forall_take, Forall_app. split; [done|by apply Forall_singleton].
  - by apply Forall_singleton.
Qed.

Lemma mirror_twice {A} fuel (g : A → A) lines :
  Forall (λ x, g (g x) = x) lines →
  mirror fuel g (mirror fuel g lines) = lines.
Proof.
  revert lines. induction fuel as [|fuel IH]; intros lines Hl; [done|].
  destruct lines as [|T rest]; [done|]. cbn [mirror].
  apply Forall_cons in Hl as [HT Hrest].
  destruct (last rest) as [B|] eqn:Hlast.
  - apply last_Some in Hlast as (mid & ->).
    apply Forall_app in Hrest as [Hmid HB].
    rewrite Forall_singleton in HB.
    replace (take (length (mid ++ [B]) - 1) (mid ++ [B])) with mid
      by (rewrite length_app; simpl;
          replace (length mid + 1 - 1)%nat with (length mid) by lia;
          by rewrite take_app_length).
    cbn [mirror]. rewrite last_snoc.
    replace (take (length (mirror fuel g mid ++ [g T]) - 1)
               (mirror fuel g mid ++ [g T])) with (mirror fuel g mid)
      by (rewrite length_app; simpl;
          replace (length (mirror fuel g mid) + 1 - 1)%nat
            with (length (mirror fuel g mid)) by lia;
          by rewrite take_app_length).
    by rewrite IH, HT, HB.
  - apply last_None in Hlast as ->. done.
Qed.

End FlipTheorems.

Section FlipSurfaceResults.
Import Flip.

(** X21.  [flipBlockDXTC1] reverses the four rows of every block of
    the line and leaves the colours of the blocks and the bytes around
    the line as they are; a second call gives the line back. *)
Theorem flipBlockDXTC1_reverses_rows
    (pre : list Byte.byte) (blocks : list (list Byte.byte))
    (post : list Byte.byte) :
  blocks_of 8 blocks →
  flipBlockDXTC1 (pre ++ mjoin blocks ++ post) (length pre)
    (Z.of_nat (length blocks))
  = Some (pre ++ mjoin (flip_colour <$> blocks) ++ post)
  ∧ flipBlockDXTC1 (pre ++ mjoin (flip_colour <$> blocks) ++ post)
      (length pre) (Z.of_nat (length blocks))
    = Some (pre ++ mjoin blocks ++ post).
Proof.
  intros Hb. split; [by apply flipBlockDXTC1_flips|].
  rewrite <- (length_fmap flip_colour blocks) at 1.
  rewrite flipBlockDXTC1_flips
    by (apply blocks_of_fmap; [apply flip_colour_length|done]).
  do 4 f_equal. rewrite <- list_fmap_compose.
  rewrite <- (list_fmap_id blocks) at 2.
  apply Forall_fmap_ext_1. eapply Forall_impl; [exact Hb|].
  intros b Hlen. by apply flip_colour_twice.
Qed.

(** X22.  [flipBlockDXTC3] reverses the four 16-bit rows of the alpha
    part and the four rows of the colour part of every block of the
    line, and nothing else; a second call gives the line back. *)
Theorem flipBlockDXTC3_reverses_rows
    (pre : list Byte.byte) (blocks : list (list Byte.byte))
    (post : list Byte.byte) :
  blocks_of 16 blocks →
  flipBlockDXTC3 (pre ++ mjoin blocks ++ post) (length pre)
    (Z.of_nat (length blocks))
  = Some (pre ++ mjoin (flip_block3 <$> blocks) ++ post)
  ∧ flipBlockDXTC3 (pre ++ mjoin (flip_block3 <$> blocks) ++ post)
      (length pre) (Z.of_nat (length blocks))
    = Some (pre ++ mjoin blocks ++ post).
Proof.
  intros Hb. split; [by apply flipBlockDXTC3_flips|].
  rewrite <- (length_fmap flip_block3 blocks) at 1.
  rewrite flipBlockDXTC3_flips
    by (apply blocks_of_fmap; [apply flip_block3_length|done]).
  do 4 f_equal. rewrite <- list_fmap_compose.
  rewrite <- (list_fmap_id blocks) at 2.
  apply Forall_fmap_ext_1. eapply Forall_impl; [exact Hb|].
  intros b Hlen. by apply flip_block3_twice.
Qed.

(** X23.  [flipDXT5Alpha] on an alpha block that is followed by one
    more byte: the two alpha values, the byte after the block and all
    around stay; the second three bytes of codes become the first three
    with their two rows of 12 bits exchanged; the first three bytes
    become the second three with their rows exchanged, or-ed onto what
    the first three held, of which no bit is cleared. *)
Theorem flipDXT5Alpha_rows
    (pre : list Byte.byte) (a0 a1 r0 r1 r2 r3 r4 r5 next : Byte.byte)
    (post : list Byte.byte) :
  let low := le32 r0 r1 r2 Byte.x00 in
  let high := le32 r3 r4 r5 Byte.x00 in
  ∃ low' high',
    flipDXT5Alpha (pre ++ [a0; a1; r0; r1; r2; r3; r4; r5; next] ++ post)
      (length pre)
    = Some (pre ++ [a0; a1] ++ bytes24 low' ++ bytes24 high' ++ [next] ++ post)
    ∧ high' = swap12 low
    ∧ low' = Z.lor low (swap12 high)
    ∧ Z.land low low' = low.
Proof.
  intros low high. exists (Z.lor low (swap12 high)), (swap12 low).
  split; [apply flipDXT5Alpha_block|]. split; [done|]. split; [done|].
  apply Z.bits_inj'. intros n _.
  rewrite Z.land_spec, Z.lor_spec. by destruct (Z.testbit low n).
Qed.

(** X24.  [flipCompressedTexture] on a surface of [Y] lines of [X]
    blocks: it returns, and the surface holds the lines in reverse
    order, every line that moved with the rows of its blocks flipped
    as its format has it; the middle line of an odd number of lines
    stays as it is, rows unflipped; what follows the surface stays. *)
Theorem flipCompressedTexture_mirrors
    (w h format : Z) (size : nat) (f : list Byte.byte → list Byte.byte)
    (X Y : nat) (lines : list (list (list Byte.byte)))
    (after : list Byte.byte) :
  block_flip format = Some (size, f) →
  Z.shiftr w 2 = Z.of_nat X →
  Z.shiftr h 2 = Z.of_nat Y →
  (1 ≤ X)%nat →
  surface_of size X Y lines →
  Z.of_nat (X * size) <= INT_MAX →
  Z.of_nat (Y * (X * size)) <= INT_MAX →
  flipCompressedTexture w h format (bytes_of lines ++ after)
  = Flipped (bytes_of (mirror Y (fmap f) lines) ++ after).
Proof. apply flipCompressedTexture_lines. Qed.

(** X25.  For the DXT1 and DXT3 formats, whose flips exchange whole
    bytes, [flipCompressedTexture] is its own inverse: a second call
    gives the surface back. *)
Theorem flipCompressedTexture_twice
    (w h format : Z) (size : nat) (f : list Byte.byte → list Byte.byte)
    (X Y : nat) (lines : list (list (list Byte.byte)))
    (after : list Byte.byte) :
  format ∈ byte_formats →
  block_flip format = Some (size, f) →
  Z.shiftr w 2 = Z.of_nat X →
  Z.shiftr h 2 = Z.of_nat Y →
  (1 ≤ X)%nat →
  surface_of size X Y lines →
  Z.of_nat (X * size) <= INT_MAX →
  Z.of_nat (Y * (X * size)) <= INT_MAX →
  ∃ flipped,
    flipCompressedTexture w h format (bytes_of lines ++ after)
    = Flipped flipped
    ∧ flipCompressedTexture w h format flipped
      = Flipped (bytes_of lines ++ after).
Proof.
  intros Hbyte Hformat Hw Hh HX Hsurface Hline Hall.
  assert ((∀ b, length b = size → length (f b) = size)
          ∧ (∀ b, length b = size → f (f b) = b)) as [Hlen Htwice].
  { unfold byte_formats in Hbyte.
    repeat (apply elem_of_cons in Hbyte as [->|Hbyte]);
      [..|by apply elem_of_nil in Hbyte];
      vm_compute in Hformat; injection Hformat as <- <-;
      first [ split; [apply flip_colour_length|apply flip_colour_twice]
            | split; [apply flip_block3_length|apply flip_block3_twice] ]. }
  exists (bytes_of (mirror Y (fmap f) lines) ++ after).
  split; [by apply (flipCompressedTexture_lines w h format size f X Y)|].
  assert (surface_of size X Y (mirror Y (fmap f) lines)) as Hmirrored.
  { destruct Hsurface as [HY Hlines].
    split; [by rewrite mirror_length|].
    apply mirror_Forall; [|done].
    intros line [HlX Hbl]. split;
      [by rewrite length_fmap|by apply blocks_of_fmap]. }
  rewrite (flipCompressedTexture_lines w h format size f X Y) by done.
  destruct Hsurface as [HY Hlines].
  rewrite mirror_twice; [done|].
  eapply Forall_impl; [exact Hlines|].
  intros line [_ Hbl]. rewrite <- list_fmap_compose.
  rewrite <- (list_fmap_id line) at 2.
  apply Forall_fmap_ext_1. eapply Forall_impl; [exact Hbl|].
  intros b Hb. by apply Htwice.
Qed.

End FlipSurfaceResults.

(* ================================================================== *)
(** ** Entry points: the thread check, and [useProgram] as a whole *)

Section EntryExtra.
Context `{Platform}.

Lemma for_each_upload_calls l d d' :
  for_each upload_uniform l d = Ret () d' →
  ∃ calls,
    d' = add_log (call_event <$> calls) d
    ∧ Forall2 (uploads d) l calls.
Proof.
  revert d. induction l as [|pu l IH]; intros d; simpl.
  - intros [= <-]. exists []. split; [by rewrite add_log_nil|constructor].
  - unfold bind. rewrite upload_uniform_call.
    destruct (pool_get (g_uniforms d) (Program.uniform pu)) as [u|] eqn:Hu;
      [|done].
    destruct (upload_call _ _ _ _) as [c|] eqn:Hc; [|done].
    intros (calls & -> & Hcalls)%IH.
    exists (c :: calls). rewrite add_log_add_log. split; [done|].
    constructor; [by exists u|done].
Qed.

(** X26.  A [useProgram] of a valid handle that returns has made
    [glUseProgram] of the program in the slot and then, for the entries
    of its table in order, one upload call each, chosen by the type of
    the uniform slot of the entry, with its location, count and data;
    nothing but the log has changed. *)
Theorem useProgram_uploads_table (handle : Z) (d d' : Device) :
  ProgramHandle_isValid handle = true →
  useProgram handle d = Ret () d' →
  ∃ prg calls,
    pool_get (g_programs d) handle = Some prg
    ∧ d' = add_log (call_event
                    <$> glUseProgram (Program.handle prg) :: calls) d
    ∧ Forall2 (uploads d) (Program.uniforms prg) calls.
Proof.
  intros Hvalid. unfold useProgram. rewrite Hvalid. cbn [negb].
  unfold get_device, defined, gl_, emit, modify, bind, ret, fault.
  destruct (pool_get (g_programs d) handle) as [prg|]; [|done].
  intros (calls & -> & Hcalls)%for_each_upload_calls.
  exists prg, calls. split; [done|]. rewrite add_log_add_log.
  split; [done|]. done.
Qed.

Lemma extends_weaken {A} (P Q : event → Prop) (m : M A) :
  (∀ e, P e → Q e) → respects (extends P) m → respects (extends Q) m.
Proof.
  intros HPQ Hm d. destruct (Hm d) as (evs & Hlog & HP).
  exists evs. split; [done|]. by eapply Forall_impl.
Qed.

Lemma checkThread_then {A} (rest : M A) :
  respects (extends (λ _, True)) rest →
  checks_thread_first (checkThread;; rest).
Proof.
  intros Hrest d.
  destruct (Hrest (add_log [EvAssert (g_thread d =? GetCurrentThreadId)] d))
    as (evs & Hlog & _).
  exists evs. unfold checkThread, ASSERT, emit, modify, get_device, bind.
  rewrite Hlog, g_log_add_log. by rewrite <- app_assoc.
Qed.

Lemma load_sides_appends hdr li texture fmt mips (cube : bool) sides blob :
  respects (extends (λ _, True))
    (load_sides hdr li texture fmt mips cube sides blob).
Proof.
  intros d.
  pose proof (load_sides_outcome hdr li texture fmt mips cube sides blob d)
    as Hs.
  destruct (load_sides _ _ _ _ _ _ _ _ _) as [[] d1|d1]; simpl in *; [| |done].
  - destruct Hs as (evs & -> & _). exists evs.
    split; [done|]. by apply Forall_forall.
  - destruct Hs as (mid & -> & _). eexists.
    split; [done|]. by apply Forall_forall.
Qed.

(** X27.  Each of these entry points starts with [checkThread]:
    whatever its arguments and the state, and whether it returns or
    not, the first event it leaves is the assertion that the calling
    thread is the one that [init] recorded. *)
Theorem entry_points_check_thread_first :
  (∀ x y w h, checks_thread_first (viewport x y w h))
  ∧ (∀ x y w h, checks_thread_first (scissor x y w h))
  ∧ (∀ indices_count, checks_thread_first (drawTriangles indices_count))
  ∧ (∀ program, checks_thread_first (destroy_program program))
  ∧ (∀ texture, checks_thread_first (destroy_texture texture))
  ∧ (∀ s uniform, checks_thread_first (run_setter s uniform))
  ∧ (∀ srcs types num prefixes prefixes_count name,
       checks_thread_first
         (createProgram srcs types num prefixes prefixes_count name))
  ∧ (∀ handle blob flags want_info,
       checks_thread_first (loadTexture handle blob flags want_info)).
Proof.
  repeat split; intros.
  - apply checkThread_then. by apply extends_gl_.
  - apply checkThread_then. by apply extends_gl_.
  - apply checkThread_then. by apply extends_gl_.
  - apply checkThread_then.
    respects_with ltac:(by apply extends_gl_).
  - apply checkThread_then.
    respects_with ltac:(first [by apply extends_gl_ | by apply extends_modify]).
  - rewrite run_setter_set_uniform. apply checkThread_then. unfold ASSERT.
    respects_with ltac:(first [by apply extends_emit | by apply extends_modify]).
  - apply checkThread_then. unfold ASSERT, log_error.
    respects_with ltac:(first
      [ by apply extends_emit | by apply extends_gl
      | apply (extends_weaken not_program_call);
          [done|apply compile_stages_no_program_call]
      | apply (extends_weaken no_failure);
          [done|apply link_and_reflect_no_failure] ]).
  - apply checkThread_then. unfold read_blob, log_error.
    respects_with ltac:(first
      [ by apply extends_emit | by apply extends_gl | by apply extends_modify
      | apply load_sides_appends ]).
Qed.

(** X28.  [destroy] of a program hands the handle itself, the index of
    the slot, to [glDeleteProgram], not the native name that the slot
    holds, and leaves the slot as it is: a later [useProgram] of the
    handle still starts with [glUseProgram] of the program in the
    slot. *)
Theorem destroy_program_leaves_slot
    (handle : Z) (prg : Program.t) (d : Device) :
  ProgramHandle_isValid handle = true →
  pool_get (g_programs d) handle = Some prg →
  ∃ d1 rest,
    destroy_program handle d = Ret () d1
    ∧ g_log d1
      = g_log d ++ [EvAssert (g_thread d =? GetCurrentThreadId);
                    EvGL (glDeleteProgram handle) RNone]
    ∧ pool_get (g_programs d1) handle = Some prg
    ∧ g_log (res_device (useProgram handle d1))
      = g_log d1 ++ EvGL (glUseProgram (Program.handle prg)) RNone :: rest.
Proof.
  intros Hvalid Hprg.
  set (d1 := add_log [EvAssert (g_thread d =? GetCurrentThreadId);
                      EvGL (glDeleteProgram handle) RNone] d).
  assert (pool_get (g_programs d1) handle = Some prg) as Hprg1 by done.
  destruct (useProgram_first_event handle d1 prg Hvalid Hprg1) as (rest & Huse).
  exists d1, rest. split; [|done].
  unfold destroy_program, checkThread, ASSERT, gl_, emit, modify, get_device,
    bind, ret.
  rewrite Hvalid. by rewrite add_log_add_log.
Qed.

End EntryExtra.

(* ================================================================== *)
(** ** The further properties on the sample platforms *)

Lemma loadTexture_info_agrees_witness :
  {| width := 4; height := 4; depth := 1; layers := 1; mips := 1;
     is_cubemap := false |}
  = getTextureInfo (blob_read (Platform:=sample_platform) dxt1_4x4 128).1.
Proof.
  apply (loadTexture_info_agrees (H:=sample_platform) 0 dxt1_4x4 0
           sample_device (res_device sample_dxt1_load)).
  by vm_compute.
Defined.

Lemma loadTexture_failure_releases_witness :
  generated_names (g_log (res_device sample_bad_load)) = [3]
  ∧ ∃ evs, res_device sample_bad_load = add_log evs sample_device
           ∧ generated_names evs ⊆ deleted_names evs.
Proof.
  split; [by vm_compute|].
  apply (loadTexture_failure_releases (H:=sample_platform) 0 dxt1_bad_size_4x4
           0 true sample_device (res_device sample_bad_load) None).
  by vm_compute.
Defined.


Lemma loadTexture_plain_levels_witness :
  ∃ evs,
    g_log (res_device sample_bgra_load) = g_log sample_device ++ evs
    ∧ compressed_uploads evs = []
    ∧ blob_reads evs = [128; 16; 4].
Proof.
  apply (loadTexture_plain_levels (H:=sample_platform) 0 bgra8_2x2 0 false
           sample_device (res_device sample_bgra_load) None DDS.loadInfoBGRA8).
  - by vm_compute.
  - by vm_compute.
  - reflexivity.
Defined.

Lemma loadTexture_then_bindTexture_witness :
  bindTexture (H:=sample_platform) 2 0 (res_device sample_dxt1_load)
  = Ret ()
      (add_log
         [EvGL (glActiveTexture (GL_TEXTURE0 + 2)) RNone;
          EvGL (glBindTexture GL_TEXTURE_2D 3) RNone]
         (res_device sample_dxt1_load)).
Proof.
  apply (loadTexture_then_bindTexture (H:=sample_platform) 0 dxt1_4x4 0 true
           sample_device (res_device sample_dxt1_load)
           (Some {| width := 4; height := 4; depth := 1; layers := 1;
                    mips := 1; is_cubemap := false |}) 2).
  - reflexivity.
  - by vm_compute.
Defined.

Lemma createProgram_refusal_makes_no_call_witness :
  ∃ evs,
    createProgram (H:=sample_platform) [] [] 17 [] 0 "sample" sample_device
    = Ret (INVALID_PROGRAM (Platform:=sample_platform))
        (add_log evs sample_device)
    ∧ native_calls evs = [].
Proof.
  apply (createProgram_refusal_makes_no_call (H:=sample_platform)).
  right. unfold MAX_SHADERS_PER_PROGRAM. lia.
Defined.

Lemma createProgram_compile_failure_keeps_program_witness :
  head (native_calls sample_build_events) = Some glCreateProgram
  ∧ Forall not_delete_program sample_build_events.
Proof.
  apply (createProgram_compile_failure_keeps_program (H:=sample_platform)
           ["void main() {"%string] [ShaderType.VERTEX] 1 [] 0 "sample"
           sample_device sample_build_events).
  - vm_compute. reflexivity.
  - vm_compute. reflexivity.
Defined.

Lemma createProgram_link_failure_witness :
  sample_link_failure
  = Ret (INVALID_PROGRAM (Platform:=sample_platform))
      (add_log sample_link_failure_events sample_device)
  ∧ ∃ created,
      sample_link_failure_events !! 2%nat = Some (EvGL glCreateProgram created)
      ∧ last sample_link_failure_events
        = Some (EvGL (glDeleteProgram (as_int created)) RNone).
Proof.
  apply (createProgram_link_failure (H:=sample_platform) [] [] 0 [] 0 "sample"
           sample_device sample_link_failure_events).
  - vm_compute. reflexivity.
  - vm_compute. reflexivity.
Defined.

Lemma program_slots_never_reclaimed_witness :
  ∃ d1 evs,
    for_each (destroy_program (H:=sample_platform)) [0; 1; 0]
      device_without_program_slot = Ret () d1
    ∧ g_programs d1 = g_programs device_without_program_slot
    ∧ createProgram (H:=sample_platform) ["void main() {"%string]
        [ShaderType.VERTEX] 1 [] 0 "sample" d1
      = Ret (INVALID_PROGRAM (Platform:=sample_platform)) (add_log evs d1)
    ∧ native_calls evs = [].
Proof.
  apply (program_slots_never_reclaimed (H:=sample_platform)).
  reflexivity.
Defined.

Lemma setter_fits_allocation_witness :
  ∃ h d1 d2,
    allocUniform (H:=sample_platform) "u_color" UniformType.VEC4 2 preinit
    = Ret h d1
    ∧ setUniform4f (H:=sample_platform) h (replicate 16 Byte.x01) d1 = Ret () d2
    ∧ g_log d2 = g_log preinit ++ [EvAssert false; EvAssert true]
    ∧ pool_get (g_uniforms d2) h
      = Some {| Uniform.type := UniformType.VEC4;
                Uniform.count := 2;
                Uniform.data :=
                  replicate 16 Byte.x01 ++ replicate 16 Byte.x00 |}.
Proof.
  apply (setter_fits_allocation (H:=sample_platform) "u_color"
           (Set4f (replicate 16 Byte.x01)) 2 preinit
           (seqZ 0 Uniform.MAX_COUNT)).
  - apply preinit_wf.
  - reflexivity.
  - reflexivity.
  - lia.
  - simpl. lia.
  - simpl. lia.
Defined.

Lemma setter_overruns_short_allocation_witness :
  ∃ h d1 d2,
    allocUniform (H:=sample_platform) "u_count" UniformType.INT 0 preinit
    = Ret h d1
    ∧ setUniform1i (H:=sample_platform) h 5 d1 = Fault d2.
Proof.
  apply (setter_overruns_short_allocation (H:=sample_platform) "u_count"
           (Set1i 5) 0 preinit (seqZ 0 Uniform.MAX_COUNT)).
  - apply preinit_wf.
  - reflexivity.
  - reflexivity.
  - by vm_compute.
Defined.

Lemma allocUniform_checksum_collision_witness :
  ∃ h d1,
    allocUniform (H:=sample_platform) "u_a" UniformType.VEC4 1 preinit
    = Ret h d1
    ∧ allocUniform (H:=sample_platform) "u_b" UniformType.INT 3 d1 = Ret h d1
    ∧ slot_decl d1 h = Some (UniformType.VEC4, to_uint 1).
Proof.
  apply (allocUniform_checksum_collision (H:=sample_platform) "u_a" "u_b"
           UniformType.VEC4 UniformType.INT 1 3 preinit
           (seqZ 0 Uniform.MAX_COUNT)).
  - apply preinit_wf.
  - reflexivity.
  - reflexivity.
  - reflexivity.
Defined.

Lemma setter_value_reaches_driver_witness :
  ∃ evs data c,
    g_log (res_device sample_use) = g_log (res_device sample_set) ++ evs
    ∧ take 4 data = take 4 (le_bytes32 (-2))
    ∧ upload_call UniformType.INT 4 1 data = Some c
    ∧ EvGL c RNone ∈ evs
    ∧ ∀ value, Set1i (-2) = Set1i value → -2147483648 <= value <= INT_MAX →
        c = glUniform1i 4 value.
Proof.
  apply (setter_value_reaches_driver (H:=sample_platform) (Set1i (-2)) 0 1
           {| Program.handle := 5;
              Program.uniforms :=
                [{| Program.loc := 3; Program.uniform := 0 |};
                 {| Program.loc := 4; Program.uniform := 1 |}] |}
           {| Program.loc := 4; Program.uniform := 1 |}
           {| Uniform.type := UniformType.INT; Uniform.count := 1;
              Uniform.data := replicate 4 Byte.x00 |}
           device_with_uniform (res_device sample_set) (res_device sample_use)).
  - reflexivity.
  - by vm_compute.
  - right. left.
  - reflexivity.
  - by vm_compute.
  - reflexivity.
  - by vm_compute.
  - by vm_compute.
Defined.

Lemma createProgram_success_table_witness :
  ∃ p, pool_get (g_programs (res_device sample_link)) 0 = Some p
       ∧ Program.handle p
         = created_program (H:=linking_platform) sample_device 0
       ∧ (length (Program.uniforms p) ≤ 32)%nat
       ∧ located (Program.uniforms p).
Proof.
  apply (createProgram_success_table (H:=linking_platform)
           ["void main() {}"%string] [ShaderType.VERTEX] 1 [] 0 "sample"
           sample_device (res_device sample_link) 0).
  - by vm_compute.
  - by vm_compute.
  - by vm_compute.
Defined.

Lemma getUniformLocation_finds_witness :
  ∃ loc,
    getUniformLocation 0 1 device_with_uniform
    = Ret loc device_with_uniform
    ∧ (loc = -1 ↔ ∀ pu, pu ∈ [{| Program.loc := 3; Program.uniform := 0 |};
                               {| Program.loc := 4; Program.uniform := 1 |}] →
                        Program.uniform pu ≠ 1)
    ∧ (loc ≠ -1 →
       ∃ before pu after,
         [{| Program.loc := 3; Program.uniform := 0 |};
          {| Program.loc := 4; Program.uniform := 1 |}] = before ++ pu :: after
         ∧ (∀ x, x ∈ before → Program.uniform x ≠ 1)
         ∧ Program.uniform pu = 1
         ∧ Program.loc pu = loc).
Proof.
  apply (getUniformLocation_finds 0 1
           {| Program.handle := 5;
              Program.uniforms :=
                [{| Program.loc := 3; Program.uniform := 0 |};
                 {| Program.loc := 4; Program.uniform := 1 |}] |}
           device_with_uniform).
  - by vm_compute.
  - repeat constructor; simpl; lia.
Defined.

Lemma fresh_buffer_handle_binds_zero_witness :
  setIndexBuffer (H:=sample_platform) 0
    (res_device (allocBufferHandle 0xffffffff sample_device))
  = Ret ()
      (add_log [EvGL (glBindBuffer GL_ELEMENT_ARRAY_BUFFER 0) RNone]
         (res_device (allocBufferHandle 0xffffffff
                        sample_device))).
Proof.
  apply (fresh_buffer_handle_binds_zero (H:=sample_platform) 0xffffffff
           sample_device).
  - reflexivity.
  - by vm_compute.
  - by vm_compute.
Defined.

Lemma flipBlockDXTC1_reverses_rows_witness :
  Flip.flipBlockDXTC1
    ([Byte.xff] ++ mjoin [byte_of <$> seqZ 0 8; byte_of <$> seqZ 8 8] ++ [Byte.xfe])
    (length [Byte.xff]) (Z.of_nat 2)
  = Some ([Byte.xff]
          ++ mjoin (Flip.flip_colour
                    <$> [byte_of <$> seqZ 0 8; byte_of <$> seqZ 8 8])
          ++ [Byte.xfe])
  ∧ Flip.flipBlockDXTC1
      ([Byte.xff]
       ++ mjoin (Flip.flip_colour
                 <$> [byte_of <$> seqZ 0 8; byte_of <$> seqZ 8 8])
       ++ [Byte.xfe])
      (length [Byte.xff]) (Z.of_nat 2)
    = Some ([Byte.xff] ++ mjoin [byte_of <$> seqZ 0 8; byte_of <$> seqZ 8 8]
            ++ [Byte.xfe]).
Proof.
  apply (flipBlockDXTC1_reverses_rows [Byte.xff]
           [byte_of <$> seqZ 0 8; byte_of <$> seqZ 8 8] [Byte.xfe]).
  by repeat constructor.
Defined.

Lemma flipBlockDXTC3_reverses_rows_witness :
  Flip.flipBlockDXTC3
    ([Byte.xff] ++ mjoin [byte_of <$> seqZ 0 16] ++ [Byte.xfe])
    (length [Byte.xff]) (Z.of_nat 1)
  = Some ([Byte.xff] ++ mjoin (Flip.flip_block3 <$> [byte_of <$> seqZ 0 16])
          ++ [Byte.xfe])
  ∧ Flip.flipBlockDXTC3
      ([Byte.xff] ++ mjoin (Flip.flip_block3 <$> [byte_of <$> seqZ 0 16])
       ++ [Byte.xfe])
      (length [Byte.xff]) (Z.of_nat 1)
    = Some ([Byte.xff] ++ mjoin [byte_of <$> seqZ 0 16] ++ [Byte.xfe]).
Proof.
  apply (flipBlockDXTC3_reverses_rows [Byte.xff] [byte_of <$> seqZ 0 16]
           [Byte.xfe]).
  by repeat constructor.
Defined.

Lemma flipCompressedTexture_mirrors_witness :
  Flip.flipCompressedTexture 4 12 GL_COMPRESSED_RGBA_S3TC_DXT1_EXT
    (Flip.bytes_of Flip.sample_surface ++ [])
  = Flip.Flipped
      (Flip.bytes_of
         (Flip.mirror 3 (fmap Flip.flip_block1) Flip.sample_surface) ++ []).
Proof.
  apply (flipCompressedTexture_mirrors 4 12 GL_COMPRESSED_RGBA_S3TC_DXT1_EXT
           8 Flip.flip_block1 1 3 Flip.sample_surface []).
  - reflexivity.
  - reflexivity.
  - reflexivity.
  - lia.
  - split; [reflexivity|]. by repeat constructor.
  - by vm_compute.
  - by vm_compute.
Defined.

Lemma flipCompressedTexture_twice_witness :
  ∃ flipped,
    Flip.flipCompressedTexture 4 12 GL_COMPRESSED_RGBA_S3TC_DXT3_EXT
      (Flip.bytes_of [[byte_of <$> seqZ 0 16]; [byte_of <$> seqZ 16 16];
                      [byte_of <$> seqZ 32 16]] ++ [Byte.xff])
    = Flip.Flipped flipped
    ∧ Flip.flipCompressedTexture 4 12 GL_COMPRESSED_RGBA_S3TC_DXT3_EXT flipped
      = Flip.Flipped
          (Flip.bytes_of [[byte_of <$> seqZ 0 16]; [byte_of <$> seqZ 16 16];
                          [byte_of <$> seqZ 32 16]] ++ [Byte.xff]).
Proof.
  apply (flipCompressedTexture_twice 4 12 GL_COMPRESSED_RGBA_S3TC_DXT3_EXT
           16 Flip.flip_block3 1 3).
  - unfold Flip.byte_formats. set_solver.
  - reflexivity.
  - reflexivity.
  - reflexivity.
  - lia.
  - split; [reflexivity|]. by repeat constructor.
  - by vm_compute.
  - by vm_compute.
Defined.

Lemma useProgram_uploads_table_witness :
  ∃ prg calls,
    pool_get (g_programs device_with_uniform) 0 = Some prg
    ∧ res_device (useProgram (H:=sample_platform) 0 device_with_uniform)
      = add_log (call_event <$> glUseProgram (Program.handle prg) :: calls)
          device_with_uniform
    ∧ Forall2 (uploads device_with_uniform) (Program.uniforms prg) calls.
Proof.
  apply (useProgram_uploads_table (H:=sample_platform) 0 device_with_uniform
           (res_device (useProgram (H:=sample_platform) 0 device_with_uniform))).
  - reflexivity.
  - by vm_compute.
Defined.

Lemma destroy_program_leaves_slot_witness :
  ∃ d1 rest,
    destroy_program (H:=sample_platform) 0 device_with_uniform = Ret () d1
    ∧ g_log d1
      = g_log device_with_uniform
        ++ [EvAssert (g_thread device_with_uniform
                      =? GetCurrentThreadId (Platform:=sample_platform));
            EvGL (glDeleteProgram 0) RNone]
    ∧ pool_get (g_programs d1) 0
      = Some {| Program.handle := 5;
                Program.uniforms :=
                  [{| Program.loc := 3; Program.uniform := 0 |};
                   {| Program.loc := 4; Program.uniform := 1 |}] |}
    ∧ g_log (res_device (useProgram (H:=sample_platform) 0 d1))
      = g_log d1 ++ EvGL (glUseProgram 5) RNone :: rest.
Proof.
  apply (destroy_program_leaves_slot (H:=sample_platform) 0
           {| Program.handle := 5;
              Program.uniforms :=
                [{| Program.loc := 3; Program.uniform := 0 |};
                 {| Program.loc := 4; Program.uniform := 1 |}] |}
           device_with_uniform).
  - reflexivity.
  - by vm_compute.
Defined.
